(** * A contact book with birthdays: model of [main.py] and its properties

    The program keeps an [AddressBook] (a dictionary from names to [Record]
    objects), validates phone numbers and birthdays, lists the birthdays of
    the coming week and wraps every command handler in [input_error].

    The model follows the source function by function.  Python strings are
    sequences of Unicode code points, objects live in a heap and are named
    by their location, exceptions are values of [exn], and a method is a
    function from the world to a result and the world it leaves behind. *)

From Stdlib Require Import ZArith Lia List Bool String Ascii.
From stdpp Require Import base decidable option list.
Import ListNotations.
Local Open Scope Z_scope.

(** ** Strings *)

(** A Python [str]: its code points, in order.  [len] is [length]. *)
Abbreviation char := Z (only parsing).
Definition str := list Z.

(** A literal of the source, as code points. *)
Definition lit (s : String.string) : str :=
  List.map (fun a => Z.of_N (N_of_ascii a)) (list_ascii_of_string s).

Definition in_range (lo hi c : Z) : bool := (lo <=? c) && (c <=? hi).

Definition ch_space : char := 32.
Definition ch_dot : char := 46.
Definition ch_0 : char := 48.
Definition ch_1 : char := 49.
Definition ch_2 : char := 50.
Definition ch_3 : char := 51.
Definition ch_9 : char := 57.

(** The characters '0'..'9'. *)
Definition ascii_digit (c : char) : bool := in_range ch_0 ch_9 c.

(** *** The Unicode database (version 14.0, the one of CPython 3.11)

    Every character of general category Nd belongs to a run of ten
    consecutive code points with the values 0..9; the table lists the first
    code point of each run. *)
Definition decimal_runs : list Z :=
  [0x30; 0x660; 0x6f0; 0x7c0; 0x966; 0x9e6; 0xa66; 0xae6; 0xb66; 0xbe6;
   0xc66; 0xce6; 0xd66; 0xde6; 0xe50; 0xed0; 0xf20; 0x1040; 0x1090; 0x17e0;
   0x1810; 0x1946; 0x19d0; 0x1a80; 0x1a90; 0x1b50; 0x1bb0; 0x1c40; 0x1c50;
   0xa620; 0xa8d0; 0xa900; 0xa9d0; 0xa9f0; 0xaa50; 0xabf0; 0xff10; 0x104a0;
   0x10d30; 0x11066; 0x110f0; 0x11136; 0x111d0; 0x112f0; 0x11450; 0x114d0;
   0x11650; 0x116c0; 0x11730; 0x118e0; 0x11950; 0x11c50; 0x11d50; 0x11da0;
   0x16a60; 0x16ac0; 0x16b50; 0x1d7ce; 0x1d7d8; 0x1d7e2; 0x1d7ec; 0x1d7f6;
   0x1e140; 0x1e2f0; 0x1e950; 0x1fbf0].

(** The characters with Numeric_Type=Digit that are not decimal:
    superscripts, subscripts, circled digits and the like. *)
Definition other_digit_ranges : list (Z * Z) :=
  [(0xb2, 0xb3); (0xb9, 0xb9); (0x1369, 0x1371); (0x19da, 0x19da);
   (0x2070, 0x2070); (0x2074, 0x2079); (0x2080, 0x2089); (0x2460, 0x2468);
   (0x2474, 0x247c); (0x2488, 0x2490); (0x24ea, 0x24ea); (0x24f5, 0x24fd);
   (0x24ff, 0x24ff); (0x2776, 0x277e); (0x2780, 0x2788); (0x278a, 0x2792);
   (0x10a40, 0x10a43); (0x10e60, 0x10e68); (0x11052, 0x1105a);
   (0x1f100, 0x1f10a)].

(** [Py_UNICODE_TODECIMAL]: the value of a decimal digit. *)
Definition to_decimal (c : char) : option Z :=
  match List.find (fun s => in_range s (s + 9) c) decimal_runs with
  | Some s => Some (c - s)
  | None => None
  end.

(** What [\d] matches in a [str] pattern, and [str.isdecimal] on a character. *)
Definition isdecimal_char (c : char) : bool :=
  match to_decimal c with Some _ => true | None => false end.

(** [str.isdigit] on one character. *)
Definition isdigit_char (c : char) : bool :=
  isdecimal_char c
  || List.existsb (fun r => in_range (fst r) (snd r) c) other_digit_ranges.

(** [str.isdigit]: the string is not empty and every character is a digit. *)
Definition str_isdigit (s : str) : bool :=
  match s with
  | [] => false
  | _ => List.forallb isdigit_char s
  end.

(** [int(s)] on the strings met here: optional leading blanks, then decimal
    digits of any script. *)
Fixpoint int_digits (acc : Z) (s : str) : option Z :=
  match s with
  | [] => Some acc
  | c :: s' =>
      match to_decimal c with
      | Some v => int_digits (10 * acc + v) s'
      | None => None
      end
  end.

Fixpoint lstrip (s : str) : str :=
  match s with
  | c :: s' => if c =? ch_space then lstrip s' else s
  | [] => []
  end.

Definition py_int (s : str) : option Z :=
  match lstrip s with
  | [] => None
  | s' => int_digits 0 s'
  end.

(** Decimal rendering of a non-negative integer, [str(n)]. *)
Fixpoint decimal_fuel (fuel : nat) (n : Z) (acc : str) : str :=
  match fuel with
  | O => acc
  | S fuel' =>
      let acc' := (ch_0 + n mod 10) :: acc in
      if n / 10 =? 0 then acc' else decimal_fuel fuel' (n / 10) acc'
  end.

Definition str_of_Z (n : Z) : str := decimal_fuel (S (Z.to_nat n)) n [].

(** [%02d]. *)
Definition pad2 (n : Z) : str :=
  if n <? 10 then ch_0 :: str_of_Z n else str_of_Z n.

(** ** Exceptions *)

Inductive exn : Type :=
| ValueError (msg : str)
| AttributeError (msg : str)
| KeyError (msg : str)
| OverflowError (msg : str).

(** [str(e)]. *)
Definition exn_str (e : exn) : str :=
  match e with
  | ValueError m | AttributeError m | KeyError m | OverflowError m => m
  end.

Inductive result (A : Type) : Type :=
| Ok (a : A)
| Raise (e : exn).
Arguments Ok {A} a.
Arguments Raise {A} e.

Definition is_ok {A} (r : result A) : bool :=
  match r with Ok _ => true | Raise _ => false end.

(** ** Calendar dates, after [datetime.date] *)

Module Date.

Definition MINYEAR : Z := 1.
Definition MAXYEAR : Z := 9999.
Definition MAXORDINAL : Z := 3652059.

Record date : Type := mk { year : Z; month : Z; day : Z }.

Definition is_leap (y : Z) : bool :=
  (y mod 4 =? 0) && (negb (y mod 100 =? 0) || (y mod 400 =? 0)).

Definition DAYS_IN_MONTH (m : Z) : Z :=
  match m with
  | 1 => 31 | 2 => 28 | 3 => 31 | 4 => 30 | 5 => 31 | 6 => 30
  | 7 => 31 | 8 => 31 | 9 => 30 | 10 => 31 | 11 => 30 | 12 => 31
  | _ => 0
  end.

Definition days_in_month (y m : Z) : Z :=
  if (m =? 2) && is_leap y then 29 else DAYS_IN_MONTH m.

(** The days of the months before [m] in a common year. *)
Definition DAYS_BEFORE_MONTH (m : Z) : Z :=
  match m with
  | 1 => 0 | 2 => 31 | 3 => 59 | 4 => 90 | 5 => 120 | 6 => 151
  | 7 => 181 | 8 => 212 | 9 => 243 | 10 => 273 | 11 => 304 | 12 => 334
  | _ => 0
  end.

Definition days_before_year (y : Z) : Z :=
  let y1 := y - 1 in y1 * 365 + y1 / 4 - y1 / 100 + y1 / 400.

Definition days_before_month (y m : Z) : Z :=
  DAYS_BEFORE_MONTH m + (if (2 <? m) && is_leap y then 1 else 0).

Definition ymd2ord (y m d : Z) : Z :=
  days_before_year y + days_before_month y m + d.

Definition DI400Y : Z := 146097.
Definition DI100Y : Z := 36524.
Definition DI4Y : Z := 1461.

Definition ord2ymd (n0 : Z) : date :=
  let n := n0 - 1 in
  let n400 := n / DI400Y in
  let n := n mod DI400Y in
  let y := n400 * 400 + 1 in
  let n100 := n / DI100Y in
  let n := n mod DI100Y in
  let n4 := n / DI4Y in
  let n := n mod DI4Y in
  let n1 := n / 365 in
  let n := n mod 365 in
  let y := y + n100 * 100 + n4 * 4 + n1 in
  if (n1 =? 4) || (n100 =? 4) then mk (y - 1) 12 31
  else
    let leapyear := (n1 =? 3) && (negb (n4 =? 24) || (n100 =? 3)) in
    let m := Z.shiftr (n + 50) 5 in
    let preceding :=
      DAYS_BEFORE_MONTH m + (if (2 <? m) && leapyear then 1 else 0) in
    if n <? preceding then
      let m' := m - 1 in
      let preceding' :=
        preceding
        - (DAYS_IN_MONTH m' + (if (m' =? 2) && leapyear then 1 else 0)) in
      mk y m' (n - preceding' + 1)
    else mk y m (n - preceding + 1).

(** The checks of the constructor [date(year, month, day)]. *)
Definition valid (d : date) : Prop :=
  MINYEAR <= year d <= MAXYEAR /\ 1 <= month d <= 12
  /\ 1 <= day d <= days_in_month (year d) (month d).

Definition validb (d : date) : bool :=
  in_range MINYEAR MAXYEAR (year d) && in_range 1 12 (month d)
  && in_range 1 (days_in_month (year d) (month d)) (day d).

(** [date(y, m, d)], with the messages of the C implementation. *)
Definition new (y m d : Z) : result date :=
  if negb (in_range MINYEAR MAXYEAR y) then
    Raise (ValueError (lit "year " ++ (if y <? 0 then lit "-" ++ str_of_Z (- y)
                                       else str_of_Z y)
                       ++ lit " is out of range"))
  else if negb (in_range 1 12 m) then
    Raise (ValueError (lit "month must be in 1..12"))
  else if negb (in_range 1 (days_in_month y m) d) then
    Raise (ValueError (lit "day is out of range for month"))
  else Ok (mk y m d).

(** [d.replace(year=y)]. *)
Definition replace_year (d : date) (y : Z) : result date :=
  new y (month d) (day d).

Definition toordinal (d : date) : Z := ymd2ord (year d) (month d) (day d).

(** Monday is 0 and Sunday is 6. *)
Definition weekday (d : date) : Z := (toordinal d + 6) mod 7.

(** [d1 < d2]: the order of (year, month, day). *)
Definition ltb (d1 d2 : date) : bool :=
  (year d1 <? year d2)
  || ((year d1 =? year d2)
      && ((month d1 <? month d2)
          || ((month d1 =? month d2) && (day d1 <? day d2)))).

(** [(d1 - d2).days]. *)
Definition sub_days (d1 d2 : date) : Z := toordinal d1 - toordinal d2.

(** [d + timedelta(days=k)]. *)
Definition add_days (d : date) (k : Z) : result date :=
  let o := toordinal d + k in
  if (0 <? o) && (o <=? MAXORDINAL) then Ok (ord2ymd o)
  else Raise (OverflowError (lit "date value out of range")).

(** [d.strftime("%d.%m.%Y")]; the C library writes the year without
    padding. *)
Definition strftime_dmY (d : date) : str :=
  pad2 (day d) ++ [ch_dot] ++ pad2 (month d) ++ [ch_dot] ++ str_of_Z (year d).

End Date.

(** ** [datetime.strptime(value, "%d.%m.%Y")]

    The format is compiled to the regular expression
    [(?P<d>3[0-1]|[1-2]\d|0[1-9]|[1-9]| [1-9])\.(?P<m>1[0-2]|0[1-9]|[1-9])\.(?P<Y>\d\d\d\d)],
    matched at the start of the string; the whole string must be consumed;
    the groups are converted with [int] and the date is built. *)

(** The ways a group matches a prefix of [s], in the order of the
    alternatives: each is the matched text and what follows it. *)
Definition re_d (s : str) : list (str * str) :=
  match s with
  | a :: b :: r =>
      (if (a =? ch_3) && in_range ch_0 ch_1 b then [([a; b], r)] else [])
      ++ (if in_range ch_1 ch_2 a && isdecimal_char b then [([a; b], r)] else [])
      ++ (if (a =? ch_0) && in_range ch_1 ch_9 b then [([a; b], r)] else [])
      ++ (if in_range ch_1 ch_9 a then [([a], b :: r)] else [])
      ++ (if (a =? ch_space) && in_range ch_1 ch_9 b then [([a; b], r)] else [])
  | [a] => if in_range ch_1 ch_9 a then [([a], [])] else []
  | [] => []
  end.

Definition re_m (s : str) : list (str * str) :=
  match s with
  | a :: b :: r =>
      (if (a =? ch_1) && in_range ch_0 ch_2 b then [([a; b], r)] else [])
      ++ (if (a =? ch_0) && in_range ch_1 ch_9 b then [([a; b], r)] else [])
      ++ (if in_range ch_1 ch_9 a then [([a], b :: r)] else [])
  | [a] => if in_range ch_1 ch_9 a then [([a], [])] else []
  | [] => []
  end.

Definition re_Y (s : str) : option (str * str) :=
  match s with
  | a :: b :: c :: d :: r =>
      if isdecimal_char a && isdecimal_char b && isdecimal_char c
         && isdecimal_char d
      then Some ([a; b; c; d], r) else None
  | _ => None
  end.

Definition re_dot (s : str) : option str :=
  match s with
  | c :: r => if c =? ch_dot then Some r else None
  | [] => None
  end.

(** Backtracking: the first alternative after which the rest matches. *)
Fixpoint first_match {A B : Type} (k : A -> option B) (alts : list A)
  : option B :=
  match alts with
  | [] => None
  | a :: alts' =>
      match k a with
      | Some b => Some b
      | None => first_match k alts'
      end
  end.

(** The groups d, m, Y and the text left after the match. *)
Definition re_match_dmY (s : str) : option (str * str * str * str) :=
  first_match
    (fun d =>
       match re_dot (snd d) with
       | None => None
       | Some s1 =>
           first_match
             (fun m =>
                match re_dot (snd m) with
                | None => None
                | Some s2 =>
                    match re_Y s2 with
                    | Some (y, rest) => Some (fst d, fst m, y, rest)
                    | None => None
                    end
                end)
             (re_m s1)
       end)
    (re_d s).

(** [repr] of a string without quotes, backslashes or control characters. *)
Definition quoted (s : str) : str := lit "'" ++ s ++ lit "'".

Definition strptime_dmY (s : str) : result Date.date :=
  match re_match_dmY s with
  | None =>
      Raise (ValueError (lit "time data " ++ quoted s
                         ++ lit " does not match format '%d.%m.%Y'"))
  | Some (d, m, y, rest) =>
      match rest with
      | _ :: _ =>
          Raise (ValueError (lit "unconverted data remains: " ++ rest))
      | [] =>
          match py_int y, py_int m, py_int d with
          | Some year, Some month, Some day => Date.new year month day
          | _, _, _ =>
              Raise (ValueError (lit "invalid literal for int() with base 10"))
          end
      end
  end.

(** ** Fields *)

(** [Field] keeps a [value]; the three subclasses validate it first. *)
Record Name : Type := mkName { name_value : str }.
Record Phone : Type := mkPhone { phone_value : str }.
Record Birthday : Type := mkBirthday { birthday_value : str }.

Definition Name_init (value : str) : result Name :=
  match value with
  | [] => Raise (ValueError (lit "Name cannot be empty"))
  | _ => Ok (mkName value)
  end.

Definition Phone_init (value : str) : result Phone :=
  if negb (str_isdigit value) || negb (Nat.eqb (length value) 10) then
    Raise (ValueError (lit "Phone must contain exactly 10 digits"))
  else Ok (mkPhone value).

Definition Birthday_init (value : str) : result Birthday :=
  match strptime_dmY value with
  | Ok _ => Ok (mkBirthday value)
  | Raise (ValueError _) =>
      Raise (ValueError (lit "Invalid date format. Use DD.MM.YYYY"))
  | Raise e => Raise e
  end.

Definition Birthday_date_obj (b : Birthday) : result Date.date :=
  strptime_dmY (birthday_value b).

#[global] Instance Phone_eq_dec : EqDecision Phone.
Proof. solve_decision. Defined.

(** ** Objects and the world *)

(** A [Record] object: [name], [phones], [birthday]. *)
Record record : Type :=
  mkRecord { name : Name; phones : list Phone; birthday : option Birthday }.

(** Objects are named by their location in the heap. *)
Definition loc := nat.

(** The [Record] objects allocated so far and the [data] dictionary of the
    address book, which holds references to them in insertion order. *)
Record world : Type := mkWorld { heap : list record; data : list (str * loc) }.

Definition empty_world : world := mkWorld [] [].

(** *** Insertion-ordered dictionaries *)

Section Dict.
Context {V : Type}.

(** [d.get(k)]. *)
Fixpoint dict_get (k : str) (d : list (str * V)) : option V :=
  match d with
  | [] => None
  | (k', v) :: d' => if bool_decide (k' = k) then Some v else dict_get k d'
  end.

(** [d[k] = v]: a known key keeps its place, a new key goes last. *)
Fixpoint dict_set (k : str) (v : V) (d : list (str * V)) : list (str * V) :=
  match d with
  | [] => [(k, v)]
  | (k', v') :: d' =>
      if bool_decide (k' = k) then (k', v) :: d'
      else (k', v') :: dict_set k v d'
  end.

(** [del d[k]], for a key that is there. *)
Fixpoint dict_del (k : str) (d : list (str * V)) : list (str * V) :=
  match d with
  | [] => []
  | (k', v') :: d' =>
      if bool_decide (k' = k) then d' else (k', v') :: dict_del k d'
  end.

(** [k in d]. *)
Definition dict_mem (k : str) (d : list (str * V)) : bool :=
  match dict_get k d with Some _ => true | None => false end.

Definition dict_keys (d : list (str * V)) : list str := List.map fst d.
Definition dict_values (d : list (str * V)) : list V := List.map snd d.
End Dict.

(** *** Computations: a result and the world left behind

    An exception leaves the world as it was when it was raised. *)
Definition M (A : Type) : Type := world -> result A * world.

Definition ret {A} (a : A) : M A := fun w => (Ok a, w).
Definition raise {A} (e : exn) : M A := fun w => (Raise e, w).
Definition bind {A B} (c : M A) (k : A -> M B) : M B :=
  fun w =>
    match c w with
    | (Ok a, w') => k a w'
    | (Raise e, w') => (Raise e, w')
    end.
Definition lift {A} (r : result A) : M A := fun w => (r, w).

Declare Scope py_scope.
Delimit Scope py_scope with py.
Notation "x <- c ;; k" := (bind c (fun x => k))
  (at level 100, c at next level, right associativity) : py_scope.
Local Open Scope py_scope.

(** Reading and writing the object at a location.  The program only holds
    locations it obtained from [Record_init]; the error branch answers for
    the others. *)
Definition load (l : loc) : M record :=
  fun w =>
    match heap w !! l with
    | Some r => (Ok r, w)
    | None => (Raise (AttributeError (lit "no such object")), w)
    end.

Definition store (l : loc) (r : record) : M unit :=
  fun w => (Ok tt, mkWorld (<[l := r]> (heap w)) (data w)).

Definition alloc (r : record) : M loc :=
  fun w => (Ok (length (heap w)), mkWorld (heap w ++ [r]) (data w)).

(** ** class Record *)

Definition Record_init (name : str) : M loc :=
  n <- lift (Name_init name) ;;
  alloc (mkRecord n [] None).

Definition Record_add_phone (self : loc) (phone : str) : M unit :=
  p <- lift (Phone_init phone) ;;
  r <- load self ;;
  store self (mkRecord (name r) (phones r ++ [p]) (birthday r)).

(** The first phone whose value is [phone]. *)
Definition find_phone_in (phone : str) (l : list Phone) : option Phone :=
  List.find (fun ph => bool_decide (phone_value ph = phone)) l.

Definition Record_find_phone (self : loc) (phone : str) : M (option Phone) :=
  r <- load self ;;
  ret (find_phone_in phone (phones r)).

(** [l.remove(x)] and [l.index(x)] look for the first element equal to [x]
    and raise [ValueError] when there is none.  [Phone] defines no [__eq__],
    so Python compares identities; [x] is here always the object that
    [find_phone] found at the first position holding its value, and no
    earlier position can hold the same object, so comparing values selects
    the same position. *)
Fixpoint list_remove (x : Phone) (l : list Phone) : result (list Phone) :=
  match l with
  | [] => Raise (ValueError (lit "list.remove(x): x not in list"))
  | y :: l' =>
      if bool_decide (y = x) then Ok l'
      else match list_remove x l' with
           | Ok l'' => Ok (y :: l'')
           | Raise e => Raise e
           end
  end.

Fixpoint list_index (x : Phone) (l : list Phone) : result nat :=
  match l with
  | [] => Raise (ValueError (lit "x is not in list"))
  | y :: l' =>
      if bool_decide (y = x) then Ok O
      else match list_index x l' with
           | Ok i => Ok (S i)
           | Raise e => Raise e
           end
  end.

Definition Record_remove_phone (self : loc) (phone : str) : M unit :=
  ph_obj <- Record_find_phone self phone ;;
  match ph_obj with
  | Some ph =>
      r <- load self ;;
      l <- lift (list_remove ph (phones r)) ;;
      store self (mkRecord (name r) l (birthday r))
  | None => ret tt
  end.

Definition Record_edit_phone (self : loc) (old_phone new_phone : str)
  : M unit :=
  ph_obj <- Record_find_phone self old_phone ;;
  match ph_obj with
  | None =>
      raise (ValueError (lit "Phone " ++ old_phone ++ lit " not found"))
  | Some ph =>
      new_ph <- lift (Phone_init new_phone) ;;
      r <- load self ;;
      index <- lift (list_index ph (phones r)) ;;
      store self (mkRecord (name r) (<[index := new_ph]> (phones r))
                    (birthday r))
  end.

Definition Record_add_birthday (self : loc) (bday : str) : M unit :=
  b <- lift (Birthday_init bday) ;;
  r <- load self ;;
  store self (mkRecord (name r) (phones r) (Some b)).

(** [sep.join(parts)]. *)
Fixpoint join (sep : str) (parts : list str) : str :=
  match parts with
  | [] => []
  | [p] => p
  | p :: ps => p ++ sep ++ join sep ps
  end.

Definition Record_str (r : record) : str :=
  let phones_str := join (lit "; ") (List.map phone_value (phones r)) in
  let bday_str :=
    match birthday r with
    | Some b => lit ", birthday: " ++ birthday_value b
    | None => []
    end in
  lit "Contact name: " ++ name_value (name r) ++ lit ", phones: "
  ++ phones_str ++ bday_str.

(** ** class AddressBook *)

Definition AddressBook_add_record (rec : loc) : M unit :=
  r <- load rec ;;
  (fun w => (Ok tt, mkWorld (heap w) (dict_set (name_value (name r)) rec (data w)))).

Definition AddressBook_find (name : str) : M (option loc) :=
  fun w => (Ok (dict_get name (data w)), w).

Definition AddressBook_delete (name : str) : M unit :=
  fun w =>
    if dict_mem name (data w)
    then (Ok tt, mkWorld (heap w) (dict_del name (data w)))
    else (Ok tt, w).

Definition adjust_for_weekend (date_obj : Date.date) : result Date.date :=
  if Date.weekday date_obj =? 5 then Date.add_days date_obj 2
  else if Date.weekday date_obj =? 6 then Date.add_days date_obj 1
  else Ok date_obj.

(** One entry of the answer: the dictionary with the keys "name" and
    "birthday". *)
Record upcoming : Type := mkUpcoming { u_name : str; u_birthday : str }.

(** The body of the loop over the records, for the list built so far. *)
Definition upcoming_body (today : Date.date) (days : Z)
    (upcoming_birthdays : list upcoming) (rec : loc) : M (list upcoming) :=
  r <- load rec ;;
  match birthday r with
  | None => ret upcoming_birthdays
  | Some b =>
      bday <- lift (Birthday_date_obj b) ;;
      birthday_this_year <- lift (Date.replace_year bday (Date.year today)) ;;
      birthday_this_year <-
        (if Date.ltb birthday_this_year today
         then lift (Date.replace_year birthday_this_year (Date.year today + 1))
         else ret birthday_this_year) ;;
      let delta := Date.sub_days birthday_this_year today in
      if (0 <=? delta) && (delta <=? days) then
        shown <- lift (adjust_for_weekend birthday_this_year) ;;
        ret (upcoming_birthdays
             ++ [mkUpcoming (name_value (name r)) (Date.strftime_dmY shown)])
      else ret upcoming_birthdays
  end.

Fixpoint for_each {A B : Type} (body : A -> B -> M A) (acc : A) (l : list B)
  : M A :=
  match l with
  | [] => ret acc
  | x :: l' => acc' <- body acc x ;; for_each body acc' l'
  end.

(** [today] stands for [date.today()]. *)
Definition AddressBook_get_upcoming_birthdays (today : Date.date) (days : Z)
  : M (list upcoming) :=
  fun w => for_each (upcoming_body today days) [] (dict_values (data w)) w.

(** The records of the book, in insertion order; a reference to nothing
    is skipped. *)
Definition book_records (w : world) : list record :=
  omap (fun l => heap w !! l) (dict_values (data w)).

Definition AddressBook_str (w : world) : str :=
  match data w with
  | [] => lit "Address book is empty"
  | _ => join [10] (List.map Record_str (book_records w))
  end.

(** ** The command handlers *)

(** The decorator: whatever the handler raises becomes the text to print. *)
Definition input_error (func : M str) : world -> str * world :=
  fun w =>
    match func w with
    | (Ok s, w') => (s, w')
    | (Raise (ValueError m), w') =>
        (match m with [] => lit "Not enough arguments." | _ => m end, w')
    | (Raise (AttributeError _), w') => (lit "Contact not found.", w')
    | (Raise (KeyError _), w') => (lit "Contact not found.", w')
    | (Raise e, w') => (lit "Error: " ++ exn_str e, w')
    end.

(** Unpacking the argument list into a fixed number of names. *)
Definition unpack_error (expected got : nat) : exn :=
  if (got <? expected)%nat then
    ValueError (lit "not enough values to unpack (expected "
                ++ str_of_Z (Z.of_nat expected) ++ lit ", got "
                ++ str_of_Z (Z.of_nat got) ++ lit ")")
  else
    ValueError (lit "too many values to unpack (expected "
                ++ str_of_Z (Z.of_nat expected) ++ lit ")").

Definition unpack1 (args : list str) : result str :=
  match args with
  | [a] => Ok a
  | _ => Raise (unpack_error 1 (length args))
  end.

Definition unpack2 (args : list str) : result (str * str) :=
  match args with
  | [a; b] => Ok (a, b)
  | _ => Raise (unpack_error 2 (length args))
  end.

Definition unpack3 (args : list str) : result (str * str * str) :=
  match args with
  | [a; b; c] => Ok (a, b, c)
  | _ => Raise (unpack_error 3 (length args))
  end.

(** Looking up a method on what [find] returned: [None] has none. *)
Definition attr_of (rec : option loc) (attr : String.string) : M loc :=
  match rec with
  | Some l => ret l
  | None =>
      raise (AttributeError (lit "'NoneType' object has no attribute '"
                             ++ lit attr ++ lit "'"))
  end.

Definition add_contact_func (args : list str) : M str :=
  np <- lift (unpack2 args) ;;
  let name := fst np in
  let phone := snd np in
  found <- AddressBook_find name ;;
  rm <- match found with
        | None =>
            rec <- Record_init name ;;
            _ <- AddressBook_add_record rec ;;
            ret (rec, lit "Contact added.")
        | Some rec => ret (rec, lit "Contact updated.")
        end ;;
  _ <- Record_add_phone (fst rm) phone ;;
  ret (snd rm).

Definition add_contact (args : list str) : world -> str * world :=
  input_error (add_contact_func args).

Definition change_contact_func (args : list str) : M str :=
  a <- lift (unpack3 args) ;;
  let name := fst (fst a) in
  let old_phone := snd (fst a) in
  let new_phone := snd a in
  found <- AddressBook_find name ;;
  rec <- attr_of found "edit_phone" ;;
  _ <- Record_edit_phone rec old_phone new_phone ;;
  ret (lit "Phone updated.").

Definition change_contact (args : list str) : world -> str * world :=
  input_error (change_contact_func args).

Definition show_phone_func (args : list str) : M str :=
  name <- lift (unpack1 args) ;;
  found <- AddressBook_find name ;;
  match found with
  | None => ret (lit "No phones found for this contact.")
  | Some rec =>
      r <- load rec ;;
      match phones r with
      | [] => ret (lit "No phones found for this contact.")
      | _ => ret (join (lit "; ") (List.map phone_value (phones r)))
      end
  end.

Definition show_phone (args : list str) : world -> str * world :=
  input_error (show_phone_func args).

Definition show_all (w : world) : str := AddressBook_str w.

Definition add_birthday_func (args : list str) : M str :=
  nb <- lift (unpack2 args) ;;
  found <- AddressBook_find (fst nb) ;;
  rec <- attr_of found "add_birthday" ;;
  _ <- Record_add_birthday rec (snd nb) ;;
  ret (lit "Birthday added.").

Definition add_birthday (args : list str) : world -> str * world :=
  input_error (add_birthday_func args).

Definition show_birthday_func (args : list str) : M str :=
  name <- lift (unpack1 args) ;;
  found <- AddressBook_find name ;;
  match found with
  | None => ret (lit "No birthday set.")
  | Some rec =>
      r <- load rec ;;
      match birthday r with
      | None => ret (lit "No birthday set.")
      | Some b => ret (birthday_value b)
      end
  end.

Definition show_birthday (args : list str) : world -> str * world :=
  input_error (show_birthday_func args).

Definition birthdays_func (today : Date.date) (args : list str) : M str :=
  upcoming <- AddressBook_get_upcoming_birthdays today 7 ;;
  match upcoming with
  | [] => ret (lit "No upcoming birthdays.")
  | _ =>
      ret (join [10]
             (List.map (fun u => u_name u ++ lit ": " ++ u_birthday u)
                upcoming))
  end.

Definition birthdays (today : Date.date) (args : list str)
  : world -> str * world :=
  input_error (birthdays_func today args).

(** ** Histories *)

(** The calls a client of the classes can make. *)
Inductive op : Type :=
| OpRecord (name : str)
| OpAddPhone (self : loc) (phone : str)
| OpRemovePhone (self : loc) (phone : str)
| OpEditPhone (self : loc) (old_phone new_phone : str)
| OpFindPhone (self : loc) (phone : str)
| OpAddBirthday (self : loc) (bday : str)
| OpAddRecord (rec : loc)
| OpFind (name : str)
| OpDelete (name : str)
| OpUpcoming (today : Date.date) (days : Z).

Definition run_op (o : op) (w : world) : world :=
  match o with
  | OpRecord name => snd (Record_init name w)
  | OpAddPhone self phone => snd (Record_add_phone self phone w)
  | OpRemovePhone self phone => snd (Record_remove_phone self phone w)
  | OpEditPhone self o n => snd (Record_edit_phone self o n w)
  | OpFindPhone self phone => snd (Record_find_phone self phone w)
  | OpAddBirthday self bday => snd (Record_add_birthday self bday w)
  | OpAddRecord rec => snd (AddressBook_add_record rec w)
  | OpFind name => snd (AddressBook_find name w)
  | OpDelete name => snd (AddressBook_delete name w)
  | OpUpcoming today days => snd (AddressBook_get_upcoming_birthdays today days w)
  end.

Definition run_ops (ops : list op) (w : world) : world :=
  List.fold_left (fun w o => run_op o w) ops w.

(** The commands of the loop in [main] that reach a handler. *)
Inductive command : Type :=
| CmdAdd (args : list str)
| CmdChange (args : list str)
| CmdPhone (args : list str)
| CmdAll
| CmdAddBirthday (args : list str)
| CmdShowBirthday (args : list str)
| CmdBirthdays (today : Date.date) (args : list str).

(** What the loop prints for a command, and the world afterwards. *)
Definition run_command (c : command) (w : world) : str * world :=
  match c with
  | CmdAdd args => add_contact args w
  | CmdChange args => change_contact args w
  | CmdPhone args => show_phone args w
  | CmdAll => (show_all w, w)
  | CmdAddBirthday args => add_birthday args w
  | CmdShowBirthday args => show_birthday args w
  | CmdBirthdays today args => birthdays today args w
  end.

Definition run_commands (cs : list command) (w : world) : world :=
  List.fold_left (fun w c => snd (run_command c w)) cs w.

(** A world the program can be in: the empty book after some commands. *)
Definition reachable (w : world) : Prop :=
  exists cs, w = run_commands cs empty_world.

(** ** Invariants of the book *)

(** Every entry refers to an allocated record whose name is its key. *)
Definition keys_are_names (w : world) : Prop :=
  forall k l, In (k, l) (data w) ->
    exists r, heap w !! l = Some r /\ name_value (name r) = k.

(** No key occurs twice. *)
Definition unique_keys (w : world) : Prop := NoDup (dict_keys (data w)).


(** ** The loop of [main] *)

(** The characters for which [str.isspace] holds. *)
Definition space_ranges : list (Z * Z) :=
  [(0x9, 0xd); (0x1c, 0x20); (0x85, 0x85); (0xa0, 0xa0); (0x1680, 0x1680);
   (0x2000, 0x200a); (0x2028, 0x2029); (0x202f, 0x202f); (0x205f, 0x205f);
   (0x3000, 0x3000)].

Definition isspace_char (c : char) : bool :=
  List.existsb (fun r => in_range (fst r) (snd r) c) space_ranges.

(** [s.split()]: the maximal runs of characters that are not whitespace.
    [cur] is the run being read. *)
Fixpoint split_from (cur : str) (s : str) : list str :=
  match s with
  | [] => match cur with [] => [] | _ => [cur] end
  | c :: s' =>
      if isspace_char c then
        match cur with
        | [] => split_from [] s'
        | _ => cur :: split_from [] s'
        end
      else split_from (cur ++ [c]) s'
  end.

Definition str_split (s : str) : list str := split_from [] s.

(** [s.strip()]. *)
Fixpoint str_lstrip (s : str) : str :=
  match s with
  | c :: s' => if isspace_char c then str_lstrip s' else s
  | [] => []
  end.

Definition str_rstrip (s : str) : str := List.rev (str_lstrip (List.rev s)).

Definition str_strip (s : str) : str := str_rstrip (str_lstrip s).

(** [parse_input]; [lower] stands for [str.lower], and [None] for the
    [IndexError] of [parts[0]] on an empty list. *)
Definition parse_input (lower : str -> str) (user_input : str)
  : option (str * list str) :=
  match user_input with
  | [] => Some ([], [])
  | _ =>
      match str_strip user_input with
      | [] => Some ([], [])
      | _ =>
          match str_split user_input with
          | [] => None
          | p :: args => Some (lower (str_strip p), args)
          end
      end
  end.

(** One turn of the loop: what is printed after the prompt, whether the
    loop goes on, and the world afterwards. *)
Record turn : Type :=
  mkTurn { printed : option str; running : bool; after : world }.

(** The body of [while True], for the line read and the day [today]; [None]
    when an exception leaves [main]. *)
Definition main_turn (lower : str -> str) (today : Date.date)
    (user_input : str) (w : world) : option turn :=
  match parse_input lower user_input with
  | None => None
  | Some (command, args) =>
      let say (r : str * world) := mkTurn (Some (fst r)) true (snd r) in
      Some
        (if bool_decide (command = []) then mkTurn None true w
         else if bool_decide (command = lit "close")
                 || bool_decide (command = lit "exit")
         then mkTurn (Some (lit "Good bye!")) false w
         else if bool_decide (command = lit "hello")
         then mkTurn (Some (lit "How can I help you?")) true w
         else if bool_decide (command = lit "add")
         then say (add_contact args w)
         else if bool_decide (command = lit "change")
         then say (change_contact args w)
         else if bool_decide (command = lit "phone")
         then say (show_phone args w)
         else if bool_decide (command = lit "all")
         then mkTurn (Some (show_all w)) true w
         else if bool_decide (command = lit "add-birthday")
         then say (add_birthday args w)
         else if bool_decide (command = lit "show-birthday")
         then say (show_birthday args w)
         else if bool_decide (command = lit "birthdays")
         then say (birthdays today args w)
         else mkTurn (Some (lit "Invalid command.")) true w)
  end.

(** How [main] is left: by [break] after "Good bye!", or by the [EOFError]
    that [input] raises when there is no line left to read, which nothing
    in [main] catches. *)
Inductive ending : Type :=
  | Farewell
  | EOFError_raised.

(** The loop on the lines that [input] returns, each with the day it is
    read on, from the world [w], and then the end of the input: the texts
    that [print] writes (the prompt of [input] is left out), the world at
    the end and how the loop is left; [None] when another exception leaves
    [main].  When the lines run out, [input] is called once more and raises
    [EOFError]. *)
Fixpoint main_loop (lower : str -> str) (lines : list (Date.date * str))
    (w : world) : option (list str * world * ending) :=
  match lines with
  | [] => Some ([], w, EOFError_raised)
  | (today, user_input) :: lines' =>
      match main_turn lower today user_input w with
      | None => None
      | Some t =>
          let out := match printed t with Some s => [s] | None => [] end in
          if running t then
            match main_loop lower lines' (after t) with
            | Some (outs, w', e) => Some (out ++ outs, w', e)
            | None => None
            end
          else Some (out, after t, Farewell)
      end
  end.

(** [main]: the greeting, then the loop on a new book. *)
Definition main (lower : str -> str) (lines : list (Date.date * str))
  : option (list str * world * ending) :=
  match main_loop lower lines empty_world with
  | Some (outs, w, e) =>
      Some (lit "Welcome to the assistant bot!" :: outs, w, e)
  | None => None
  end.

(** ** Notions used to state the properties *)

(** The error of [Phone]. *)
Definition Phone_error : exn :=
  ValueError (lit "Phone must contain exactly 10 digits").

(** The world after the record at [self] got the phones [ps]. *)
Definition with_phones (w : world) (self : loc) (r : record)
    (ps : list Phone) : world :=
  mkWorld (<[self := mkRecord (name r) ps (birthday r)]> (heap w)) (data w).

(** The world after [Record(name)] and [add_record] for a new name. *)
Definition with_new_record (w : world) (nm : str) : world :=
  mkWorld (heap w ++ [mkRecord (mkName nm) [] None])
          (data w ++ [(nm, length (heap w))]).

(** The number of entries under a key. *)
Definition count_key {V : Type} (k : str) (d : list (str * V)) : nat :=
  length (List.filter (fun e => bool_decide (fst e = k)) d).

(** Objects are never freed and never change their name. *)
Definition names_kept (h h' : list record) : Prop :=
  forall l r, h !! l = Some r -> exists r', h' !! l = Some r' /\ name r' = name r.

(** The methods of [Record] keep the data of the book and the names of the
    objects. *)
Definition record_effect (w w' : world) : Prop :=
  data w' = data w /\ names_kept (heap w) (heap w').

(** The date a record's birthday string stands for. *)
Definition birthday_date (r : record) : option Date.date :=
  match birthday r with
  | Some b =>
      match Birthday_date_obj b with
      | Ok d => Some d
      | Raise _ => None
      end
  | None => None
  end.

(** A birthday that is set is a string [Birthday] accepts. *)
Definition birthday_ok (r : record) : Prop :=
  birthday r = None \/ is_Some (birthday_date r).

(** Every entry of the book refers to a record with a well-formed
    birthday. *)
Definition stored_ok (w : world) : Prop :=
  List.Forall (fun l => exists r, heap w !! l = Some r /\ birthday_ok r)
    (dict_values (data w)).

(** What every world of the program satisfies. *)
Definition world_inv (w : world) : Prop :=
  keys_are_names w /\ unique_keys w /\ List.Forall birthday_ok (heap w).

(** A computation keeps the invariant, whether it returns or raises. *)
Definition preserves {A : Type} (c : M A) : Prop :=
  forall w, world_inv w -> world_inv (snd (c w)).

(** *** The answer of [get_upcoming_birthdays], as the specification words it *)

(** This year's month and day of the birthday, and next year's when that
    day is strictly before today. *)
Definition occurrence (today bday : Date.date) : Date.date :=
  let this_year :=
    Date.mk (Date.year today) (Date.month bday) (Date.day bday) in
  if Date.ltb this_year today
  then Date.mk (Date.year today + 1) (Date.month bday) (Date.day bday)
  else this_year.

(** The occurrence lies 0 to [days] days after today. *)
Definition in_window (today : Date.date) (days : Z) (occ : Date.date) : bool :=
  (0 <=? Date.toordinal occ - Date.toordinal today)
  && (Date.toordinal occ - Date.toordinal today <=? days).

(** The date shown: two days later for a Saturday, one day later for a
    Sunday. *)
Definition shown_date (occ : Date.date) : Date.date :=
  if Date.weekday occ =? 5 then Date.ord2ymd (Date.toordinal occ + 2)
  else if Date.weekday occ =? 6 then Date.ord2ymd (Date.toordinal occ + 1)
  else occ.

Definition keeps (today : Date.date) (days : Z) (r : record) : bool :=
  match birthday_date r with
  | Some bd => in_window today days (occurrence today bd)
  | None => false
  end.

Definition entry_of (today : Date.date) (r : record) : upcoming :=
  mkUpcoming (name_value (name r))
    (match birthday_date r with
     | Some bd => Date.strftime_dmY (shown_date (occurrence today bd))
     | None => []
     end).

(** The records kept, each with its name and the date shown, in the order
    of the book. *)
Definition upcoming_spec (today : Date.date) (days : Z) (rs : list record)
  : list upcoming :=
  List.map (entry_of today) (List.filter (keeps today days) rs).

(** The birthday's month and day exist in the current year and, when that
    day is before today, in the next year. *)
Definition occurrence_exists (today bday : Date.date) : Prop :=
  Date.valid (Date.mk (Date.year today) (Date.month bday) (Date.day bday))
  /\ (Date.ltb (Date.mk (Date.year today) (Date.month bday) (Date.day bday))
        today = true ->
      Date.valid
        (Date.mk (Date.year today + 1) (Date.month bday) (Date.day bday))).

(** *** The end of [ord2ymd]: month and day from the day of the year *)

Definition month_day (n : Z) (leapyear : bool) : Z * Z :=
  let m := Z.shiftr (n + 50) 5 in
  let preceding :=
    Date.DAYS_BEFORE_MONTH m + (if (2 <? m) && leapyear then 1 else 0) in
  if n <? preceding then
    let m' := m - 1 in
    let preceding' :=
      preceding
      - (Date.DAYS_IN_MONTH m' + (if (m' =? 2) && leapyear then 1 else 0)) in
    (m', n - preceding' + 1)
  else (m, n - preceding + 1).

(** The month and day found are right for the day [n] of the year. *)
Definition month_day_ok (leapyear : bool) (n : Z) : bool :=
  let md := month_day n leapyear in
  let m := fst md in
  let d := snd md in
  in_range 1 12 m
  && in_range 1 (Date.DAYS_IN_MONTH m
                 + (if (m =? 2) && leapyear then 1 else 0)) d
  && (Date.DAYS_BEFORE_MONTH m + (if (2 <? m) && leapyear then 1 else 0) + d
      =? n + 1).

(** *** Birthday strings

    A day is written with one digit, with a blank and a digit, or with two
    digits; a month with one or two digits; a year with four digits.  The
    digits are ASCII digits, but the digits of the year, and the second
    digit of a day that starts with 1 or 2, may be decimal digits of any
    script. *)
Definition day_text (s : str) (v : Z) : Prop :=
  (exists a, s = [a] /\ ascii_digit a = true /\ v = a - ch_0)
  \/ (exists a, s = [ch_space; a] /\ ascii_digit a = true /\ v = a - ch_0)
  \/ (exists a b vb,
        s = [a; b] /\ ascii_digit a = true /\ to_decimal b = Some vb
        /\ (ascii_digit b = true \/ a = ch_1 \/ a = ch_2)
        /\ v = 10 * (a - ch_0) + vb).

Definition month_text (s : str) (v : Z) : Prop :=
  (exists a, s = [a] /\ ascii_digit a = true /\ v = a - ch_0)
  \/ (exists a b,
        s = [a; b] /\ ascii_digit a = true /\ ascii_digit b = true
        /\ v = 10 * (a - ch_0) + (b - ch_0)).

Definition year_text (s : str) (v : Z) : Prop :=
  exists a b c d va vb vc vd,
    s = [a; b; c; d]
    /\ to_decimal a = Some va /\ to_decimal b = Some vb
    /\ to_decimal c = Some vc /\ to_decimal d = Some vd
    /\ v = 1000 * va + 100 * vb + 10 * vc + vd.

(** The string is day.month.year and stands for the date [d]. *)
Definition birthday_text (s : str) (d : Date.date) : Prop :=
  exists ds ms ys,
    s = ds ++ [ch_dot] ++ ms ++ [ch_dot] ++ ys
    /\ day_text ds (Date.day d) /\ month_text ms (Date.month d)
    /\ year_text ys (Date.year d).

(** The error of [Birthday]. *)
Definition Birthday_error : exn :=
  ValueError (lit "Invalid date format. Use DD.MM.YYYY").

(** *** Worlds used as examples *)

(** Ten Arabic-Indic digits, U+0660..U+0669. *)
Definition arabic_indic_phone : str :=
  [0x661; 0x662; 0x663; 0x664; 0x665; 0x666; 0x667; 0x668; 0x669; 0x660].

Definition sample_record : record :=
  mkRecord (mkName (lit "alice"))
    [mkPhone (lit "1234567890"); mkPhone (lit "0987654321")] None.

Definition sample_world : world :=
  mkWorld [sample_record] [(lit "alice", 0%nat)].

(** A record that already holds the phone 1234567890. *)
Definition one_phone_world : world :=
  mkWorld [mkRecord (mkName (lit "alice")) [mkPhone (lit "1234567890")] None]
    [(lit "alice", 0%nat)].

(** Two record objects with the same name, and an empty book. *)
Definition two_records_world : world :=
  mkWorld [mkRecord (mkName (lit "alice")) [] None;
           mkRecord (mkName (lit "alice")) [mkPhone (lit "1234567890")] None]
    [].

(** The scenario of the specification: alice was born on 09.06.2020, and
    today is Friday 2024-06-07. *)
Definition june_world : world :=
  run_commands
    [CmdAdd [lit "alice"; lit "1234567890"];
     CmdAddBirthday [lit "alice"; lit "09.06.2020"]]
    empty_world.

(** bob was born on 8 June and ann on 29 February. *)
Definition leap_day_commands : list command :=
  [CmdAdd [lit "bob"; lit "0987654321"];
   CmdAddBirthday [lit "bob"; lit "08.06.1990"];
   CmdAdd [lit "ann"; lit "1234567890"];
   CmdAddBirthday [lit "ann"; lit "29.02.2020"]].

Definition leap_day_world : world := run_commands leap_day_commands empty_world.

(** The same book without ann. *)
Definition bob_world : world :=
  run_commands (firstn 2 leap_day_commands) empty_world.

(** The steps of a method, unfolded. *)
Ltac run_method :=
  unfold bind, ret, raise, lift, load, store, alloc in *; simpl in *.

(** *** Notions for the properties of the whole program *)

(** A computation keeps a property of the world, whether it returns or
    raises. *)
Definition maintains (P : world -> Prop) {A : Type} (c : M A) : Prop :=
  forall w, P w -> P (snd (c w)).

(** The data model: a name is not empty, every phone is one [Phone]
    accepts, and a birthday that is set is one [Birthday] accepts. *)
Definition record_valid (r : record) : Prop :=
  name_value (name r) <> []
  /\ List.Forall (fun ph => Phone_init (phone_value ph) = Ok ph) (phones r)
  /\ birthday_ok r.

Definition heap_valid (w : world) : Prop := List.Forall record_valid (heap w).

(** [t] is a token: not empty and without whitespace. *)
Definition token (t : str) : Prop :=
  t <> [] /\ List.Forall (fun c => isspace_char c = false) t.

(** The names listed by an answer of [get_upcoming_birthdays]. *)
Definition upcoming_names (l : list upcoming) : list str := List.map u_name l.

(** The world after the record at [self] got the birthday [b]. *)
Definition with_birthday (w : world) (self : loc) (r : record)
    (b : Birthday) : world :=
  mkWorld (<[self := mkRecord (name r) (phones r) (Some b)]> (heap w)) (data w).

(** The world after a first [add] for the name, with the phone [ph]. *)
Definition with_new_contact (w : world) (nm ph : str) : world :=
  mkWorld (heap w ++ [mkRecord (mkName nm) [mkPhone ph] None])
          (data w ++ [(nm, length (heap w))]).

(** The line's command is "close" or "exit", the two that end the loop. *)
Definition closes (lower : str -> str) (user_input : str) : bool :=
  match parse_input lower user_input with
  | Some (command, _) =>
      bool_decide (command = lit "close") || bool_decide (command = lit "exit")
  | None => false
  end.

(** The record has a birthday, and it is due at most [days] days after
    today: the test of the query without its lower bound. *)
Definition due_within (today : Date.date) (days : Z) (r : record) : bool :=
  match birthday_date r with
  | Some bd => Date.sub_days (occurrence today bd) today <=? days
  | None => false
  end.

Definition has_birthday (r : record) : bool :=
  match birthday r with
  | Some _ => true
  | None => false
  end.

(** * Properties *)

(** ** Characters and digits *)

Lemma in_range_spec lo hi c : in_range lo hi c = true <-> lo <= c <= hi.
Proof. unfold in_range. rewrite andb_true_iff, !Z.leb_le. tauto. Qed.

Lemma in_range_false lo hi c : in_range lo hi c = false <-> c < lo \/ hi < c.
Proof.
  unfold in_range. rewrite andb_false_iff, !Z.leb_gt. tauto.
Qed.

Lemma find_run_below (c : Z) (l : list Z) :
  List.Forall (fun s => c < s) l ->
  List.find (fun s => in_range s (s + 9) c) l = None.
Proof.
  induction 1 as [|s l Hs _ IH]; simpl; [reflexivity|].
  replace (in_range s (s + 9) c) with false; [exact IH|].
  symmetry. apply in_range_false. lia.
Qed.

(** Below U+0080 the decimal digits are '0'..'9', with their values. *)
Lemma to_decimal_ascii (c : Z) :
  c <= 127 -> to_decimal c = if ascii_digit c then Some (c - ch_0) else None.
Proof.
  intros Hc. unfold to_decimal, ascii_digit.
  change decimal_runs with (ch_0 :: List.tl decimal_runs).
  remember (List.tl decimal_runs) as runs eqn:Hruns.
  cbn [List.find]. change (ch_0 + 9) with ch_9.
  destruct (in_range ch_0 ch_9 c); [reflexivity|].
  rewrite find_run_below; [reflexivity|].
  subst runs. unfold decimal_runs. cbn [List.tl].
  repeat constructor; lia.
Qed.

Lemma existsb_range_below (c : Z) (l : list (Z * Z)) :
  List.Forall (fun r => c < fst r) l ->
  List.existsb (fun r => in_range (fst r) (snd r) c) l = false.
Proof.
  induction 1 as [|r l Hr _ IH]; simpl; [reflexivity|].
  rewrite IH, orb_false_r. apply in_range_false. lia.
Qed.

(** Below U+0080 [str.isdigit] accepts the characters '0'..'9' only. *)
Lemma isdigit_char_ascii (c : Z) : c <= 127 -> isdigit_char c = ascii_digit c.
Proof.
  intros Hc. unfold isdigit_char, isdecimal_char.
  rewrite to_decimal_ascii by assumption.
  rewrite existsb_range_below.
  - destruct (ascii_digit c); reflexivity.
  - unfold other_digit_ranges. repeat constructor; simpl; lia.
Qed.

Lemma ascii_digit_spec c : ascii_digit c = true <-> 48 <= c <= 57.
Proof. apply in_range_spec. Qed.

Lemma ascii_digit_isdigit c : ascii_digit c = true -> isdigit_char c = true.
Proof.
  intros H. rewrite isdigit_char_ascii; [assumption|].
  apply ascii_digit_spec in H. lia.
Qed.

(** A character that [str.isdigit] accepts is an ASCII digit or lies
    outside ASCII. *)
Lemma isdigit_char_cases (c : Z) :
  isdigit_char c = true <->
  ascii_digit c = true \/ (127 < c /\ isdigit_char c = true).
Proof.
  split.
  - intros H. destruct (Z_le_gt_dec c 127) as [Hc|Hc].
    + left. rewrite <- isdigit_char_ascii; assumption.
    + right. split; [lia | assumption].
  - intros [H|[_ H]]; [apply ascii_digit_isdigit|]; assumption.
Qed.

Lemma str_isdigit_spec (s : str) :
  str_isdigit s = true <->
  s <> [] /\ List.Forall (fun c => isdigit_char c = true) s.
Proof.
  unfold str_isdigit. destruct s as [|c s].
  - split; [discriminate | intros [H _]; congruence].
  - rewrite List.forallb_forall, List.Forall_forall. split.
    + intros H. split; [discriminate | exact H].
    + intros [_ H]. exact H.
Qed.

(** ** Phone *)

Lemma Phone_init_cases (p : str) :
  Phone_init p = Ok (mkPhone p) \/ Phone_init p = Raise Phone_error.
Proof.
  unfold Phone_init.
  destruct (negb (str_isdigit p) || negb (Nat.eqb (length p) 10)); auto.
Qed.

Lemma Phone_init_ok (p : str) :
  Phone_init p = Ok (mkPhone p) <->
  length p = 10%nat /\ List.Forall (fun c => isdigit_char c = true) p.
Proof.
  unfold Phone_init.
  destruct (str_isdigit p) eqn:Hd; simpl.
  - apply str_isdigit_spec in Hd. destruct Hd as [_ Hd].
    destruct (Nat.eqb (length p) 10) eqn:Hl; simpl.
    + apply Nat.eqb_eq in Hl. tauto.
    + apply Nat.eqb_neq in Hl. split; [discriminate | tauto].
  - split; [discriminate|]. intros [Hl Hall].
    assert (str_isdigit p = true) as Hd'.
    { apply str_isdigit_spec. split; [|assumption].
      intros ->. discriminate Hl. }
    congruence.
Qed.

Lemma Phone_init_value (p : str) (ph : Phone) :
  Phone_init p = Ok ph -> ph = mkPhone p.
Proof.
  destruct (Phone_init_cases p) as [H|H]; rewrite H; congruence.
Qed.

(** C3, as amended: [Phone(p)] succeeds exactly when [p] has ten characters,
    each of them a digit for [str.isdigit], that is an ASCII digit or one of
    the digits Unicode has outside ASCII; in every other case it fails with
    the message "Phone must contain exactly 10 digits". *)
Theorem Phone_init_spec (p : str) :
  (Phone_init p = Ok (mkPhone p) <->
   length p = 10%nat
   /\ List.Forall (fun c => ascii_digit c = true
                            \/ (127 < c /\ isdigit_char c = true)) p)
  /\ (Phone_init p = Ok (mkPhone p)
      \/ Phone_init p
         = Raise (ValueError (lit "Phone must contain exactly 10 digits"))).
Proof.
  split; [|apply Phone_init_cases].
  rewrite Phone_init_ok. split; intros [Hl Hall]; split; try assumption.
  - eapply List.Forall_impl; [|exact Hall].
    intros c Hc. apply isdigit_char_cases, Hc.
  - eapply List.Forall_impl; [|exact Hall].
    intros c Hc. apply isdigit_char_cases, Hc.
Qed.

(** C3, as stated, fails: ten Arabic-Indic digits make a phone although
    none of them is an ASCII digit. *)
Lemma Phone_init_accepts_non_ascii :
  Phone_init arabic_indic_phone = Ok (mkPhone arabic_indic_phone)
  /\ length arabic_indic_phone = 10%nat
  /\ List.Forall (fun c => ascii_digit c = false) arabic_indic_phone.
Proof.
  split; [vm_compute; reflexivity|].
  split; [reflexivity|].
  repeat constructor.
Qed.

(** ** Phones of a record *)

Lemma load_ok (w : world) (l : loc) (r : record) :
  heap w !! l = Some r -> load l w = (Ok r, w).
Proof. intros H. unfold load. rewrite H. reflexivity. Qed.

Lemma Phone_eq_value (x y : Phone) : x = y <-> phone_value x = phone_value y.
Proof. destruct x, y; simpl. split; congruence. Qed.

Lemma find_phone_in_none (p : str) (l : list Phone) :
  find_phone_in p l = None <-> List.Forall (fun ph => phone_value ph <> p) l.
Proof.
  unfold find_phone_in. induction l as [|y l IH]; simpl.
  - split; [constructor | reflexivity].
  - destruct (bool_decide_reflect (phone_value y = p)) as [Hy|Hy].
    + split; [discriminate|]. intros H. inversion H; subst. congruence.
    + rewrite IH. split.
      * intros H. constructor; assumption.
      * intros H. inversion H; assumption.
Qed.

(** The phone found is the first one with the value asked for. *)
Lemma find_phone_in_first (p : str) (ps1 ps2 : list Phone) (x : Phone) :
  phone_value x = p ->
  List.Forall (fun ph => phone_value ph <> p) ps1 ->
  find_phone_in p (ps1 ++ x :: ps2) = Some x.
Proof.
  intros Hx Hps1. unfold find_phone_in.
  induction Hps1 as [|y l Hy _ IH]; simpl.
  - rewrite bool_decide_eq_true_2 by assumption. reflexivity.
  - rewrite bool_decide_eq_false_2 by assumption. exact IH.
Qed.

Lemma find_phone_in_some (p : str) (l : list Phone) (x : Phone) :
  find_phone_in p l = Some x ->
  exists ps1 ps2,
    l = ps1 ++ x :: ps2 /\ phone_value x = p
    /\ List.Forall (fun ph => phone_value ph <> p) ps1.
Proof.
  unfold find_phone_in. induction l as [|y l IH]; simpl; [discriminate|].
  destruct (bool_decide_reflect (phone_value y = p)) as [Hy|Hy].
  - intros [= ->]. exists [], l. repeat split; [assumption | constructor].
  - intros H. destruct (IH H) as (ps1 & ps2 & -> & Hx & Hps1).
    exists (y :: ps1), ps2. repeat split; [assumption|].
    constructor; assumption.
Qed.

(** Every list of phones either has no phone with the value or splits at
    the first one. *)
Lemma first_phone_cases (p : str) (l : list Phone) :
  List.Forall (fun ph => phone_value ph <> p) l
  \/ exists ps1 x ps2,
       l = ps1 ++ x :: ps2 /\ phone_value x = p
       /\ List.Forall (fun ph => phone_value ph <> p) ps1.
Proof.
  destruct (find_phone_in p l) as [x|] eqn:H.
  - right. apply find_phone_in_some in H.
    destruct H as (ps1 & ps2 & H). exists ps1, x, ps2. exact H.
  - left. apply find_phone_in_none, H.
Qed.

Lemma list_index_first (x : Phone) (ps1 ps2 : list Phone) :
  List.Forall (fun ph => phone_value ph <> phone_value x) ps1 ->
  list_index x (ps1 ++ x :: ps2) = Ok (length ps1).
Proof.
  induction 1 as [|y l Hy _ IH]; simpl.
  - rewrite bool_decide_eq_true_2 by reflexivity. reflexivity.
  - rewrite bool_decide_eq_false_2.
    + rewrite IH. reflexivity.
    + intros ->. apply Hy. reflexivity.
Qed.

Lemma list_remove_first (x : Phone) (ps1 ps2 : list Phone) :
  List.Forall (fun ph => phone_value ph <> phone_value x) ps1 ->
  list_remove x (ps1 ++ x :: ps2) = Ok (ps1 ++ ps2).
Proof.
  induction 1 as [|y l Hy _ IH]; simpl.
  - rewrite bool_decide_eq_true_2 by reflexivity. reflexivity.
  - rewrite bool_decide_eq_false_2.
    + rewrite IH. reflexivity.
    + intros ->. apply Hy. reflexivity.
Qed.

Lemma insert_at_split {A : Type} (l1 l2 : list A) (x y : A) :
  <[length l1 := y]> (l1 ++ x :: l2) = l1 ++ y :: l2.
Proof. induction l1 as [|a l1 IH]; simpl; [reflexivity|]. f_equal. exact IH. Qed.

(** What [find_phone] answers, from the phones of the record. *)
Lemma Record_find_phone_eq (w : world) (self : loc) (r : record) (p : str) :
  heap w !! self = Some r ->
  Record_find_phone self p w = (Ok (find_phone_in p (phones r)), w).
Proof.
  intros H. unfold Record_find_phone, bind, ret. rewrite (load_ok _ _ _ H).
  reflexivity.
Qed.

Lemma with_phones_lookup (w : world) (self : loc) (r : record) ps :
  heap w !! self = Some r ->
  heap (with_phones w self r ps) !! self
  = Some (mkRecord (name r) ps (birthday r)).
Proof.
  intros H. simpl. apply list_lookup_insert_eq.
  apply lookup_lt_Some in H. exact H.
Qed.

Lemma with_phones_same (w : world) (self : loc) (r : record) :
  heap w !! self = Some r -> with_phones w self r (phones r) = w.
Proof.
  intros H. unfold with_phones. destruct w as [h d]; simpl in *. f_equal.
  apply list_insert_id. destruct r; exact H.
Qed.

Lemma with_phones_twice (w : world) (self : loc) (r : record) ps ps' :
  with_phones (with_phones w self r ps) self
    (mkRecord (name r) ps (birthday r)) ps'
  = with_phones w self r ps'.
Proof.
  unfold with_phones; simpl. f_equal. apply list_insert_insert_eq.
Qed.

Lemma Record_add_phone_eq (w : world) (self : loc) (r : record) (p : str) :
  heap w !! self = Some r ->
  Record_add_phone self p w =
  match Phone_init p with
  | Ok ph => (Ok tt, with_phones w self r (phones r ++ [ph]))
  | Raise e => (Raise e, w)
  end.
Proof.
  intros H. unfold Record_add_phone, bind, lift.
  destruct (Phone_init p); [|reflexivity].
  rewrite (load_ok _ _ _ H). reflexivity.
Qed.

Lemma Record_remove_phone_none (w : world) (self : loc) (r : record) p :
  heap w !! self = Some r ->
  List.Forall (fun ph => phone_value ph <> p) (phones r) ->
  Record_remove_phone self p w = (Ok tt, w).
Proof.
  intros H Hno. unfold Record_remove_phone, bind.
  rewrite (Record_find_phone_eq _ _ _ _ H).
  apply find_phone_in_none in Hno. rewrite Hno. reflexivity.
Qed.

Lemma Record_remove_phone_first (w : world) (self : loc) (r : record) p
    ps1 x ps2 :
  heap w !! self = Some r ->
  phones r = ps1 ++ x :: ps2 -> phone_value x = p ->
  List.Forall (fun ph => phone_value ph <> p) ps1 ->
  Record_remove_phone self p w = (Ok tt, with_phones w self r (ps1 ++ ps2)).
Proof.
  intros H Hsplit Hx Hps1. unfold Record_remove_phone, bind.
  rewrite (Record_find_phone_eq _ _ _ _ H), Hsplit.
  rewrite (find_phone_in_first p ps1 ps2 x Hx Hps1).
  rewrite (load_ok _ _ _ H). unfold lift. rewrite Hsplit.
  rewrite list_remove_first by (rewrite Hx; exact Hps1).
  reflexivity.
Qed.

Lemma Record_edit_phone_not_found (w : world) (self : loc) (r : record)
    (old_phone new_phone : str) :
  heap w !! self = Some r ->
  List.Forall (fun ph => phone_value ph <> old_phone) (phones r) ->
  Record_edit_phone self old_phone new_phone w
  = (Raise (ValueError (lit "Phone " ++ old_phone ++ lit " not found")), w).
Proof.
  intros H Hno. unfold Record_edit_phone, bind.
  rewrite (Record_find_phone_eq _ _ _ _ H).
  apply find_phone_in_none in Hno. rewrite Hno. reflexivity.
Qed.

Lemma Record_edit_phone_first (w : world) (self : loc) (r : record)
    (old_phone new_phone : str) ps1 x ps2 :
  heap w !! self = Some r ->
  phones r = ps1 ++ x :: ps2 -> phone_value x = old_phone ->
  List.Forall (fun ph => phone_value ph <> old_phone) ps1 ->
  Record_edit_phone self old_phone new_phone w
  = match Phone_init new_phone with
    | Ok np => (Ok tt, with_phones w self r (ps1 ++ np :: ps2))
    | Raise e => (Raise e, w)
    end.
Proof.
  intros H Hsplit Hx Hps1. unfold Record_edit_phone, bind.
  rewrite (Record_find_phone_eq _ _ _ _ H), Hsplit.
  rewrite (find_phone_in_first old_phone ps1 ps2 x Hx Hps1).
  unfold lift. destruct (Phone_init new_phone) as [np|e]; [|reflexivity].
  rewrite (load_ok _ _ _ H), Hsplit.
  rewrite list_index_first by (rewrite Hx; exact Hps1).
  unfold store, with_phones. rewrite insert_at_split. reflexivity.
Qed.

(** C6: [edit_phone(old, new)] raises "Phone {old} not found" and changes
    nothing when no phone of the record has the value [old]; otherwise it
    validates [new] (a failure is raised and nothing changes) and puts the
    new phone at the place of the first phone with the value [old], all
    other entries staying where they were. *)
Theorem Record_edit_phone_spec (w : world) (self : loc) (r : record)
    (old_phone new_phone : str) :
  heap w !! self = Some r ->
  (List.Forall (fun ph => phone_value ph <> old_phone) (phones r) ->
   Record_edit_phone self old_phone new_phone w
   = (Raise (ValueError (lit "Phone " ++ old_phone ++ lit " not found")), w))
  /\ (forall ps1 x ps2,
        phones r = ps1 ++ x :: ps2 -> phone_value x = old_phone ->
        List.Forall (fun ph => phone_value ph <> old_phone) ps1 ->
        (forall e, Phone_init new_phone = Raise e ->
                   Record_edit_phone self old_phone new_phone w = (Raise e, w))
        /\ (Phone_init new_phone = Ok (mkPhone new_phone) ->
            Record_edit_phone self old_phone new_phone w
            = (Ok tt, with_phones w self r (ps1 ++ mkPhone new_phone :: ps2))))
  /\ (List.Forall (fun ph => phone_value ph <> old_phone) (phones r)
      \/ exists ps1 x ps2,
           phones r = ps1 ++ x :: ps2 /\ phone_value x = old_phone
           /\ List.Forall (fun ph => phone_value ph <> old_phone) ps1).
Proof.
  intros H. split; [|split].
  - apply Record_edit_phone_not_found, H.
  - intros ps1 x ps2 Hsplit Hx Hps1.
    rewrite (Record_edit_phone_first w self r old_phone new_phone ps1 x ps2
               H Hsplit Hx Hps1).
    split.
    + intros e ->. reflexivity.
    + intros ->. reflexivity.
  - apply first_phone_cases.
Qed.

Lemma Record_edit_phone_spec_witness :
  Record_edit_phone 0%nat (lit "0987654321") (lit "5555555555") sample_world
  = (Ok tt,
     with_phones sample_world 0%nat sample_record
       [mkPhone (lit "1234567890"); mkPhone (lit "5555555555")]).
Proof.
  destruct (Record_edit_phone_spec sample_world 0%nat sample_record
              (lit "0987654321") (lit "5555555555") eq_refl) as (_ & H & _).
  destruct (H [mkPhone (lit "1234567890")] (mkPhone (lit "0987654321")) []
              eq_refl eq_refl) as [_ H2].
  - repeat constructor. vm_compute. discriminate.
  - apply H2. vm_compute. reflexivity.
Defined.

(** C8, as amended: after [add_phone(p)] with a valid [p], [find_phone(p)]
    returns a phone with the value [p]; [remove_phone(p)] never raises,
    does nothing when no phone has the value [p] and otherwise removes the
    first such phone only; and when the record held no phone with the
    value [p] before [add_phone(p)], a following [remove_phone(p)] restores
    the record and [find_phone(p)] then returns [None]. *)
Theorem Record_phone_round_trip (w : world) (self : loc) (r : record)
    (p : str) :
  heap w !! self = Some r ->
  Phone_init p = Ok (mkPhone p) ->
  let w1 := snd (Record_add_phone self p w) in
  (fst (Record_add_phone self p w) = Ok tt
   /\ fst (Record_find_phone self p w1) = Ok (find_phone_in p (phones r ++ [mkPhone p]))
   /\ exists ph, fst (Record_find_phone self p w1) = Ok (Some ph)
                 /\ phone_value ph = p)
  /\ (forall w' r',
        heap w' !! self = Some r' ->
        (List.Forall (fun ph => phone_value ph <> p) (phones r') ->
         Record_remove_phone self p w' = (Ok tt, w'))
        /\ (forall ps1 x ps2,
              phones r' = ps1 ++ x :: ps2 -> phone_value x = p ->
              List.Forall (fun ph => phone_value ph <> p) ps1 ->
              Record_remove_phone self p w'
              = (Ok tt, with_phones w' self r' (ps1 ++ ps2))))
  /\ (List.Forall (fun ph => phone_value ph <> p) (phones r) ->
      Record_remove_phone self p w1 = (Ok tt, w)
      /\ fst (Record_find_phone self p (snd (Record_remove_phone self p w1)))
         = Ok None).
Proof.
  intros H Hp w1.
  assert (w1 = with_phones w self r (phones r ++ [mkPhone p])) as Hw1.
  { unfold w1. rewrite (Record_add_phone_eq _ _ _ _ H), Hp. reflexivity. }
  assert (heap w1 !! self
          = Some (mkRecord (name r) (phones r ++ [mkPhone p]) (birthday r)))
    as H1.
  { rewrite Hw1. apply with_phones_lookup, H. }
  split; [|split].
  - split; [rewrite (Record_add_phone_eq _ _ _ _ H), Hp; reflexivity|].
    rewrite (Record_find_phone_eq _ _ _ _ H1). simpl.
    split; [reflexivity|].
    destruct (find_phone_in p (phones r ++ [mkPhone p])) as [ph|] eqn:Hf.
    + exists ph. split; [reflexivity|].
      apply find_phone_in_some in Hf. destruct Hf as (? & ? & _ & Hv & _).
      exact Hv.
    + exfalso. apply find_phone_in_none in Hf.
      apply List.Forall_app in Hf. destruct Hf as [_ Hf].
      inversion Hf; subst. simpl in *. congruence.
  - intros w' r' H'. split.
    + apply Record_remove_phone_none, H'.
    + intros ps1 x ps2. apply Record_remove_phone_first, H'.
  - intros Hno.
    assert (Record_remove_phone self p w1 = (Ok tt, w)) as Hrm.
    { rewrite (Record_remove_phone_first w1 self _ p (phones r) (mkPhone p) []
                 H1 eq_refl eq_refl Hno).
      rewrite Hw1. simpl. rewrite app_nil_r.
      rewrite with_phones_twice. rewrite (with_phones_same _ _ _ H).
      reflexivity. }
    split; [exact Hrm|].
    rewrite Hrm. simpl. rewrite (Record_find_phone_eq _ _ _ _ H). simpl.
    f_equal. apply find_phone_in_none, Hno.
Qed.

Lemma Record_phone_round_trip_witness :
  fst (Record_find_phone 0%nat (lit "5555555555")
         (snd (Record_add_phone 0%nat (lit "5555555555") sample_world)))
  = Ok (Some (mkPhone (lit "5555555555")))
  /\ Record_remove_phone 0%nat (lit "5555555555")
       (snd (Record_add_phone 0%nat (lit "5555555555") sample_world))
     = (Ok tt, sample_world).
Proof.
  destruct (Record_phone_round_trip sample_world 0%nat sample_record
              (lit "5555555555") eq_refl) as ((_ & Hfind & _) & _ & Hback).
  - vm_compute. reflexivity.
  - split.
    + rewrite Hfind. vm_compute. reflexivity.
    + apply Hback. repeat constructor; vm_compute; discriminate.
Defined.

(** C8, as stated, fails: when the record already held the phone, it is
    still found after [add_phone] and [remove_phone], for only the first of
    the two equal phones was removed. *)
Lemma Record_remove_phone_keeps_duplicate :
  let p := lit "1234567890" in
  let w1 := snd (Record_add_phone 0%nat p one_phone_world) in
  let w2 := snd (Record_remove_phone 0%nat p w1) in
  Phone_init p = Ok (mkPhone p)
  /\ fst (Record_add_phone 0%nat p one_phone_world) = Ok tt
  /\ fst (Record_remove_phone 0%nat p w1) = Ok tt
  /\ fst (Record_find_phone 0%nat p w2) = Ok (Some (mkPhone p)).
Proof. vm_compute. repeat split; reflexivity. Qed.

(** ** The dictionary of the book *)

Section DictFacts.
Context {V : Type}.
Implicit Types (d : list (str * V)) (k : str) (v : V).

Lemma dict_get_none k d : dict_get k d = None <-> ~ In k (dict_keys d).
Proof.
  induction d as [|[k' v'] d IH]; simpl; [tauto|].
  destruct (bool_decide_reflect (k' = k)) as [Hk|Hk].
  - split; [discriminate | tauto].
  - rewrite IH. tauto.
Qed.

Lemma dict_get_in k v d : dict_get k d = Some v -> In (k, v) d.
Proof.
  induction d as [|[k' v'] d IH]; simpl; [discriminate|].
  destruct (bool_decide_reflect (k' = k)) as [Hk|Hk].
  - intros [= ->]. left. congruence.
  - intros H. right. apply IH, H.
Qed.

Lemma dict_get_set_eq k v d : dict_get k (dict_set k v d) = Some v.
Proof.
  induction d as [|[k' v'] d IH]; simpl.
  - rewrite bool_decide_eq_true_2 by reflexivity. reflexivity.
  - destruct (bool_decide_reflect (k' = k)) as [Hk|Hk]; simpl.
    + rewrite bool_decide_eq_true_2 by assumption. reflexivity.
    + rewrite bool_decide_eq_false_2 by assumption. exact IH.
Qed.

Lemma dict_get_set_ne k k' v d :
  k <> k' -> dict_get k' (dict_set k v d) = dict_get k' d.
Proof.
  intros Hne. induction d as [|[k0 v0] d IH]; simpl.
  - rewrite bool_decide_eq_false_2 by assumption. reflexivity.
  - destruct (bool_decide_reflect (k0 = k)) as [Hk|Hk]; simpl.
    + subst k0. rewrite !bool_decide_eq_false_2 by assumption. reflexivity.
    + rewrite IH. reflexivity.
Qed.

(** Setting a key keeps the keys when it is known, and adds it at the end
    when it is new. *)
Lemma dict_keys_set k v d :
  dict_keys (dict_set k v d)
  = if dict_mem k d then dict_keys d else dict_keys d ++ [k].
Proof.
  unfold dict_mem. induction d as [|[k' v'] d IH]; simpl; [reflexivity|].
  destruct (bool_decide_reflect (k' = k)) as [Hk|Hk]; simpl.
  - reflexivity.
  - rewrite IH. destruct (dict_get k d); reflexivity.
Qed.

Lemma dict_length_set k v d :
  length (dict_set k v d)
  = if dict_mem k d then length d else S (length d).
Proof.
  rewrite <- !(length_map fst). fold (dict_keys (dict_set k v d)).
  fold (dict_keys d). rewrite dict_keys_set.
  destruct (dict_mem k d); [reflexivity|].
  rewrite length_app. simpl. lia.
Qed.

Lemma dict_set_unique k v d :
  NoDup (dict_keys d) -> NoDup (dict_keys (dict_set k v d)).
Proof.
  intros Hd. rewrite dict_keys_set. unfold dict_mem.
  destruct (dict_get k d) eqn:Hg; [assumption|].
  apply dict_get_none in Hg.
  apply NoDup_ListNoDup. apply NoDup_ListNoDup in Hd.
  apply List.NoDup_app; [assumption | repeat constructor; simpl; tauto |].
  intros x Hx [<-|[]]. exact (Hg Hx).
Qed.

Lemma dict_set_in k v k' v' d :
  In (k', v') (dict_set k v d) -> (k' = k /\ v' = v) \/ In (k', v') d.
Proof.
  induction d as [|[k0 v0] d IH]; simpl.
  - intros [[= <- <-]|[]]. left. split; reflexivity.
  - destruct (bool_decide_reflect (k0 = k)) as [Hk|Hk]; simpl.
    + intros [[= <- <-]|H]; [left; split; congruence | right; right; exact H].
    + intros [H|H]; [right; left; exact H|].
      destruct (IH H) as [?|?]; [left | right; right]; assumption.
Qed.

Lemma dict_del_in k k' v' d : In (k', v') (dict_del k d) -> In (k', v') d.
Proof.
  induction d as [|[k0 v0] d IH]; simpl; [tauto|].
  destruct (bool_decide_reflect (k0 = k)) as [Hk|Hk]; simpl.
  - intros H. right. exact H.
  - intros [H|H]; [left; exact H | right; apply IH, H].
Qed.

Lemma dict_del_keys_in k k' d :
  In k' (dict_keys (dict_del k d)) -> In k' (dict_keys d).
Proof.
  unfold dict_keys. rewrite !List.in_map_iff.
  intros ([k0 v0] & Hk & Hin). exists (k0, v0). split; [exact Hk|].
  eapply dict_del_in, Hin.
Qed.

Lemma dict_del_unique k d :
  NoDup (dict_keys d) -> NoDup (dict_keys (dict_del k d)).
Proof.
  induction d as [|[k0 v0] d IH]; simpl; [tauto|].
  intros Hd. apply NoDup_cons in Hd. destruct Hd as [Hk0 Hd].
  destruct (bool_decide_reflect (k0 = k)) as [Hk|Hk]; simpl; [assumption|].
  apply NoDup_cons. split; [|apply IH, Hd].
  rewrite list_elem_of_In in *. intros Hin. apply Hk0.
  apply dict_del_keys_in in Hin. exact Hin.
Qed.

Lemma count_key_absent k d : ~ In k (dict_keys d) -> count_key k d = 0%nat.
Proof.
  unfold count_key. induction d as [|[k' v'] d IH]; simpl; [reflexivity|].
  intros Hn. rewrite bool_decide_eq_false_2 by tauto. apply IH. tauto.
Qed.

Lemma count_key_unique k d :
  NoDup (dict_keys d) -> In k (dict_keys d) -> count_key k d = 1%nat.
Proof.
  unfold count_key. induction d as [|[k' v'] d IH]; simpl; [tauto|].
  intros Hd Hin. apply NoDup_cons in Hd. destruct Hd as [Hk' Hd].
  rewrite list_elem_of_In in Hk'.
  destruct (bool_decide_reflect (k' = k)) as [Hk|Hk]; simpl.
  - subst k'. f_equal. apply (count_key_absent k d Hk').
  - apply IH; [exact Hd | tauto].
Qed.

Lemma dict_get_some_key k v d : dict_get k d = Some v -> In k (dict_keys d).
Proof.
  intros H. apply dict_get_in in H. unfold dict_keys.
  apply List.in_map_iff. exists (k, v). split; [reflexivity | exact H].
Qed.
End DictFacts.

Lemma AddressBook_add_record_eq (w : world) (rec : loc) (r : record) :
  heap w !! rec = Some r ->
  AddressBook_add_record rec w
  = (Ok tt, mkWorld (heap w) (dict_set (name_value (name r)) rec (data w))).
Proof.
  intros H. unfold AddressBook_add_record, bind.
  rewrite (load_ok _ _ _ H). reflexivity.
Qed.

(** C7: [add_record] never raises; after two calls with records of the same
    name the book has exactly one entry for that name, the second record,
    the second call having added no entry; and no key occurs twice in the
    book afterwards. *)
Theorem AddressBook_add_record_twice (w : world) (rec1 rec2 : loc)
    (r1 r2 : record) :
  unique_keys w ->
  heap w !! rec1 = Some r1 -> heap w !! rec2 = Some r2 ->
  name_value (name r1) = name_value (name r2) ->
  let w1 := snd (AddressBook_add_record rec1 w) in
  let w2 := snd (AddressBook_add_record rec2 w1) in
  fst (AddressBook_add_record rec1 w) = Ok tt
  /\ fst (AddressBook_add_record rec2 w1) = Ok tt
  /\ count_key (name_value (name r1)) (data w1) = 1%nat
  /\ count_key (name_value (name r1)) (data w2) = 1%nat
  /\ dict_get (name_value (name r1)) (data w2) = Some rec2
  /\ length (data w2) = length (data w1)
  /\ dict_keys (data w2) = dict_keys (data w1)
  /\ unique_keys w1 /\ unique_keys w2.
Proof.
  intros Hu H1 H2 Hn w1 w2.
  assert (w1 = mkWorld (heap w) (dict_set (name_value (name r1)) rec1 (data w)))
    as Hw1.
  { unfold w1. rewrite (AddressBook_add_record_eq _ _ _ H1). reflexivity. }
  assert (heap w1 !! rec2 = Some r2) as H2' by (rewrite Hw1; exact H2).
  assert (w2 = mkWorld (heap w1)
                 (dict_set (name_value (name r1)) rec2 (data w1))) as Hw2.
  { unfold w2. rewrite (AddressBook_add_record_eq _ _ _ H2'), Hn. reflexivity. }
  assert (unique_keys w1) as Hu1.
  { rewrite Hw1. unfold unique_keys; simpl. apply dict_set_unique, Hu. }
  assert (unique_keys w2) as Hu2.
  { rewrite Hw2. unfold unique_keys; simpl. apply dict_set_unique, Hu1. }
  assert (dict_mem (name_value (name r1)) (data w1) = true) as Hmem.
  { rewrite Hw1. unfold dict_mem; simpl. rewrite dict_get_set_eq. reflexivity. }
  assert (dict_get (name_value (name r1)) (data w2) = Some rec2) as Hget.
  { rewrite Hw2. simpl. apply dict_get_set_eq. }
  split; [rewrite (AddressBook_add_record_eq _ _ _ H1); reflexivity|].
  split; [rewrite (AddressBook_add_record_eq _ _ _ H2'); reflexivity|].
  split.
  { apply count_key_unique; [exact Hu1|].
    unfold dict_mem in Hmem.
    destruct (dict_get (name_value (name r1)) (data w1)) eqn:Hg;
      [|discriminate].
    eapply dict_get_some_key, Hg. }
  split.
  { apply count_key_unique; [exact Hu2|]. eapply dict_get_some_key, Hget. }
  split; [exact Hget|].
  split.
  { rewrite Hw2. simpl. rewrite dict_length_set, Hmem. reflexivity. }
  split.
  { rewrite Hw2. simpl. rewrite dict_keys_set, Hmem. reflexivity. }
  split; assumption.
Qed.

Lemma AddressBook_add_record_twice_witness :
  let w1 := snd (AddressBook_add_record 0%nat two_records_world) in
  let w2 := snd (AddressBook_add_record 1%nat w1) in
  count_key (lit "alice") (data w2) = 1%nat
  /\ dict_get (lit "alice") (data w2) = Some 1%nat.
Proof.
  destruct (AddressBook_add_record_twice two_records_world 0%nat 1%nat
              (mkRecord (mkName (lit "alice")) [] None)
              (mkRecord (mkName (lit "alice")) [mkPhone (lit "1234567890")]
                 None))
    as (_ & _ & _ & Hc & Hg & _).
  - unfold unique_keys. simpl. constructor.
  - reflexivity.
  - reflexivity.
  - reflexivity.
  - split; [exact Hc | exact Hg].
Defined.

(** ** The invariant of the book *)

Lemma names_kept_refl h : names_kept h h.
Proof. intros l r H. exists r. split; [exact H | reflexivity]. Qed.

Lemma names_kept_alloc h r0 : names_kept h (h ++ [r0]).
Proof.
  intros l r H. exists r. split; [|reflexivity].
  rewrite lookup_app_l; [exact H|]. apply lookup_lt_Some in H. exact H.
Qed.

Lemma names_kept_store h self r0 r1 :
  h !! self = Some r0 -> name r1 = name r0 -> names_kept h (<[self := r1]> h).
Proof.
  intros H0 Hn l r H. destruct (decide (self = l)) as [->|Hne].
  - exists r1. split.
    + apply list_lookup_insert_eq. apply lookup_lt_Some in H. exact H.
    + congruence.
  - exists r. split; [|reflexivity].
    rewrite list_lookup_insert_ne by assumption. exact H.
Qed.

Lemma keys_are_names_kept (w w' : world) :
  names_kept (heap w) (heap w') ->
  (forall k l, In (k, l) (data w') -> In (k, l) (data w)) ->
  keys_are_names w -> keys_are_names w'.
Proof.
  intros Hh Hd Hinv k l Hin.
  destruct (Hinv k l (Hd k l Hin)) as (r & Hr & Hk).
  destruct (Hh l r Hr) as (r' & Hr' & Hn).
  exists r'. split; [exact Hr' | congruence].
Qed.

Lemma preserves_bind {A B : Type} (c : M A) (k : A -> M B) :
  preserves c -> (forall a, preserves (k a)) -> preserves (bind c k).
Proof.
  intros Hc Hk w Hw. unfold bind. specialize (Hc w Hw).
  destruct (c w) as [[a|e] w']; simpl in *; [apply Hk, Hc | exact Hc].
Qed.

Lemma preserves_pure {A : Type} (c : M A) :
  (forall w, snd (c w) = w) -> preserves c.
Proof. intros H w Hw. rewrite H. exact Hw. Qed.

Lemma preserves_ret {A : Type} (a : A) : preserves (ret a).
Proof. apply preserves_pure. reflexivity. Qed.

Lemma preserves_raise {A : Type} (e : exn) : preserves (@raise A e).
Proof. apply preserves_pure. reflexivity. Qed.

Lemma preserves_lift {A : Type} (r : result A) : preserves (lift r).
Proof. apply preserves_pure. reflexivity. Qed.

Lemma world_inv_alloc (w : world) (r : record) :
  birthday r = None -> world_inv w ->
  world_inv (mkWorld (heap w ++ [r]) (data w)).
Proof.
  intros Hb (Hk & Hu & Hbs). split; [|split].
  - revert Hk. apply keys_are_names_kept; [apply names_kept_alloc | tauto].
  - exact Hu.
  - simpl. apply List.Forall_app. split; [exact Hbs|].
    constructor; [left; exact Hb | constructor].
Qed.

Lemma world_inv_store (w : world) (self : loc) (r r' : record) :
  heap w !! self = Some r -> name r' = name r -> birthday_ok r' ->
  world_inv w -> world_inv (mkWorld (<[self := r']> (heap w)) (data w)).
Proof.
  intros Hr Hn Hb (Hk & Hu & Hbs). split; [|split].
  - revert Hk. apply keys_are_names_kept; [|tauto].
    simpl. eapply names_kept_store; eassumption.
  - exact Hu.
  - simpl. rewrite List.Forall_forall in *. intros x Hx.
    apply list_elem_of_In, list_elem_of_lookup in Hx. destruct Hx as [i Hi].
    destruct (decide (self = i)) as [->|Hne].
    + rewrite list_lookup_insert_eq in Hi
        by (apply lookup_lt_Some in Hr; exact Hr).
      injection Hi as <-. exact Hb.
    + rewrite list_lookup_insert_ne in Hi by assumption.
      apply Hbs, list_elem_of_In, list_elem_of_lookup. eauto.
Qed.

Lemma world_inv_birthday (w : world) (l : loc) (r : record) :
  world_inv w -> heap w !! l = Some r -> birthday_ok r.
Proof.
  intros (_ & _ & Hbs) Hr. rewrite List.Forall_forall in Hbs.
  apply Hbs, list_elem_of_In, list_elem_of_lookup. eauto.
Qed.

Lemma Birthday_init_inv (v : str) (b : Birthday) :
  Birthday_init v = Ok b ->
  b = mkBirthday v /\ exists d, strptime_dmY v = Ok d.
Proof.
  unfold Birthday_init. destruct (strptime_dmY v) as [d|e].
  - intros [= <-]. split; [reflexivity | eauto].
  - destruct e; discriminate.
Qed.

Lemma Record_init_inv nm : preserves (Record_init nm).
Proof.
  intros w Hw. unfold Record_init. run_method.
  destruct (Name_init nm); simpl; [|exact Hw].
  apply world_inv_alloc; [reflexivity | exact Hw].
Qed.

Lemma Record_add_phone_inv self p : preserves (Record_add_phone self p).
Proof.
  intros w Hw. unfold Record_add_phone. run_method.
  destruct (Phone_init p); simpl; [|exact Hw].
  destruct (heap w !! self) as [r|] eqn:H; simpl; [|exact Hw].
  eapply world_inv_store; [exact H | reflexivity | | exact Hw].
  exact (world_inv_birthday w self r Hw H).
Qed.

Lemma Record_find_phone_world self p w :
  snd (Record_find_phone self p w) = w.
Proof.
  unfold Record_find_phone. run_method.
  destruct (heap w !! self); reflexivity.
Qed.

Lemma Record_remove_phone_inv self p : preserves (Record_remove_phone self p).
Proof.
  intros w Hw. unfold Record_remove_phone, Record_find_phone. run_method.
  destruct (heap w !! self) as [r|] eqn:H; simpl; [|exact Hw].
  destruct (find_phone_in p (phones r)) as [ph|]; simpl; [|exact Hw].
  rewrite H.
  destruct (list_remove ph (phones r)); simpl; [|exact Hw].
  eapply world_inv_store; [exact H | reflexivity | | exact Hw].
  exact (world_inv_birthday w self r Hw H).
Qed.

Lemma Record_edit_phone_inv self o n : preserves (Record_edit_phone self o n).
Proof.
  intros w Hw. unfold Record_edit_phone, Record_find_phone. run_method.
  destruct (heap w !! self) as [r|] eqn:H; simpl; [|exact Hw].
  destruct (find_phone_in o (phones r)) as [ph|]; simpl; [|exact Hw].
  destruct (Phone_init n); simpl; [|exact Hw].
  rewrite H.
  destruct (list_index ph (phones r)); simpl; [|exact Hw].
  eapply world_inv_store; [exact H | reflexivity | | exact Hw].
  exact (world_inv_birthday w self r Hw H).
Qed.

Lemma Record_add_birthday_inv self b : preserves (Record_add_birthday self b).
Proof.
  intros w Hw. unfold Record_add_birthday. run_method.
  destruct (Birthday_init b) as [bd|] eqn:Hb; simpl; [|exact Hw].
  destruct (heap w !! self) as [r|] eqn:H; simpl; [|exact Hw].
  eapply world_inv_store; [exact H | reflexivity | | exact Hw].
  right. apply Birthday_init_inv in Hb. destruct Hb as [-> [d Hd]].
  exists d. unfold birthday_date, Birthday_date_obj. simpl. rewrite Hd.
  reflexivity.
Qed.

Lemma AddressBook_add_record_inv rec : preserves (AddressBook_add_record rec).
Proof.
  intros w Hw. unfold AddressBook_add_record. run_method.
  destruct (heap w !! rec) as [r|] eqn:H; simpl; [|exact Hw].
  destruct Hw as (Hk & Hu & Hbs). split; [|split].
  - intros k l Hin. simpl in *.
    apply dict_set_in in Hin. destruct Hin as [[-> ->]|Hin].
    + exists r. split; [exact H | reflexivity].
    + apply Hk, Hin.
  - unfold unique_keys; simpl. apply dict_set_unique, Hu.
  - exact Hbs.
Qed.

Lemma AddressBook_find_inv nm : preserves (AddressBook_find nm).
Proof. apply preserves_pure. reflexivity. Qed.

Lemma AddressBook_delete_inv nm : preserves (AddressBook_delete nm).
Proof.
  intros w Hw. unfold AddressBook_delete.
  destruct (dict_mem nm (data w)); simpl; [|exact Hw].
  destruct Hw as (Hk & Hu & Hbs). split; [|split].
  - intros k l Hin. simpl in *. apply dict_del_in in Hin. apply Hk, Hin.
  - unfold unique_keys; simpl. apply dict_del_unique, Hu.
  - exact Hbs.
Qed.

(** The query does not change the world, whether it returns or raises. *)
Lemma upcoming_body_world today days acc rec w :
  snd (upcoming_body today days acc rec w) = w.
Proof.
  unfold upcoming_body. run_method.
  destruct (heap w !! rec) as [r|]; simpl; [|reflexivity].
  destruct (birthday r) as [b|]; simpl; [|reflexivity].
  destruct (Birthday_date_obj b) as [bd|]; simpl; [|reflexivity].
  destruct (Date.replace_year bd (Date.year today)) as [d1|]; simpl;
    [|reflexivity].
  destruct (Date.ltb d1 today); simpl.
  - destruct (Date.replace_year d1 (Date.year today + 1)) as [d2|]; simpl;
      [|reflexivity].
    destruct ((0 <=? Date.sub_days d2 today)
              && (Date.sub_days d2 today <=? days)); simpl; [|reflexivity].
    destruct (adjust_for_weekend d2); reflexivity.
  - destruct ((0 <=? Date.sub_days d1 today)
              && (Date.sub_days d1 today <=? days)); simpl; [|reflexivity].
    destruct (adjust_for_weekend d1); reflexivity.
Qed.

Lemma for_each_world {A B : Type} (body : A -> B -> M A) :
  (forall acc x w, snd (body acc x w) = w) ->
  forall l acc w, snd (for_each body acc l w) = w.
Proof.
  intros Hbody. induction l as [|x l IH]; intros acc w; simpl; [reflexivity|].
  unfold bind. specialize (Hbody acc x w).
  destruct (body acc x w) as [[acc'|e] w']; simpl in *; subst w'.
  - apply IH.
  - reflexivity.
Qed.

Lemma AddressBook_get_upcoming_birthdays_world today days w :
  snd (AddressBook_get_upcoming_birthdays today days w) = w.
Proof.
  unfold AddressBook_get_upcoming_birthdays.
  apply for_each_world. intros. apply upcoming_body_world.
Qed.

Lemma AddressBook_get_upcoming_birthdays_inv today days :
  preserves (AddressBook_get_upcoming_birthdays today days).
Proof.
  apply preserves_pure. apply AddressBook_get_upcoming_birthdays_world.
Qed.

Lemma run_op_inv (o : op) (w : world) : world_inv w -> world_inv (run_op o w).
Proof.
  destruct o; simpl.
  - apply Record_init_inv.
  - apply Record_add_phone_inv.
  - apply Record_remove_phone_inv.
  - apply Record_edit_phone_inv.
  - rewrite Record_find_phone_world. tauto.
  - apply Record_add_birthday_inv.
  - apply AddressBook_add_record_inv.
  - tauto.
  - apply AddressBook_delete_inv.
  - apply AddressBook_get_upcoming_birthdays_inv.
Qed.

Lemma run_ops_inv (ops : list op) (w : world) :
  world_inv w -> world_inv (run_ops ops w).
Proof.
  revert w. induction ops as [|o ops IH]; intros w Hw; simpl.
  - exact Hw.
  - apply IH, run_op_inv, Hw.
Qed.

Lemma empty_world_inv : world_inv empty_world.
Proof.
  split; [|split].
  - intros k l [].
  - unfold unique_keys. simpl. constructor.
  - constructor.
Qed.

(** C9: starting from the empty book, after any sequence of calls of the
    methods of [AddressBook] ([add_record], [find], [delete],
    [get_upcoming_birthdays]) and of [Record], every key of the book refers
    to a record whose name is that key. *)
Theorem AddressBook_keys_are_names (ops : list op) :
  keys_are_names (run_ops ops empty_world).
Proof. apply (run_ops_inv ops empty_world empty_world_inv). Qed.

(** *** The handlers keep the invariant *)

Lemma input_error_world (func : M str) (w : world) :
  snd (input_error func w) = snd (func w).
Proof.
  unfold input_error. destruct (func w) as [[s|e] w']; simpl; [reflexivity|].
  destruct e as [m|m|m|m]; reflexivity.
Qed.

Lemma attr_of_inv found attr : preserves (attr_of found attr).
Proof. destruct found; [apply preserves_ret | apply preserves_raise]. Qed.

Lemma add_contact_func_inv args : preserves (add_contact_func args).
Proof.
  unfold add_contact_func.
  apply preserves_bind; [apply preserves_lift|]. intros np.
  apply preserves_bind; [apply AddressBook_find_inv|]. intros found.
  apply preserves_bind.
  - destruct found; [apply preserves_ret|].
    apply preserves_bind; [apply Record_init_inv|]. intros rec.
    apply preserves_bind; [apply AddressBook_add_record_inv|]. intros _.
    apply preserves_ret.
  - intros rm. apply preserves_bind; [apply Record_add_phone_inv|].
    intros _. apply preserves_ret.
Qed.

Lemma change_contact_func_inv args : preserves (change_contact_func args).
Proof.
  unfold change_contact_func.
  apply preserves_bind; [apply preserves_lift|]. intros a.
  apply preserves_bind; [apply AddressBook_find_inv|]. intros found.
  apply preserves_bind; [apply attr_of_inv|]. intros rec.
  apply preserves_bind; [apply Record_edit_phone_inv|]. intros _.
  apply preserves_ret.
Qed.

Lemma add_birthday_func_inv args : preserves (add_birthday_func args).
Proof.
  unfold add_birthday_func.
  apply preserves_bind; [apply preserves_lift|]. intros nb.
  apply preserves_bind; [apply AddressBook_find_inv|]. intros found.
  apply preserves_bind; [apply attr_of_inv|]. intros rec.
  apply preserves_bind; [apply Record_add_birthday_inv|]. intros _.
  apply preserves_ret.
Qed.

Lemma load_inv l : preserves (load l).
Proof.
  apply preserves_pure. intros w. unfold load.
  destruct (heap w !! l); reflexivity.
Qed.

Lemma show_phone_func_inv args : preserves (show_phone_func args).
Proof.
  unfold show_phone_func.
  apply preserves_bind; [apply preserves_lift|]. intros nm.
  apply preserves_bind; [apply AddressBook_find_inv|]. intros found.
  destruct found; [|apply preserves_ret].
  apply preserves_bind; [apply load_inv|]. intros r.
  destruct (phones r); apply preserves_ret.
Qed.

Lemma show_birthday_func_inv args : preserves (show_birthday_func args).
Proof.
  unfold show_birthday_func.
  apply preserves_bind; [apply preserves_lift|]. intros nm.
  apply preserves_bind; [apply AddressBook_find_inv|]. intros found.
  destruct found; [|apply preserves_ret].
  apply preserves_bind; [apply load_inv|]. intros r.
  destruct (birthday r); apply preserves_ret.
Qed.

Lemma birthdays_func_inv today args : preserves (birthdays_func today args).
Proof.
  unfold birthdays_func.
  apply preserves_bind; [apply AddressBook_get_upcoming_birthdays_inv|].
  intros up. destruct up; apply preserves_ret.
Qed.

Lemma run_command_inv (c : command) (w : world) :
  world_inv w -> world_inv (snd (run_command c w)).
Proof.
  destruct c; simpl;
    unfold add_contact, change_contact, show_phone, add_birthday,
      show_birthday, birthdays;
    rewrite ?input_error_world.
  - apply add_contact_func_inv.
  - apply change_contact_func_inv.
  - apply show_phone_func_inv.
  - tauto.
  - apply add_birthday_func_inv.
  - apply show_birthday_func_inv.
  - apply birthdays_func_inv.
Qed.

Lemma run_commands_inv (cs : list command) (w : world) :
  world_inv w -> world_inv (run_commands cs w).
Proof.
  revert w. induction cs as [|c cs IH]; intros w Hw; simpl.
  - exact Hw.
  - apply IH, run_command_inv, Hw.
Qed.

(** Every world the program reaches satisfies the invariant. *)
Lemma reachable_inv (w : world) : reachable w -> world_inv w.
Proof.
  intros [cs ->]. apply run_commands_inv, empty_world_inv.
Qed.

Lemma world_inv_stored_ok (w : world) : world_inv w -> stored_ok w.
Proof.
  intros Hw. pose proof Hw as (Hk & _ & _).
  unfold stored_ok, dict_values. apply List.Forall_forall. intros l Hl.
  apply List.in_map_iff in Hl. destruct Hl as ([k l'] & <- & Hin).
  destruct (Hk k l' Hin) as (r & Hr & _). exists r. split; [exact Hr|].
  exact (world_inv_birthday w l' r Hw Hr).
Qed.

(** ** Dates *)

Section DateFacts.
Import Date.

Lemma is_leap_spec y :
  is_leap y = true <-> y mod 4 = 0 /\ (y mod 100 <> 0 \/ y mod 400 = 0).
Proof.
  unfold is_leap.
  rewrite andb_true_iff, orb_true_iff, negb_true_iff, !Z.eqb_eq, Z.eqb_neq.
  tauto.
Qed.

Lemma days_before_year_split a b c e :
  0 <= b <= 3 -> 0 <= c <= 24 -> 0 <= e <= 3 ->
  days_before_year (400 * a + 100 * b + 4 * c + e + 1)
  = DI400Y * a + DI100Y * b + DI4Y * c + 365 * e.
Proof.
  intros Hb Hc He. unfold days_before_year, DI400Y, DI100Y, DI4Y.
  cbv zeta.
  replace (400 * a + 100 * b + 4 * c + e + 1 - 1)
    with (400 * a + 100 * b + 4 * c + e) by lia.
  assert ((400 * a + 100 * b + 4 * c + e) / 4 = 100 * a + 25 * b + c) as ->.
  { symmetry. apply (Z.div_unique _ 4 _ e); lia. }
  assert ((400 * a + 100 * b + 4 * c + e) / 100 = 4 * a + b) as ->.
  { symmetry. apply (Z.div_unique _ 100 _ (4 * c + e)); lia. }
  assert ((400 * a + 100 * b + 4 * c + e) / 400 = a) as ->.
  { symmetry. apply (Z.div_unique _ 400 _ (100 * b + 4 * c + e)); lia. }
  lia.
Qed.

Lemma is_leap_split a b c e :
  0 <= b <= 3 -> 0 <= c <= 24 -> 0 <= e <= 3 ->
  is_leap (400 * a + 100 * b + 4 * c + e + 1)
  = (e =? 3) && (negb (c =? 24) || (b =? 3)).
Proof.
  intros Hb Hc He. unfold is_leap.
  set (y := 400 * a + 100 * b + 4 * c + e + 1).
  assert (y mod 4 = (e + 1) mod 4) as H4.
  { unfold y. replace (400 * a + 100 * b + 4 * c + e + 1)
      with ((e + 1) + (100 * a + 25 * b + c) * 4) by lia.
    apply Z.mod_add. lia. }
  assert (y mod 100 = (4 * c + e + 1) mod 100) as H100.
  { unfold y. replace (400 * a + 100 * b + 4 * c + e + 1)
      with ((4 * c + e + 1) + (4 * a + b) * 100) by lia.
    apply Z.mod_add. lia. }
  assert (y mod 400 = (100 * b + 4 * c + e + 1) mod 400) as H400.
  { unfold y. replace (400 * a + 100 * b + 4 * c + e + 1)
      with ((100 * b + 4 * c + e + 1) + a * 400) by lia.
    apply Z.mod_add. lia. }
  rewrite H4, H100, H400.
  destruct (Z.eqb_spec e 3) as [->|He3].
  - simpl. destruct (Z.eqb_spec c 24) as [->|Hc24].
    + simpl. destruct (Z.eqb_spec b 3) as [->|Hb3]; [reflexivity|].
      assert (b = 0 \/ b = 1 \/ b = 2) as [ -> | [ -> | -> ] ] by lia; reflexivity.
    + simpl. replace ((4 * c + 3 + 1) mod 100 =? 0) with false; [reflexivity|].
      symmetry. apply Z.eqb_neq. rewrite Z.mod_small by lia. lia.
  - replace ((e + 1) mod 4 =? 0) with false; [reflexivity|].
    symmetry. apply Z.eqb_neq. rewrite Z.mod_small by lia. lia.
Qed.

Lemma forall_below (P : Z -> bool) (k : nat) :
  List.forallb (fun i => P (Z.of_nat i)) (List.seq 0 k) = true ->
  forall n, 0 <= n < Z.of_nat k -> P n = true.
Proof.
  intros H n Hn. rewrite List.forallb_forall in H.
  specialize (H (Z.to_nat n)). rewrite Z2Nat.id in H by lia.
  apply H. apply List.in_seq. lia.
Qed.

Lemma month_day_ok_all (leapyear : bool) (n : Z) :
  0 <= n < 365 + (if leapyear then 1 else 0) ->
  month_day_ok leapyear n = true.
Proof.
  intros Hn. destruct leapyear.
  - apply (forall_below (month_day_ok true) 366); [vm_compute; reflexivity|lia].
  - apply (forall_below (month_day_ok false) 365); [vm_compute; reflexivity|lia].
Qed.

Lemma ord2ymd_month_day (n0 : Z) :
  let n := n0 - 1 in
  let n400 := n / DI400Y in
  let n := n mod DI400Y in
  let n100 := n / DI100Y in
  let n := n mod DI100Y in
  let n4 := n / DI4Y in
  let n := n mod DI4Y in
  let n1 := n / 365 in
  let n := n mod 365 in
  let y := n400 * 400 + 1 + n100 * 100 + n4 * 4 + n1 in
  ord2ymd n0 =
  if (n1 =? 4) || (n100 =? 4) then mk (y - 1) 12 31
  else
    let leapyear := (n1 =? 3) && (negb (n4 =? 24) || (n100 =? 3)) in
    mk y (fst (month_day n leapyear)) (snd (month_day n leapyear)).
Proof.
  cbv zeta. unfold ord2ymd, month_day. cbv zeta.
  destruct ((_ =? 4) || (_ =? 4)); [reflexivity|].
  match goal with |- context [if ?c then _ else _] => destruct c end;
    reflexivity.
Qed.

Lemma days_in_month_alt y m :
  days_in_month y m
  = DAYS_IN_MONTH m + (if (m =? 2) && is_leap y then 1 else 0).
Proof.
  unfold days_in_month. destruct (Z.eqb_spec m 2) as [->|]; simpl.
  - destruct (is_leap y); reflexivity.
  - lia.
Qed.

Lemma ord2ymd_spec (n0 : Z) :
  1 <= n0 <= MAXORDINAL ->
  valid (ord2ymd n0) /\ toordinal (ord2ymd n0) = n0.
Proof.
  intros Hn0. rewrite ord2ymd_month_day. cbv zeta.
  unfold MAXORDINAL in Hn0.
  pose proof (Z.div_mod (n0 - 1) DI400Y ltac:(discriminate)) as E400.
  pose proof (Z.mod_pos_bound (n0 - 1) DI400Y ltac:(reflexivity)) as B400.
  set (a := (n0 - 1) / DI400Y) in *.
  set (r400 := (n0 - 1) mod DI400Y) in *.
  pose proof (Z.div_mod r400 DI100Y ltac:(discriminate)) as E100.
  pose proof (Z.mod_pos_bound r400 DI100Y ltac:(reflexivity)) as B100.
  set (b := r400 / DI100Y) in *.
  set (r100 := r400 mod DI100Y) in *.
  pose proof (Z.div_mod r100 DI4Y ltac:(discriminate)) as E4.
  pose proof (Z.mod_pos_bound r100 DI4Y ltac:(reflexivity)) as B4.
  set (c := r100 / DI4Y) in *.
  set (r4 := r100 mod DI4Y) in *.
  pose proof (Z.div_mod r4 365 ltac:(discriminate)) as E1.
  pose proof (Z.mod_pos_bound r4 365 ltac:(reflexivity)) as B1.
  set (e := r4 / 365) in *.
  set (r1 := r4 mod 365) in *.
  clearbody a r400 b r100 c r4 e r1.
  unfold DI400Y, DI100Y, DI4Y in *.
  assert (0 <= a <= 24) as Ha by lia.
  assert (0 <= b <= 4) as Hb by lia.
  assert (0 <= c <= 24) as Hc by lia.
  assert (0 <= e <= 4) as He by lia.
  destruct (Z.eqb_spec e 4) as [He4|He4]; simpl.
  { (* the last day of a leap year *)
    assert (r1 = 0) by lia. assert (c <= 23) by lia. assert (b <= 3) by lia.
    unfold valid, toordinal, ymd2ord; simpl.
    replace (a * 400 + 1 + b * 100 + c * 4 + e - 1)
      with (400 * a + 100 * b + 4 * c + 3 + 1) by lia.
    unfold days_before_month, days_in_month.
    rewrite is_leap_split, days_before_year_split by lia.
    replace (c =? 24) with false by (symmetry; apply Z.eqb_neq; lia).
    simpl. unfold DI400Y, DI100Y, DI4Y, MINYEAR, MAXYEAR. lia. }
  destruct (Z.eqb_spec b 4) as [Hb4|Hb4]; simpl.
  { assert (r100 = 0) by lia. assert (c = 0) by lia. assert (e = 0) by lia.
    assert (a <= 23) by lia.
    unfold valid, toordinal, ymd2ord; simpl.
    replace (a * 400 + 1 + b * 100 + c * 4 + e - 1)
      with (400 * a + 100 * 3 + 4 * 24 + 3 + 1) by lia.
    unfold days_before_month, days_in_month.
    rewrite is_leap_split, days_before_year_split by lia.
    simpl. unfold DI400Y, DI100Y, DI4Y, MINYEAR, MAXYEAR. lia. }
  assert (e <= 3) by lia. assert (b <= 3) by lia.
  set (leapyear := (e =? 3) && (negb (c =? 24) || (b =? 3))).
  assert (0 <= r1 < 365 + (if leapyear then 1 else 0)) as Hr1
    by (destruct leapyear; lia).
  pose proof (month_day_ok_all leapyear r1 Hr1) as Hok.
  unfold month_day_ok in Hok. cbv zeta in Hok.
  destruct (month_day r1 leapyear) as [m d]. simpl in Hok |- *.
  rewrite !andb_true_iff, !in_range_spec, Z.eqb_eq in Hok.
  destruct Hok as [[Hm Hd] Hsum].
  replace (a * 400 + 1 + b * 100 + c * 4 + e)
    with (400 * a + 100 * b + 4 * c + e + 1) by lia.
  unfold valid, toordinal, ymd2ord; simpl.
  rewrite days_in_month_alt. unfold days_before_month.
  rewrite is_leap_split, days_before_year_split by lia.
  fold leapyear. unfold DI400Y, DI100Y, DI4Y, MINYEAR, MAXYEAR.
  assert (400 * a + 100 * b + 4 * c + e + 1 <= 9999) by lia.
  lia.
Qed.

Lemma days_before_year_succ y :
  days_before_year (y + 1)
  = days_before_year y + 365 + (if is_leap y then 1 else 0).
Proof.
  unfold days_before_year, is_leap. cbv zeta.
  replace (y + 1 - 1) with y by lia.
  destruct (Z.eqb_spec (y mod 4) 0) as [H4|H4];
    destruct (Z.eqb_spec (y mod 100) 0) as [H100|H100];
    destruct (Z.eqb_spec (y mod 400) 0) as [H400|H400]; simpl;
    Z.div_mod_to_equations; lia.
Qed.

Lemma days_before_year_bounds y :
  1 <= y <= 10000 -> 0 <= days_before_year y <= MAXORDINAL.
Proof.
  intros Hy. unfold days_before_year, MAXORDINAL. cbv zeta.
  Z.div_mod_to_equations. lia.
Qed.

Lemma days_before_month_bounds y m d :
  1 <= m <= 12 -> 1 <= d <= days_in_month y m ->
  1 <= days_before_month y m + d <= 365 + (if is_leap y then 1 else 0).
Proof.
  intros Hm Hd. rewrite days_in_month_alt in Hd. unfold days_before_month.
  assert (m = 1 \/ m = 2 \/ m = 3 \/ m = 4 \/ m = 5 \/ m = 6 \/ m = 7
          \/ m = 8 \/ m = 9 \/ m = 10 \/ m = 11 \/ m = 12) as Hcases by lia.
  destruct (is_leap y);
    repeat (destruct Hcases as [->|Hcases]; [simpl in *; lia|]);
    subst m; simpl in *; lia.
Qed.

Lemma toordinal_bounds d : valid d -> 1 <= toordinal d <= MAXORDINAL.
Proof.
  intros (Hy & Hm & Hd). unfold toordinal, ymd2ord.
  pose proof (days_before_month_bounds _ _ _ Hm Hd) as Hb.
  pose proof (days_before_year_succ (year d)) as Hs.
  unfold MINYEAR, MAXYEAR in Hy.
  pose proof (days_before_year_bounds (year d) ltac:(lia)) as H1.
  pose proof (days_before_year_bounds (year d + 1) ltac:(lia)) as H2.
  lia.
Qed.

Lemma validb_spec d : validb d = true <-> valid d.
Proof.
  unfold validb, valid. rewrite !andb_true_iff, !in_range_spec. tauto.
Qed.

Lemma new_ok y m d : valid (mk y m d) -> new y m d = Ok (mk y m d).
Proof.
  intros (Hy & Hm & Hd). simpl in *. unfold new.
  apply in_range_spec in Hy, Hm, Hd. rewrite Hy, Hm, Hd. reflexivity.
Qed.

Lemma new_inv y m d r : new y m d = Ok r -> r = mk y m d /\ valid r.
Proof.
  unfold new.
  destruct (in_range MINYEAR MAXYEAR y) eqn:Hy; simpl; [|discriminate].
  destruct (in_range 1 12 m) eqn:Hm; simpl; [|discriminate].
  destruct (in_range 1 (days_in_month y m) d) eqn:Hd; simpl; [|discriminate].
  intros [= <-]. split; [reflexivity|].
  apply in_range_spec in Hy, Hm, Hd. repeat split; simpl; lia.
Qed.

Lemma add_days_ok d k :
  valid d -> 1 <= toordinal d + k <= MAXORDINAL ->
  exists d', add_days d k = Ok d' /\ valid d'
             /\ toordinal d' = toordinal d + k.
Proof.
  intros Hd Hk. unfold add_days.
  replace (0 <? toordinal d + k) with true by (symmetry; apply Z.ltb_lt; lia).
  replace (toordinal d + k <=? MAXORDINAL) with true
    by (symmetry; apply Z.leb_le; lia).
  simpl. destruct (ord2ymd_spec (toordinal d + k) Hk) as [Hv Ho].
  eexists. split; [reflexivity|]. split; assumption.
Qed.

(** A date on a Saturday or a Sunday is never the last day the type has:
    the Monday after it exists. *)
Lemma adjust_for_weekend_spec d :
  valid d ->
  exists d',
    adjust_for_weekend d = Ok d' /\ valid d'
    /\ toordinal d'
       = toordinal d
         + (if weekday d =? 5 then 2 else if weekday d =? 6 then 1 else 0)
    /\ (weekday d = 5 \/ weekday d = 6 -> weekday d' = 0)
    /\ (weekday d <> 5 -> weekday d <> 6 -> d' = d).
Proof.
  intros Hd. pose proof (toordinal_bounds d Hd) as Hb.
  unfold adjust_for_weekend, weekday in *. unfold MAXORDINAL in *.
  destruct (Z.eqb_spec ((toordinal d + 6) mod 7) 5) as [H5|H5].
  - destruct (add_days_ok d 2 Hd) as (d' & Heq & Hv & Ho).
    { unfold MAXORDINAL. Z.div_mod_to_equations. lia. }
    exists d'. rewrite Heq, Ho.
    split; [reflexivity|]. split; [exact Hv|]. split; [reflexivity|].
    split; [|congruence].
    intros _. Z.div_mod_to_equations. lia.
  - destruct (Z.eqb_spec ((toordinal d + 6) mod 7) 6) as [H6|H6].
    + destruct (add_days_ok d 1 Hd) as (d' & Heq & Hv & Ho).
      { unfold MAXORDINAL. Z.div_mod_to_equations. lia. }
      exists d'. rewrite Heq, Ho.
      split; [reflexivity|]. split; [exact Hv|]. split; [reflexivity|].
      split; [|congruence].
      intros _. Z.div_mod_to_equations. lia.
    + exists d.
      split; [reflexivity|]. split; [exact Hd|]. split; [lia|].
      split; [tauto | reflexivity].
Qed.

End DateFacts.

(** ** Upcoming birthdays *)

Lemma occurrence_valid today bd :
  occurrence_exists today bd -> Date.valid (occurrence today bd).
Proof.
  intros [H1 H2]. unfold occurrence. cbv zeta.
  destruct (Date.ltb _ today); [apply H2; reflexivity | exact H1].
Qed.

Lemma add_days_eq d k :
  1 <= Date.toordinal d + k <= Date.MAXORDINAL ->
  Date.add_days d k = Ok (Date.ord2ymd (Date.toordinal d + k)).
Proof.
  intros Hk. unfold Date.add_days. cbv zeta.
  replace (0 <? Date.toordinal d + k) with true
    by (symmetry; apply Z.ltb_lt; lia).
  replace (Date.toordinal d + k <=? Date.MAXORDINAL) with true
    by (symmetry; apply Z.leb_le; lia).
  reflexivity.
Qed.

(** The weekend shift never leaves the range of dates. *)
Lemma adjust_for_weekend_shown d :
  Date.valid d -> adjust_for_weekend d = Ok (shown_date d).
Proof.
  intros Hd. pose proof (toordinal_bounds d Hd) as Hb.
  unfold adjust_for_weekend, shown_date, Date.weekday, Date.MAXORDINAL in *.
  destruct (Z.eqb_spec ((Date.toordinal d + 6) mod 7) 5) as [H5|H5].
  - apply add_days_eq. unfold Date.MAXORDINAL.
    Z.div_mod_to_equations. lia.
  - destruct (Z.eqb_spec ((Date.toordinal d + 6) mod 7) 6) as [H6|H6];
      [|reflexivity].
    apply add_days_eq. unfold Date.MAXORDINAL.
    Z.div_mod_to_equations. lia.
Qed.

(** The date shown is a date, it is 2, 1 or 0 days after the occurrence,
    and it is a Monday when the occurrence is on a weekend. *)
Lemma shown_date_spec d :
  Date.valid d ->
  Date.valid (shown_date d)
  /\ Date.toordinal (shown_date d)
     = Date.toordinal d
       + (if Date.weekday d =? 5 then 2
          else if Date.weekday d =? 6 then 1 else 0)
  /\ (Date.weekday d = 5 \/ Date.weekday d = 6 ->
      Date.weekday (shown_date d) = 0)
  /\ (Date.weekday d <> 5 -> Date.weekday d <> 6 -> shown_date d = d).
Proof.
  intros Hd. destruct (adjust_for_weekend_spec d Hd) as (d' & Heq & H).
  rewrite (adjust_for_weekend_shown d Hd) in Heq.
  injection Heq as <-. exact H.
Qed.

Lemma upcoming_spec_cons today days r rs :
  upcoming_spec today days (r :: rs)
  = upcoming_spec today days [r] ++ upcoming_spec today days rs.
Proof.
  unfold upcoming_spec. simpl. destruct (keeps today days r); reflexivity.
Qed.

Lemma upcoming_spec_none today days r :
  birthday_date r = None -> upcoming_spec today days [r] = [].
Proof. intros H. unfold upcoming_spec, keeps. simpl. rewrite H. reflexivity. Qed.

Lemma upcoming_spec_some today days r bd :
  birthday_date r = Some bd ->
  upcoming_spec today days [r]
  = if in_window today days (occurrence today bd)
    then [mkUpcoming (name_value (name r))
            (Date.strftime_dmY (shown_date (occurrence today bd)))]
    else [].
Proof.
  intros H. unfold upcoming_spec, keeps, entry_of. simpl. rewrite H.
  destruct (in_window today days (occurrence today bd)); simpl;
    [rewrite H|]; reflexivity.
Qed.

Lemma upcoming_body_eq today days acc rec r w :
  heap w !! rec = Some r ->
  (forall bd, birthday_date r = Some bd -> occurrence_exists today bd) ->
  birthday_ok r ->
  upcoming_body today days acc rec w
  = (Ok (acc ++ upcoming_spec today days [r]), w).
Proof.
  intros Hr Hocc Hb. unfold upcoming_body, bind, lift, ret.
  rewrite (load_ok _ _ _ Hr).
  destruct Hb as [Hb|[bd Hbd]].
  { rewrite upcoming_spec_none by (unfold birthday_date; rewrite Hb; reflexivity).
    rewrite Hb, app_nil_r. reflexivity. }
  rewrite (upcoming_spec_some _ _ _ _ Hbd).
  specialize (Hocc bd Hbd). pose proof (occurrence_valid _ _ Hocc) as Hv.
  unfold birthday_date in Hbd.
  destruct (birthday r) as [b|]; [|discriminate].
  destruct (Birthday_date_obj b) as [bd'|]; [|discriminate].
  injection Hbd as ->.
  destruct Hocc as [H1 H2]. unfold in_window, Date.sub_days.
  unfold occurrence in *. cbv zeta in *.
  unfold Date.replace_year. rewrite (new_ok _ _ _ H1). simpl.
  destruct (Date.ltb _ today) eqn:Hlt.
  - rewrite (new_ok _ _ _ (H2 eq_refl)). simpl.
    destruct (_ && _); simpl; [|rewrite app_nil_r; reflexivity].
    rewrite (adjust_for_weekend_shown _ Hv). reflexivity.
  - destruct (_ && _); simpl; [|rewrite app_nil_r; reflexivity].
    rewrite (adjust_for_weekend_shown _ Hv). reflexivity.
Qed.

Lemma for_each_upcoming today days w (ls : list loc) :
  List.Forall (fun l => exists r, heap w !! l = Some r /\ birthday_ok r) ls ->
  (forall r bd, In r (omap (fun l => heap w !! l) ls) ->
                birthday_date r = Some bd -> occurrence_exists today bd) ->
  forall acc,
    for_each (upcoming_body today days) acc ls w
    = (Ok (acc ++ upcoming_spec today days (omap (fun l => heap w !! l) ls)),
       w).
Proof.
  induction 1 as [|l ls (r & Hr & Hb) _ IH]; intros Hocc acc; simpl.
  - unfold ret. rewrite app_nil_r. reflexivity.
  - simpl in Hocc. rewrite Hr in Hocc |- *. simpl in Hocc |- *.
    rewrite upcoming_spec_cons, app_assoc. unfold bind.
    rewrite (upcoming_body_eq today days acc l r w Hr); [|eauto|exact Hb].
    apply IH. eauto.
Qed.

Lemma reachable_stored_ok (w : world) : reachable w -> stored_ok w.
Proof. intros H. apply world_inv_stored_ok, reachable_inv, H. Qed.

(** C1, at the input where the code departs from it: the book that four
    commands build, with bob born on 08.06.1990 and ann on 29.02.2020,
    today Wednesday 2023-06-07 and a window of 7 days.  The records whose
    occurrence lies in the window are bob's alone, due the next day, and
    the answer the claim describes is the one entry for bob, which is what
    the query returns on the book without ann.  With ann in the book the
    query returns no list: [bday.replace(year=today.year)] raises
    [ValueError] on her birthday, which [Birthday] accepted, and the book
    is left as it was. *)
Theorem get_upcoming_birthdays_leap_day_crash :
  reachable leap_day_world
  /\ List.map (fun r => (name_value (name r), birthday r))
       (book_records leap_day_world)
     = [(lit "bob", Some (mkBirthday (lit "08.06.1990")));
        (lit "ann", Some (mkBirthday (lit "29.02.2020")))]
  /\ Birthday_init (lit "29.02.2020") = Ok (mkBirthday (lit "29.02.2020"))
  /\ upcoming_spec (Date.mk 2023 6 7) 7 (book_records leap_day_world)
     = [mkUpcoming (lit "bob") (lit "08.06.2023")]
  /\ AddressBook_get_upcoming_birthdays (Date.mk 2023 6 7) 7 bob_world
     = (Ok [mkUpcoming (lit "bob") (lit "08.06.2023")], bob_world)
  /\ AddressBook_get_upcoming_birthdays (Date.mk 2023 6 7) 7 leap_day_world
     = (Raise (ValueError (lit "day is out of range for month")),
        leap_day_world).
Proof.
  split; [exists leap_day_commands; reflexivity|].
  repeat split; vm_compute; reflexivity.
Qed.

(** The range of [date] ends with the year 9999: in that year a birthday
    that has passed has no next occurrence, and the query raises. *)
Lemma get_upcoming_birthdays_last_year :
  fst (AddressBook_get_upcoming_birthdays (Date.mk 9999 6 10) 7 june_world)
  = Raise (ValueError (lit "year 10000 is out of range")).
Proof. vm_compute. reflexivity. Qed.

(** C10: a book the program can reach holds a record born on 29 February;
    in a year that is not a leap year the query raises "day is out of range
    for month", the handler [birthdays] prints that text and names no
    contact, although bob's birthday is the next day and is reported when
    ann is not in the book. *)
Theorem birthdays_leap_day :
  exists (w : world) (today : Date.date),
    reachable w
    /\ Date.valid today /\ Date.is_leap (Date.year today) = false
    /\ (exists l r bd,
          dict_get (lit "ann") (data w) = Some l /\ heap w !! l = Some r
          /\ birthday_date r = Some bd
          /\ Date.month bd = 2 /\ Date.day bd = 29)
    /\ fst (AddressBook_get_upcoming_birthdays today 7 w)
       = Raise (ValueError (lit "day is out of range for month"))
    /\ birthdays today [] w = (lit "day is out of range for month", w)
    /\ birthdays today [] bob_world = (lit "bob: 08.06.2023", bob_world).
Proof.
  exists leap_day_world, (Date.mk 2023 6 7).
  split; [exists leap_day_commands; reflexivity|].
  split; [vm_compute; repeat split; discriminate|].
  split; [reflexivity|].
  split.
  { exists 1%nat. eexists. eexists.
    split; [vm_compute; reflexivity|].
    split; [vm_compute; reflexivity|].
    split; [vm_compute; reflexivity|].
    split; reflexivity. }
  split; [vm_compute; reflexivity|].
  split; vm_compute; reflexivity.
Qed.

(** *** When an occurrence does not exist *)

Lemma new_raises y m d e :
  Date.new y m d = Raise e ->
  (exists msg, e = ValueError msg) /\ ~ Date.valid (Date.mk y m d).
Proof.
  unfold Date.new, Date.valid. simpl.
  destruct (in_range Date.MINYEAR Date.MAXYEAR y) eqn:Hy; simpl.
  - destruct (in_range 1 12 m) eqn:Hm; simpl.
    + destruct (in_range 1 (Date.days_in_month y m) d) eqn:Hd; simpl;
        [discriminate|].
      intros [= <-]. split; [eauto|]. apply in_range_false in Hd. lia.
    + intros [= <-]. split; [eauto|]. apply in_range_false in Hm. lia.
  - intros [= <-]. split; [eauto|]. apply in_range_false in Hy. lia.
Qed.

Lemma occurrence_exists_dec today bd :
  occurrence_exists today bd \/ ~ occurrence_exists today bd.
Proof.
  unfold occurrence_exists.
  set (t := Date.mk (Date.year today) (Date.month bd) (Date.day bd)).
  set (t' := Date.mk (Date.year today + 1) (Date.month bd) (Date.day bd)).
  destruct (Date.validb t) eqn:Ht.
  - apply validb_spec in Ht. destruct (Date.ltb t today).
    + destruct (Date.validb t') eqn:Ht'.
      * apply validb_spec in Ht'. left. tauto.
      * right. intros [_ H]. specialize (H eq_refl).
        apply validb_spec in H. congruence.
    + left. split; [exact Ht | discriminate].
  - right. intros [H _]. apply validb_spec in H. congruence.
Qed.

(** A record whose occurrence does not exist stops the loop with a
    [ValueError]. *)
Lemma upcoming_body_raises today days acc rec r bd w :
  heap w !! rec = Some r -> birthday_date r = Some bd ->
  ~ occurrence_exists today bd ->
  exists msg, upcoming_body today days acc rec w = (Raise (ValueError msg), w).
Proof.
  intros Hr Hbd Hno. unfold upcoming_body, bind, lift, ret.
  rewrite (load_ok _ _ _ Hr). unfold birthday_date in Hbd.
  destruct (birthday r) as [b|]; [|discriminate].
  destruct (Birthday_date_obj b) as [bd'|]; [|discriminate].
  injection Hbd as ->. unfold Date.replace_year.
  destruct (Date.new (Date.year today) (Date.month bd) (Date.day bd))
    as [t|e] eqn:Ht.
  - apply new_inv in Ht. destruct Ht as [-> Hv]. simpl.
    destruct (Date.ltb _ today) eqn:Hlt.
    + destruct (Date.new (Date.year today + 1) (Date.month bd) (Date.day bd))
        as [t'|e] eqn:Ht'.
      * exfalso. apply Hno. apply new_inv in Ht'. destruct Ht' as [-> Hv'].
        split; [exact Hv | intros _; exact Hv'].
      * apply new_raises in Ht'. destruct Ht' as [[msg ->] _]. eauto.
    + exfalso. apply Hno. split; [exact Hv|]. congruence.
  - apply new_raises in Ht. destruct Ht as [[msg ->] _]. eauto.
Qed.

Lemma for_each_upcoming_raises today days w (ls : list loc) :
  List.Forall (fun l => exists r, heap w !! l = Some r /\ birthday_ok r) ls ->
  (exists r bd, In r (omap (fun l => heap w !! l) ls)
                /\ birthday_date r = Some bd
                /\ ~ occurrence_exists today bd) ->
  forall acc, exists msg,
    for_each (upcoming_body today days) acc ls w
    = (Raise (ValueError msg), w).
Proof.
  induction 1 as [|l ls (r & Hr & Hb) _ IH]; intros (r0 & bd & Hin & Hbd & Hno) acc.
  - destruct Hin.
  - simpl in Hin |- *. rewrite Hr in Hin. simpl in Hin. unfold bind.
    assert ((forall bd', birthday_date r = Some bd' ->
                         occurrence_exists today bd')
            \/ exists bd', birthday_date r = Some bd'
                           /\ ~ occurrence_exists today bd') as [Hall|Hex].
    { destruct (birthday_date r) as [bd'|]; [|left; discriminate].
      destruct (occurrence_exists_dec today bd') as [H|H].
      - left. intros ? [= <-]. exact H.
      - right. eauto. }
    + rewrite (upcoming_body_eq today days acc l r w Hr Hall Hb).
      apply IH. destruct Hin as [->|Hin].
      * exfalso. apply Hno, Hall, Hbd.
      * eauto.
    + destruct Hex as (bd' & Hbd' & Hno').
      destruct (upcoming_body_raises today days acc l r bd' w Hr Hbd' Hno')
        as [msg ->].
      eauto.
Qed.

(** The query raises [ValueError] as soon as the occurrence of one stored
    birthday does not exist: it returns only when all of them exist. *)
Lemma get_upcoming_birthdays_no_occurrence today days w :
  stored_ok w ->
  (exists r bd, In r (book_records w) /\ birthday_date r = Some bd
                /\ ~ occurrence_exists today bd) ->
  exists msg,
    AddressBook_get_upcoming_birthdays today days w
    = (Raise (ValueError msg), w).
Proof.
  intros Hok Hex. unfold AddressBook_get_upcoming_birthdays.
  apply (for_each_upcoming_raises today days w _ Hok Hex []).
Qed.

(** 29 February has no occurrence in a year that is not a leap year. *)
Lemma leap_day_no_occurrence today bd :
  Date.month bd = 2 -> Date.day bd = 29 ->
  Date.is_leap (Date.year today) = false ->
  ~ occurrence_exists today bd.
Proof.
  intros Hm Hd Hleap [(_ & _ & H) _]. simpl in H.
  unfold Date.days_in_month in H. rewrite Hm, Hd, Hleap in H.
  simpl in H. lia.
Qed.

(** So a record born on 29 February makes the query raise in every such
    year, whatever else the book holds. *)
Lemma get_upcoming_birthdays_leap_day today days w r bd :
  stored_ok w -> In r (book_records w) -> birthday_date r = Some bd ->
  Date.month bd = 2 -> Date.day bd = 29 ->
  Date.is_leap (Date.year today) = false ->
  exists msg,
    AddressBook_get_upcoming_birthdays today days w
    = (Raise (ValueError msg), w).
Proof.
  intros Hok Hin Hbd Hm Hd Hleap.
  apply get_upcoming_birthdays_no_occurrence; [exact Hok|].
  exists r, bd. split; [exact Hin|]. split; [exact Hbd|].
  apply leap_day_no_occurrence; assumption.
Qed.

(** ** Birthday *)

Lemma first_match_some {A B : Type} (k : A -> option B) (alts : list A) b :
  first_match k alts = Some b -> exists a, In a alts /\ k a = Some b.
Proof.
  induction alts as [|a alts IH]; simpl; [discriminate|].
  destruct (k a) as [b'|] eqn:Ha.
  - intros [= <-]. exists a. split; [left; reflexivity | exact Ha].
  - intros H. destruct (IH H) as (a' & Hin & Ha'). exists a'.
    split; [right; exact Hin | exact Ha'].
Qed.

(** When every alternative that leads to a match leads to the same one,
    that is the match found. *)
Lemma first_match_unique {A B : Type} (k : A -> option B) (alts : list A) b :
  (exists a, In a alts /\ k a = Some b) ->
  (forall a b', In a alts -> k a = Some b' -> b' = b) ->
  first_match k alts = Some b.
Proof.
  intros (a & Hin & Ha) Hall.
  destruct (first_match k alts) as [b'|] eqn:Hf.
  - apply first_match_some in Hf. destruct Hf as (a' & Hin' & Ha').
    f_equal. eapply Hall; eassumption.
  - exfalso. clear Hall. induction alts as [|a0 alts IH]; [destruct Hin|].
    simpl in Hf. destruct (k a0) eqn:Ha0; [discriminate|].
    destruct Hin as [->|Hin]; [congruence | auto].
Qed.

Lemma to_decimal_not_dot c v : to_decimal c = Some v -> c <> ch_dot.
Proof. intros H ->. vm_compute in H. discriminate. Qed.

Lemma to_decimal_not_space c v : to_decimal c = Some v -> c <> ch_space.
Proof. intros H ->. vm_compute in H. discriminate. Qed.

Lemma to_decimal_digit c :
  ascii_digit c = true -> to_decimal c = Some (c - ch_0).
Proof.
  intros H. rewrite to_decimal_ascii, H; [reflexivity|].
  apply ascii_digit_spec in H. lia.
Qed.

Lemma isdecimal_char_spec c :
  isdecimal_char c = true <-> exists v, to_decimal c = Some v.
Proof.
  unfold isdecimal_char. destruct (to_decimal c) as [v|].
  - split; eauto.
  - split; [discriminate | intros [v [=]]].
Qed.

Lemma lstrip_not_space c s : c <> ch_space -> lstrip (c :: s) = c :: s.
Proof.
  intros H. simpl. apply Z.eqb_neq in H. rewrite H. reflexivity.
Qed.

Ltac digit_bounds :=
  repeat match goal with
    | H : ascii_digit _ = true |- _ => apply ascii_digit_spec in H
    | H : in_range _ _ _ = true |- _ => apply in_range_spec in H
    | H : (_ =? _) = true |- _ => apply Z.eqb_eq in H
    | H : _ && _ = true |- _ => apply andb_true_iff in H; destruct H
    end;
  unfold ch_0, ch_1, ch_2, ch_3, ch_9, ch_space, ch_dot in *.

(** What [int] makes of the text of a day, a month and a year. *)
Lemma py_int_day s v : day_text s v -> py_int s = Some v.
Proof.
  intros [(a & -> & Ha & ->)|[(a & -> & Ha & ->)|(a & b & vb & -> & Ha & Hb & _ & ->)]];
    pose proof (to_decimal_digit a Ha) as Hda; unfold py_int.
  - rewrite lstrip_not_space by (digit_bounds; lia).
    simpl. rewrite Hda. reflexivity.
  - change (lstrip [ch_space; a]) with (lstrip [a]).
    rewrite lstrip_not_space by (digit_bounds; lia).
    simpl. rewrite Hda. reflexivity.
  - rewrite lstrip_not_space by (digit_bounds; lia).
    simpl. rewrite Hda, Hb. f_equal.
Qed.

Lemma py_int_month s v : month_text s v -> py_int s = Some v.
Proof.
  intros [(a & -> & Ha & ->)|(a & b & -> & Ha & Hb & ->)];
    pose proof (to_decimal_digit a Ha) as Hda; unfold py_int.
  - rewrite lstrip_not_space by (digit_bounds; lia).
    simpl. rewrite Hda. reflexivity.
  - pose proof (to_decimal_digit b Hb) as Hdb.
    rewrite lstrip_not_space by (digit_bounds; lia).
    simpl. rewrite Hda, Hdb. f_equal.
Qed.

Lemma py_int_year s v : year_text s v -> py_int s = Some v.
Proof.
  intros (a & b & c & d & va & vb & vc & vd & -> & Ha & Hb & Hc & Hd & ->).
  unfold py_int.
  rewrite lstrip_not_space by (eapply to_decimal_not_space; eassumption).
  simpl. rewrite Ha, Hb, Hc, Hd. f_equal. lia.
Qed.

Lemma day_text_no_dot s v : day_text s v -> List.Forall (fun c => c <> ch_dot) s.
Proof.
  intros [(a & -> & Ha & _)|[(a & -> & Ha & _)|(a & b & vb & -> & Ha & Hb & _)]].
  - repeat constructor. digit_bounds. lia.
  - repeat constructor; [discriminate|]. digit_bounds. lia.
  - repeat constructor; [digit_bounds; lia|].
    eapply to_decimal_not_dot; eassumption.
Qed.

Lemma month_text_no_dot s v :
  month_text s v -> List.Forall (fun c => c <> ch_dot) s.
Proof.
  intros [(a & -> & Ha & _)|(a & b & -> & Ha & Hb & _)];
    repeat constructor; digit_bounds; lia.
Qed.

(** A text is split in one way at its first dot. *)
Lemma split_at_dot (g g' r r' : str) :
  List.Forall (fun c => c <> ch_dot) g ->
  List.Forall (fun c => c <> ch_dot) g' ->
  g ++ ch_dot :: r = g' ++ ch_dot :: r' -> g = g' /\ r = r'.
Proof.
  intros Hg. revert g'. induction Hg as [|c g Hc _ IH]; intros g' Hg' Heq.
  - destruct Hg' as [|c' g' Hc' _]; simpl in Heq.
    + injection Heq as <-. split; reflexivity.
    + injection Heq as <- _. congruence.
  - destruct Hg' as [|c' g' Hc' Hg']; simpl in Heq.
    + injection Heq as -> _. congruence.
    + injection Heq as <- Heq. destruct (IH g' Hg' Heq) as [<- <-].
      split; reflexivity.
Qed.

Lemma In_if {A : Type} (c : bool) (x y : A) :
  In y (if c then [x] else []) <-> c = true /\ y = x.
Proof.
  destruct c; simpl; split.
  - intros [<-|[]]. split; reflexivity.
  - intros [_ ->]. left. reflexivity.
  - intros [].
  - intros [[=] _].
Qed.

Lemma re_dot_spec s r : re_dot s = Some r <-> s = ch_dot :: r.
Proof.
  unfold re_dot. destruct s as [|c s]; [split; discriminate|].
  destruct (Z.eqb_spec c ch_dot) as [->|Hc]; split.
  - intros [= ->]. reflexivity.
  - intros [= ->]. reflexivity.
  - discriminate.
  - intros [= -> _]. congruence.
Qed.

(** The text a group matched is the text of a day. *)
Lemma re_d_sound s g r :
  In (g, r) (re_d s) -> s = g ++ r /\ exists v, day_text g v.
Proof.
  unfold re_d. destruct s as [|a [|b r0]]; [intros []| |].
  - rewrite In_if. intros [Ha [= -> ->]]. split; [reflexivity|].
    exists (a - ch_0). left. exists a. repeat split.
    digit_bounds. apply ascii_digit_spec. lia.
  - rewrite !in_app_iff, !In_if.
    intros [[Hc [= -> ->]]|[[Hc [= -> ->]]|[[Hc [= -> ->]]|
             [[Hc [= -> ->]]|[Hc [= -> ->]]]]]];
      (split; [reflexivity|]).
    + exists (10 * (a - ch_0) + (b - ch_0)). right. right.
      exists a, b, (b - ch_0).
      assert (ascii_digit a = true /\ ascii_digit b = true) as [Ha Hb]
        by (digit_bounds; split; apply ascii_digit_spec; lia).
      repeat split; auto. apply to_decimal_digit, Hb.
    + apply andb_true_iff in Hc. destruct Hc as [Ha Hb].
      apply isdecimal_char_spec in Hb. destruct Hb as [vb Hb].
      exists (10 * (a - ch_0) + vb). right. right. exists a, b, vb.
      repeat split; auto.
      * digit_bounds. apply ascii_digit_spec. lia.
      * right. digit_bounds. lia.
    + exists (10 * (a - ch_0) + (b - ch_0)). right. right.
      exists a, b, (b - ch_0).
      assert (ascii_digit a = true /\ ascii_digit b = true) as [Ha Hb]
        by (digit_bounds; split; apply ascii_digit_spec; lia).
      repeat split; auto. apply to_decimal_digit, Hb.
    + exists (a - ch_0). left. exists a. repeat split.
      digit_bounds. apply ascii_digit_spec. lia.
    + exists (b - ch_0). right. left. exists b.
      assert (a = ch_space /\ ascii_digit b = true) as [-> Hb]
        by (digit_bounds; split; [|apply ascii_digit_spec]; lia).
      repeat split. exact Hb.
Qed.

(** The text of a day between 1 and 31 is matched by the group. *)
Lemma re_d_complete g v r :
  day_text g v -> 1 <= v <= 31 -> In (g, r) (re_d (g ++ r)).
Proof.
  intros [(a & -> & Ha & ->)|[(a & -> & Ha & ->)|
          (a & b & vb & -> & Ha & Hb & Hab & ->)]] Hv.
  - assert (in_range ch_1 ch_9 a = true) as H19
      by (digit_bounds; apply in_range_spec; lia).
    destruct r as [|b r]; cbn [app]; unfold re_d.
    + rewrite H19. left. reflexivity.
    + rewrite !in_app_iff, !In_if. right. right. right. left.
      split; [exact H19 | reflexivity].
  - assert (in_range ch_1 ch_9 a = true) as H19
      by (digit_bounds; apply in_range_spec; lia).
    cbn [app]. unfold re_d. rewrite !in_app_iff, !In_if. do 4 right.
    rewrite H19. split; reflexivity.
  - cbn [app]. unfold re_d. rewrite !in_app_iff, !In_if.
    assert (a = ch_1 \/ a = ch_2
            \/ (ascii_digit b = true /\ vb = b - ch_0)) as Hcases.
    { destruct Hab as [Hb'|[->| ->]]; auto. do 2 right.
      split; [exact Hb'|]. rewrite (to_decimal_digit b Hb') in Hb.
      congruence. }
    destruct Hcases as [->|[->|[Hb' ->]]].
    + right. left. split; [|reflexivity]. simpl.
      apply isdecimal_char_spec. eauto.
    + right. left. split; [|reflexivity]. simpl.
      apply isdecimal_char_spec. eauto.
    + digit_bounds.
      assert (a = 48 \/ a = 49 \/ a = 50 \/ a = 51) as [->|[->|[->| ->]]]
        by lia.
      * do 2 right. left. split; [|reflexivity].
        apply andb_true_iff. split; [reflexivity|].
        apply in_range_spec. lia.
      * right. left. split; [|reflexivity]. simpl.
        apply isdecimal_char_spec. eauto.
      * right. left. split; [|reflexivity]. simpl.
        apply isdecimal_char_spec. eauto.
      * left. split; [|reflexivity].
        apply andb_true_iff. split; [reflexivity|].
        apply in_range_spec. lia.
Qed.

Lemma re_m_sound s g r :
  In (g, r) (re_m s) -> s = g ++ r /\ exists v, month_text g v.
Proof.
  unfold re_m. destruct s as [|a [|b r0]]; [intros []| |].
  - rewrite In_if. intros [Ha [= -> ->]]. split; [reflexivity|].
    exists (a - ch_0). left. exists a. repeat split.
    digit_bounds. apply ascii_digit_spec. lia.
  - rewrite !in_app_iff, !In_if.
    intros [[Hc [= -> ->]]|[[Hc [= -> ->]]|[Hc [= -> ->]]]];
      (split; [reflexivity|]).
    + exists (10 * (a - ch_0) + (b - ch_0)). right. exists a, b.
      repeat split; digit_bounds; apply ascii_digit_spec; lia.
    + exists (10 * (a - ch_0) + (b - ch_0)). right. exists a, b.
      repeat split; digit_bounds; apply ascii_digit_spec; lia.
    + exists (a - ch_0). left. exists a. repeat split.
      digit_bounds. apply ascii_digit_spec. lia.
Qed.

Lemma re_m_complete g v r :
  month_text g v -> 1 <= v <= 12 -> In (g, r) (re_m (g ++ r)).
Proof.
  intros [(a & -> & Ha & ->)|(a & b & -> & Ha & Hb & ->)] Hv.
  - assert (in_range ch_1 ch_9 a = true) as H19
      by (digit_bounds; apply in_range_spec; lia).
    destruct r as [|b r]; cbn [app]; unfold re_m.
    + rewrite H19. left. reflexivity.
    + rewrite !in_app_iff, !In_if. right. right.
      split; [exact H19 | reflexivity].
  - cbn [app]. unfold re_m. rewrite !in_app_iff, !In_if. digit_bounds.
    assert (a = 48 \/ a = 49) as [->| ->] by lia.
    + right. left. split; [|reflexivity].
      apply andb_true_iff. split; [reflexivity|].
      apply in_range_spec. lia.
    + left. split; [|reflexivity].
      apply andb_true_iff. split; [reflexivity|].
      apply in_range_spec. lia.
Qed.

Lemma re_Y_spec s g r :
  re_Y s = Some (g, r) <-> s = g ++ r /\ exists v, year_text g v.
Proof.
  unfold re_Y. split.
  - destruct s as [|a [|b [|c [|d r0]]]]; try discriminate.
    destruct (isdecimal_char a) eqn:Ha; [|discriminate].
    destruct (isdecimal_char b) eqn:Hb; [|discriminate].
    destruct (isdecimal_char c) eqn:Hc; [|discriminate].
    destruct (isdecimal_char d) eqn:Hd; [|discriminate].
    simpl. intros [= <- <-]. split; [reflexivity|].
    apply isdecimal_char_spec in Ha, Hb, Hc, Hd.
    destruct Ha as [va Ha], Hb as [vb Hb], Hc as [vc Hc], Hd as [vd Hd].
    exists (1000 * va + 100 * vb + 10 * vc + vd).
    exists a, b, c, d, va, vb, vc, vd. repeat split; assumption.
  - intros [-> (v & a & b & c & d & va & vb & vc & vd & -> & Ha & Hb & Hc
                & Hd & _)].
    simpl. unfold isdecimal_char. rewrite Ha, Hb, Hc, Hd. reflexivity.
Qed.

Lemma year_text_length s v : year_text s v -> length s = 4%nat.
Proof. intros (a & b & c & d & ? & ? & ? & ? & -> & _). reflexivity. Qed.

Lemma same_year_text (ys y rest : str) vy v :
  year_text ys vy -> year_text y v -> ys = y ++ rest -> y = ys /\ rest = [].
Proof.
  intros Hys Hy Heq. apply year_text_length in Hys, Hy.
  assert (rest = []) as ->.
  { apply (f_equal (@length Z)) in Heq. rewrite length_app in Heq.
    destruct rest; [reflexivity | simpl in Heq; lia]. }
  rewrite app_nil_r in Heq. split; [congruence | reflexivity].
Qed.

(** The month and the year of a text, after the day [dg] was matched. *)
Lemma re_match_month_year (dg ms ys : str) vm vy :
  month_text ms vm -> 1 <= vm <= 12 -> year_text ys vy ->
  first_match
    (fun m =>
       match re_dot (snd m) with
       | None => None
       | Some s2 =>
           match re_Y s2 with
           | Some (y, rest) => Some (dg, fst m, y, rest)
           | None => None
           end
       end)
    (re_m (ms ++ ch_dot :: ys))
  = Some (dg, ms, ys, []).
Proof.
  intros Hm Hvm Hy. apply first_match_unique.
  - exists (ms, ch_dot :: ys). split; [eapply re_m_complete; eassumption|].
    cbn [snd fst]. rewrite (proj2 (re_dot_spec _ _) eq_refl).
    assert (re_Y ys = Some (ys, [])) as ->; [|reflexivity].
    apply re_Y_spec. rewrite app_nil_r. eauto.
  - intros [g r] b' Hin Hk. simpl in Hk.
    apply re_m_sound in Hin. destruct Hin as [Heq [v Hg]].
    destruct (re_dot r) as [s2|] eqn:Hdot; [|discriminate].
    apply re_dot_spec in Hdot. subst r.
    destruct (re_Y s2) as [[y rest]|] eqn:HY; [|discriminate].
    injection Hk as <-.
    apply re_Y_spec in HY. destruct HY as [-> [v' Hy']].
    apply split_at_dot in Heq;
      [|eapply month_text_no_dot; eassumption
       |eapply month_text_no_dot; eassumption].
    destruct Heq as [-> Heq].
    destruct (same_year_text _ _ _ _ _ Hy Hy' Heq) as [-> ->]. reflexivity.
Qed.

(** What the pattern matches in a text day.month.year. *)
Lemma re_match_complete (ds ms ys : str) vd vm vy :
  day_text ds vd -> 1 <= vd <= 31 ->
  month_text ms vm -> 1 <= vm <= 12 -> year_text ys vy ->
  re_match_dmY (ds ++ ch_dot :: ms ++ ch_dot :: ys) = Some (ds, ms, ys, []).
Proof.
  intros Hd Hvd Hm Hvm Hy. unfold re_match_dmY. apply first_match_unique.
  - exists (ds, ch_dot :: ms ++ ch_dot :: ys).
    split; [eapply re_d_complete; eassumption|].
    cbn [snd fst]. rewrite (proj2 (re_dot_spec _ _) eq_refl).
    apply (re_match_month_year ds ms ys vm vy); assumption.
  - intros [g r] b' Hin Hk. simpl in Hk.
    apply re_d_sound in Hin. destruct Hin as [Heq [v Hg]].
    destruct (re_dot r) as [s1|] eqn:Hdot; [|discriminate].
    apply re_dot_spec in Hdot. subst r.
    apply split_at_dot in Heq;
      [|eapply day_text_no_dot; eassumption
       |eapply day_text_no_dot; eassumption].
    destruct Heq as [-> <-].
    rewrite (re_match_month_year g ms ys vm vy) in Hk by assumption.
    congruence.
Qed.

(** What a match says about the text. *)
Lemma re_match_sound (s dg mg yg rest : str) :
  re_match_dmY s = Some (dg, mg, yg, rest) ->
  s = dg ++ ch_dot :: mg ++ ch_dot :: yg ++ rest
  /\ (exists v, day_text dg v) /\ (exists v, month_text mg v)
  /\ (exists v, year_text yg v).
Proof.
  unfold re_match_dmY. intros H.
  apply first_match_some in H. destruct H as ([g r] & Hin & Hk).
  simpl in Hk. apply re_d_sound in Hin. destruct Hin as [-> Hg].
  destruct (re_dot r) as [s1|] eqn:Hdot; [|discriminate].
  apply re_dot_spec in Hdot. subst r.
  apply first_match_some in Hk. destruct Hk as ([g' r'] & Hin' & Hk').
  simpl in Hk'. apply re_m_sound in Hin'. destruct Hin' as [-> Hg'].
  destruct (re_dot r') as [s2|] eqn:Hdot'; [|discriminate].
  apply re_dot_spec in Hdot'. subst r'.
  destruct (re_Y s2) as [[y rest']|] eqn:HY; [|discriminate].
  injection Hk' as <- <- <- <-.
  apply re_Y_spec in HY. destruct HY as [-> Hy].
  repeat split; assumption.
Qed.

Lemma strptime_dmY_raises s e :
  strptime_dmY s = Raise e -> exists m, e = ValueError m.
Proof.
  unfold strptime_dmY, Date.new.
  destruct (re_match_dmY s) as [[[[d m] y] rest]|]; [|intros [= <-]; eauto].
  destruct rest; [|intros [= <-]; eauto].
  destruct (py_int y), (py_int m), (py_int d); try (intros [= <-]; eauto).
  repeat match goal with
         | |- context [if ?c then _ else _] => destruct c
         end; try discriminate; intros [= <-]; eauto.
Qed.

Lemma days_in_month_le_31 y m : Date.days_in_month y m <= 31.
Proof.
  unfold Date.days_in_month, Date.DAYS_IN_MONTH.
  destruct ((m =? 2) && Date.is_leap y); [lia|].
  destruct m as [|p|p]; try lia.
  do 4 (destruct p as [p|p|]; try lia).
Qed.

(** [strptime] returns a date exactly for the texts of real dates. *)
Lemma strptime_dmY_spec (s : str) (d : Date.date) :
  strptime_dmY s = Ok d <-> birthday_text s d /\ Date.valid d.
Proof.
  split.
  - unfold strptime_dmY.
    destruct (re_match_dmY s) as [[[[dg mg] yg] rest]|] eqn:Hm;
      [|discriminate].
    destruct rest; [|discriminate].
    apply re_match_sound in Hm.
    destruct Hm as (-> & [vd Hd] & [vm Hmo] & [vy Hy]).
    rewrite (py_int_year _ _ Hy), (py_int_month _ _ Hmo), (py_int_day _ _ Hd).
    intros Hnew. apply new_inv in Hnew. destruct Hnew as [-> Hv].
    split; [|exact Hv].
    exists dg, mg, yg. rewrite app_nil_r. simpl. repeat split; assumption.
  - intros [(ds & ms & ys & -> & Hd & Hm & Hy) (Hvy & Hvm & Hvd)].
    unfold strptime_dmY.
    change (ds ++ [ch_dot] ++ ms ++ [ch_dot] ++ ys)
      with (ds ++ ch_dot :: ms ++ ch_dot :: ys).
    pose proof (days_in_month_le_31 (Date.year d) (Date.month d)) as H31.
    rewrite (re_match_complete ds ms ys _ _ _ Hd ltac:(lia) Hm Hvm Hy).
    rewrite (py_int_year _ _ Hy), (py_int_month _ _ Hm), (py_int_day _ _ Hd).
    destruct d as [y m dd]. apply new_ok. repeat split; simpl in *; lia.
Qed.

Lemma Birthday_init_cases (s : str) :
  Birthday_init s = Ok (mkBirthday s) \/ Birthday_init s = Raise Birthday_error.
Proof.
  unfold Birthday_init. destruct (strptime_dmY s) as [d|e] eqn:H; auto.
  apply strptime_dmY_raises in H. destruct H as [m ->]. auto.
Qed.

(** C2, as amended: [Birthday(s)] succeeds exactly when [s] is
    day.month.year for a real calendar date of the years 1 to 9999, the day
    written with one or two digits (or a blank and a digit), the month with
    one or two digits and the year with four; in every other case it fails
    with the message "Invalid date format. Use DD.MM.YYYY".  29.02.2021
    fails and 29.02.2020 succeeds. *)
Theorem Birthday_init_spec (s : str) :
  (Birthday_init s = Ok (mkBirthday s) <->
   exists d, birthday_text s d /\ Date.valid d)
  /\ (Birthday_init s = Ok (mkBirthday s)
      \/ Birthday_init s
         = Raise (ValueError (lit "Invalid date format. Use DD.MM.YYYY")))
  /\ Birthday_init (lit "29.02.2021")
     = Raise (ValueError (lit "Invalid date format. Use DD.MM.YYYY"))
  /\ Birthday_init (lit "29.02.2020") = Ok (mkBirthday (lit "29.02.2020")).
Proof.
  split; [|split; [apply Birthday_init_cases | split; vm_compute; reflexivity]].
  split.
  - intros H. apply Birthday_init_inv in H. destruct H as [_ [d Hd]].
    exists d. apply strptime_dmY_spec, Hd.
  - intros [d Hd]. apply strptime_dmY_spec in Hd.
    unfold Birthday_init. rewrite Hd. reflexivity.
Qed.

(** C2, as stated, fails: a day and a month of one digit are accepted,
    so the text need not be DD.MM.YYYY, which has ten characters. *)
Lemma Birthday_init_accepts_short_fields :
  Birthday_init (lit "1.2.2020") = Ok (mkBirthday (lit "1.2.2020"))
  /\ Birthday_date_obj (mkBirthday (lit "1.2.2020")) = Ok (Date.mk 2020 2 1)
  /\ length (lit "1.2.2020") = 8%nat.
Proof. vm_compute. repeat split; reflexivity. Qed.

(** ** The handlers [add] and [change] *)

Lemma dict_set_new {V : Type} (k : str) (v : V) (d : list (str * V)) :
  dict_get k d = None -> dict_set k v d = d ++ [(k, v)].
Proof.
  induction d as [|[k' v'] d IH]; simpl; [reflexivity|].
  destruct (bool_decide_reflect (k' = k)) as [Hk|Hk]; [discriminate|].
  intros H. rewrite IH by assumption. reflexivity.
Qed.

Lemma Name_init_ok (nm : str) : nm <> [] -> Name_init nm = Ok (mkName nm).
Proof. destruct nm; [congruence | reflexivity]. Qed.

(** C4: called with a non-empty name that the book does not know and a phone
    that fails validation, the handler [add] returns the validation message,
    not "Contact added.", and leaves in the book a new record for the name
    with no phone. *)
Theorem add_contact_invalid_phone (w : world) (nm phone : str) :
  nm <> [] ->
  dict_get nm (data w) = None ->
  Phone_init phone <> Ok (mkPhone phone) ->
  add_contact [nm; phone] w
  = (lit "Phone must contain exactly 10 digits", with_new_record w nm)
  /\ fst (add_contact [nm; phone] w) <> lit "Contact added."
  /\ dict_get nm (data (with_new_record w nm)) = Some (length (heap w))
  /\ heap (with_new_record w nm) !! length (heap w)
     = Some (mkRecord (mkName nm) [] None).
Proof.
  intros Hnm Hnew Hbad.
  assert (Phone_init phone = Raise Phone_error) as Hp.
  { destruct (Phone_init_cases phone); [contradiction | assumption]. }
  assert (add_contact [nm; phone] w
          = (lit "Phone must contain exactly 10 digits", with_new_record w nm))
    as Heq.
  { unfold add_contact, input_error, add_contact_func, AddressBook_find,
      Record_init, AddressBook_add_record, Record_add_phone.
    run_method. rewrite Hnew, (Name_init_ok _ Hnm). simpl.
    rewrite lookup_app_r by reflexivity.
    rewrite Nat.sub_diag. simpl. rewrite Hp. simpl.
    rewrite (dict_set_new _ _ _ Hnew). reflexivity. }
  split; [exact Heq|].
  split; [rewrite Heq; simpl; vm_compute; discriminate|].
  split.
  - simpl. rewrite <- (dict_set_new _ _ _ Hnew). apply dict_get_set_eq.
  - simpl. rewrite lookup_app_r by reflexivity.
    rewrite Nat.sub_diag. reflexivity.
Qed.

Lemma add_contact_invalid_phone_witness :
  add_contact [lit "bob"; lit "12"] sample_world
  = (lit "Phone must contain exactly 10 digits",
     with_new_record sample_world (lit "bob")).
Proof.
  apply (add_contact_invalid_phone sample_world (lit "bob") (lit "12")).
  - discriminate.
  - vm_compute. reflexivity.
  - vm_compute. discriminate.
Defined.

(** C5: with three arguments the handler [change] answers "Contact not
    found." when the book has no record for the name; when it has one, it
    answers "Phone {old} not found" if no phone of the record has the value
    [old], and "Phone updated." if [edit_phone] succeeds, as it does when a
    phone has the value [old] and [new] is valid, the first such phone
    being replaced; and for every argument list the handler returns a
    text, whatever the function it wraps raised. *)
Theorem change_contact_spec (w : world) (nm old_phone new_phone : str) :
  (dict_get nm (data w) = None ->
   change_contact [nm; old_phone; new_phone] w = (lit "Contact not found.", w))
  /\ (forall rec r,
        dict_get nm (data w) = Some rec -> heap w !! rec = Some r ->
        (List.Forall (fun ph => phone_value ph <> old_phone) (phones r) ->
         change_contact [nm; old_phone; new_phone] w
         = (lit "Phone " ++ old_phone ++ lit " not found", w))
        /\ (fst (Record_edit_phone rec old_phone new_phone w) = Ok tt ->
            change_contact [nm; old_phone; new_phone] w
            = (lit "Phone updated.",
               snd (Record_edit_phone rec old_phone new_phone w)))
        /\ (forall ps1 x ps2,
              phones r = ps1 ++ x :: ps2 -> phone_value x = old_phone ->
              List.Forall (fun ph => phone_value ph <> old_phone) ps1 ->
              Phone_init new_phone = Ok (mkPhone new_phone) ->
              change_contact [nm; old_phone; new_phone] w
              = (lit "Phone updated.",
                 with_phones w rec r (ps1 ++ mkPhone new_phone :: ps2))))
  /\ (forall args, exists text w',
        change_contact args w = (text, w')
        /\ (forall e, fst (change_contact_func args w) = Raise e ->
                      text <> [])).
Proof.
  assert (forall rec,
            dict_get nm (data w) = Some rec ->
            fst (Record_edit_phone rec old_phone new_phone w) = Ok tt ->
            change_contact [nm; old_phone; new_phone] w
            = (lit "Phone updated.",
               snd (Record_edit_phone rec old_phone new_phone w))) as Hupd.
  { intros rec Hrec Hok.
    unfold change_contact, input_error, change_contact_func,
      AddressBook_find. run_method. rewrite Hrec. simpl.
    destruct (Record_edit_phone rec old_phone new_phone w) as [[[]|e] w'];
      simpl in *; [reflexivity | discriminate]. }
  split; [|split].
  - intros Hnone. unfold change_contact, input_error, change_contact_func,
      AddressBook_find. run_method. rewrite Hnone. reflexivity.
  - intros rec r Hrec Hr. split; [|split].
    + intros Hno.
      unfold change_contact, input_error, change_contact_func,
        AddressBook_find. run_method. rewrite Hrec. simpl.
      rewrite (Record_edit_phone_not_found w rec r old_phone new_phone Hr Hno).
      reflexivity.
    + apply Hupd, Hrec.
    + intros ps1 x ps2 Hsplit Hx Hps1 Hnew.
      pose proof (Record_edit_phone_first w rec r old_phone new_phone
                    ps1 x ps2 Hr Hsplit Hx Hps1) as Heq.
      rewrite Hnew in Heq. rewrite (Hupd rec Hrec); rewrite Heq; reflexivity.
  - intros args.
    exists (fst (change_contact args w)), (snd (change_contact args w)).
    split; [destruct (change_contact args w); reflexivity|].
    intros e He. unfold change_contact, input_error.
    destruct (change_contact_func args w) as [[s|e'] w']; simpl in *;
      [discriminate|].
    destruct e' as [[|c m]|m|m|m]; simpl; discriminate.
Qed.

Lemma change_contact_spec_witness :
  change_contact [lit "bob"; lit "123"; lit "456"] empty_world
  = (lit "Contact not found.", empty_world)
  /\ change_contact [lit "alice"; lit "123"; lit "456"] sample_world
     = (lit "Phone 123 not found", sample_world)
  /\ fst (change_contact [lit "alice"; lit "1234567890"; lit "5555555555"]
            sample_world)
     = lit "Phone updated.".
Proof.
  split; [|split].
  - apply (change_contact_spec empty_world (lit "bob") (lit "123") (lit "456")).
    reflexivity.
  - destruct (change_contact_spec sample_world (lit "alice") (lit "123")
                (lit "456")) as (_ & H & _).
    destruct (H 0%nat sample_record eq_refl eq_refl) as (Hnf & _).
    apply Hnf. repeat constructor; vm_compute; discriminate.
  - destruct (change_contact_spec sample_world (lit "alice")
                (lit "1234567890") (lit "5555555555")) as (_ & H & _).
    destruct (H 0%nat sample_record eq_refl eq_refl) as (_ & Hok & _).
    rewrite Hok; [reflexivity|]. vm_compute. reflexivity.
Defined.

(** ** The scenarios of the specification *)

Example add_then_update_then_phone :
  let w0 := empty_world in
  let r1 := add_contact [lit "alice"; lit "1234567890"] w0 in
  let r2 := add_contact [lit "alice"; lit "0987654321"] (snd r1) in
  fst r1 = lit "Contact added."
  /\ fst r2 = lit "Contact updated."
  /\ fst (show_phone [lit "alice"] (snd r2)) = lit "1234567890; 0987654321".
Proof. vm_compute. repeat split; reflexivity. Qed.

Example change_unknown_contact :
  fst (change_contact [lit "bob"; lit "123"; lit "456"] empty_world)
  = lit "Contact not found.".
Proof. reflexivity. Qed.

Example birthdays_without_birthdays :
  fst (birthdays (Date.mk 2024 6 7) [] sample_world)
  = lit "No upcoming birthdays.".
Proof. vm_compute. reflexivity. Qed.

Example show_phone_unknown_contact :
  fst (show_phone [lit "ghost"] empty_world)
  = lit "No phones found for this contact.".
Proof. reflexivity. Qed.

Example birthdays_sunday_moved_to_monday :
  fst (birthdays (Date.mk 2024 6 7) [] june_world) = lit "alice: 10.06.2024".
Proof. vm_compute. reflexivity. Qed.

Example wrong_number_of_arguments :
  fst (add_contact [lit "alice"] empty_world)
  = lit "not enough values to unpack (expected 2, got 1)".
Proof. vm_compute. reflexivity. Qed.

Example show_all_renders_the_book :
  show_all (snd (add_birthday [lit "alice"; lit "09.06.2020"] sample_world))
  = lit "Contact name: alice, phones: 1234567890; 0987654321, birthday: 09.06.2020"
  /\ show_all empty_world = lit "Address book is empty".
Proof. vm_compute. split; reflexivity. Qed.

(** * Further properties of the program *)

(** ** The data model holds in every world *)

Lemma maintains_bind (P : world -> Prop) {A B : Type} (c : M A)
    (k : A -> M B) :
  maintains P c -> (forall a, maintains P (k a)) -> maintains P (bind c k).
Proof.
  intros Hc Hk w Hw. unfold bind. specialize (Hc w Hw).
  destruct (c w) as [[a|e] w']; simpl in *; [apply Hk, Hc | exact Hc].
Qed.

Lemma maintains_pure (P : world -> Prop) {A : Type} (c : M A) :
  (forall w, snd (c w) = w) -> maintains P c.
Proof. intros H w Hw. rewrite H. exact Hw. Qed.

Lemma load_world l w : snd (load l w) = w.
Proof. unfold load. destruct (heap w !! l); reflexivity. Qed.

Lemma attr_of_world found attr w : snd (attr_of found attr w) = w.
Proof. destruct found; reflexivity. Qed.

(** What the five methods that write keep, every handler keeps. *)
Lemma run_command_maintains (P : world -> Prop) :
  (forall nm, maintains P (Record_init nm)) ->
  (forall self p, maintains P (Record_add_phone self p)) ->
  (forall self o n, maintains P (Record_edit_phone self o n)) ->
  (forall self b, maintains P (Record_add_birthday self b)) ->
  (forall rec, maintains P (AddressBook_add_record rec)) ->
  forall c w, P w -> P (snd (run_command c w)).
Proof.
  intros Hinit Hadd Hedit Hbday Hrec c w Hw.
  destruct c; simpl;
    unfold add_contact, change_contact, show_phone, add_birthday,
      show_birthday, birthdays;
    rewrite ?input_error_world; try exact Hw; revert w Hw.
  - unfold add_contact_func.
    apply maintains_bind; [apply maintains_pure; reflexivity|]. intros np.
    apply maintains_bind; [apply maintains_pure; reflexivity|]. intros found.
    apply maintains_bind.
    + destruct found; [apply maintains_pure; reflexivity|].
      apply maintains_bind; [apply Hinit|]. intros rec.
      apply maintains_bind; [apply Hrec|]. intros _.
      apply maintains_pure; reflexivity.
    + intros rm. apply maintains_bind; [apply Hadd|]. intros _.
      apply maintains_pure; reflexivity.
  - unfold change_contact_func.
    apply maintains_bind; [apply maintains_pure; reflexivity|]. intros a.
    apply maintains_bind; [apply maintains_pure; reflexivity|]. intros found.
    apply maintains_bind; [apply maintains_pure, attr_of_world|]. intros rec.
    apply maintains_bind; [apply Hedit|]. intros _.
    apply maintains_pure; reflexivity.
  - unfold show_phone_func.
    apply maintains_bind; [apply maintains_pure; reflexivity|]. intros nm.
    apply maintains_bind; [apply maintains_pure; reflexivity|]. intros found.
    destruct found; [|apply maintains_pure; reflexivity].
    apply maintains_bind; [apply maintains_pure, load_world|]. intros r.
    destruct (phones r); apply maintains_pure; reflexivity.
  - unfold add_birthday_func.
    apply maintains_bind; [apply maintains_pure; reflexivity|]. intros nb.
    apply maintains_bind; [apply maintains_pure; reflexivity|]. intros found.
    apply maintains_bind; [apply maintains_pure, attr_of_world|]. intros rec.
    apply maintains_bind; [apply Hbday|]. intros _.
    apply maintains_pure; reflexivity.
  - unfold show_birthday_func.
    apply maintains_bind; [apply maintains_pure; reflexivity|]. intros nm.
    apply maintains_bind; [apply maintains_pure; reflexivity|]. intros found.
    destruct found; [|apply maintains_pure; reflexivity].
    apply maintains_bind; [apply maintains_pure, load_world|]. intros r.
    destruct (birthday r); apply maintains_pure; reflexivity.
  - unfold birthdays_func.
    apply maintains_bind;
      [apply maintains_pure, AddressBook_get_upcoming_birthdays_world|].
    intros up. destruct up; apply maintains_pure; reflexivity.
Qed.

Lemma heap_valid_lookup w l r : heap_valid w -> heap w !! l = Some r -> record_valid r.
Proof.
  intros Hw Hr. unfold heap_valid in Hw. rewrite List.Forall_forall in Hw.
  apply Hw, list_elem_of_In, list_elem_of_lookup. eauto.
Qed.

Lemma heap_valid_store w self r r' :
  heap w !! self = Some r -> record_valid r' -> heap_valid w ->
  heap_valid (mkWorld (<[self := r']> (heap w)) (data w)).
Proof.
  intros Hr Hv Hw. unfold heap_valid in *. simpl.
  rewrite List.Forall_forall in *. intros x Hx.
  apply list_elem_of_In, list_elem_of_lookup in Hx. destruct Hx as [i Hi].
  destruct (decide (self = i)) as [->|Hne].
  - rewrite list_lookup_insert_eq in Hi
      by (apply lookup_lt_Some in Hr; exact Hr).
    injection Hi as <-. exact Hv.
  - rewrite list_lookup_insert_ne in Hi by assumption.
    apply Hw, list_elem_of_In, list_elem_of_lookup. eauto.
Qed.

Lemma Phone_init_self p ph : Phone_init p = Ok ph -> Phone_init (phone_value ph) = Ok ph.
Proof.
  intros H. pose proof (Phone_init_value p ph H) as ->. exact H.
Qed.

Lemma list_remove_Forall (P : Phone -> Prop) x l l' :
  list_remove x l = Ok l' -> List.Forall P l -> List.Forall P l'.
Proof.
  revert l'. induction l as [|y l IH]; intros l'; simpl; [discriminate|].
  destruct (bool_decide (y = x)).
  - intros [= <-] H. inversion H; assumption.
  - destruct (list_remove x l) as [l''|]; [|discriminate].
    intros [= <-] H. inversion H; subst. constructor; auto.
Qed.

Lemma Forall_list_insert {A : Type} (P : A -> Prop) (l : list A) i x :
  List.Forall P l -> P x -> List.Forall P (<[i := x]> l).
Proof.
  intros Hl Hx. revert i. induction Hl as [|y l Hy Hl IH]; intros i.
  - constructor.
  - destruct i; simpl; constructor; auto.
Qed.

Lemma Record_init_valid nm : maintains heap_valid (Record_init nm).
Proof.
  intros w Hw. unfold Record_init. run_method.
  destruct nm as [|c nm]; simpl; [exact Hw|].
  unfold heap_valid. simpl. apply List.Forall_app. split; [exact Hw|].
  constructor; [|constructor].
  split; [discriminate|]. split; [constructor | left; reflexivity].
Qed.

Lemma Record_add_phone_valid self p : maintains heap_valid (Record_add_phone self p).
Proof.
  intros w Hw. unfold Record_add_phone. run_method.
  destruct (Phone_init p) as [ph|] eqn:Hp; simpl; [|exact Hw].
  destruct (heap w !! self) as [r|] eqn:H; simpl; [|exact Hw].
  destruct (heap_valid_lookup w self r Hw H) as (Hn & Hps & Hb).
  eapply heap_valid_store; [exact H | | exact Hw].
  split; [exact Hn|]. split; [|exact Hb]. simpl.
  apply List.Forall_app. split; [exact Hps|].
  constructor; [|constructor]. eapply Phone_init_self, Hp.
Qed.

Lemma Record_remove_phone_valid self p :
  maintains heap_valid (Record_remove_phone self p).
Proof.
  intros w Hw. unfold Record_remove_phone, Record_find_phone. run_method.
  destruct (heap w !! self) as [r|] eqn:H; simpl; [|exact Hw].
  destruct (find_phone_in p (phones r)) as [ph|]; simpl; [|exact Hw].
  rewrite H.
  destruct (list_remove ph (phones r)) as [l|] eqn:Hl; simpl; [|exact Hw].
  destruct (heap_valid_lookup w self r Hw H) as (Hn & Hps & Hb).
  eapply heap_valid_store; [exact H | | exact Hw].
  split; [exact Hn|]. split; [|exact Hb]. simpl.
  eapply list_remove_Forall; eassumption.
Qed.

Lemma Record_edit_phone_valid self o n :
  maintains heap_valid (Record_edit_phone self o n).
Proof.
  intros w Hw. unfold Record_edit_phone, Record_find_phone. run_method.
  destruct (heap w !! self) as [r|] eqn:H; simpl; [|exact Hw].
  destruct (find_phone_in o (phones r)) as [ph|]; simpl; [|exact Hw].
  destruct (Phone_init n) as [np|] eqn:Hp; simpl; [|exact Hw].
  rewrite H.
  destruct (list_index ph (phones r)); simpl; [|exact Hw].
  destruct (heap_valid_lookup w self r Hw H) as (Hn & Hps & Hb).
  eapply heap_valid_store; [exact H | | exact Hw].
  split; [exact Hn|]. split; [|exact Hb]. simpl.
  apply Forall_list_insert; [exact Hps|]. eapply Phone_init_self, Hp.
Qed.

Lemma Record_add_birthday_valid self b :
  maintains heap_valid (Record_add_birthday self b).
Proof.
  intros w Hw. unfold Record_add_birthday. run_method.
  destruct (Birthday_init b) as [bd|] eqn:Hb; simpl; [|exact Hw].
  destruct (heap w !! self) as [r|] eqn:H; simpl; [|exact Hw].
  destruct (heap_valid_lookup w self r Hw H) as (Hn & Hps & _).
  eapply heap_valid_store; [exact H | | exact Hw].
  split; [exact Hn|]. split; [exact Hps|].
  right. apply Birthday_init_inv in Hb. destruct Hb as [-> [d Hd]].
  exists d. unfold birthday_date, Birthday_date_obj. simpl. rewrite Hd.
  reflexivity.
Qed.

Lemma AddressBook_add_record_valid rec :
  maintains heap_valid (AddressBook_add_record rec).
Proof.
  intros w Hw. unfold AddressBook_add_record. run_method.
  destruct (heap w !! rec); exact Hw.
Qed.

Lemma run_command_valid c w : heap_valid w -> heap_valid (snd (run_command c w)).
Proof.
  apply run_command_maintains.
  - apply Record_init_valid.
  - apply Record_add_phone_valid.
  - apply Record_edit_phone_valid.
  - apply Record_add_birthday_valid.
  - apply AddressBook_add_record_valid.
Qed.

Lemma run_commands_valid cs w : heap_valid w -> heap_valid (run_commands cs w).
Proof.
  revert w. induction cs as [|c cs IH]; intros w Hw; simpl; [exact Hw|].
  apply IH, run_command_valid, Hw.
Qed.

Lemma book_records_in w r :
  In r (book_records w) -> exists l, heap w !! l = Some r.
Proof.
  unfold book_records. intros H. apply list_elem_of_In in H.
  apply list_elem_of_omap in H. destruct H as (l & _ & Hl). eauto.
Qed.

(** X1: in every world the handlers can reach from the empty book, every
    record of the book has a non-empty name, only phones of ten digits (a
    failed command never leaves an invalid phone behind) and, when set, a
    birthday that is a real date; and no name is listed twice. *)
Theorem reachable_records_valid (w : world) :
  reachable w ->
  unique_keys w
  /\ forall r, In r (book_records w) ->
       name_value (name r) <> []
       /\ List.Forall
            (fun ph => length (phone_value ph) = 10%nat
                       /\ List.Forall (fun c => isdigit_char c = true)
                            (phone_value ph))
            (phones r)
       /\ (birthday r = None
           \/ exists b d, birthday r = Some b
                          /\ Birthday_date_obj b = Ok d /\ Date.valid d).
Proof.
  intros Hreach. pose proof (reachable_inv w Hreach) as (_ & Hu & _).
  split; [exact Hu|]. intros r Hin.
  destruct Hreach as [cs ->].
  assert (heap_valid (run_commands cs empty_world)) as Hv
    by (apply run_commands_valid; constructor).
  apply book_records_in in Hin. destruct Hin as [l Hl].
  destruct (heap_valid_lookup _ l r Hv Hl) as (Hn & Hps & Hb).
  split; [exact Hn|]. split.
  - eapply List.Forall_impl; [|exact Hps]. intros ph Hph. simpl in Hph.
    destruct ph as [v]. simpl in *. apply Phone_init_ok in Hph. exact Hph.
  - destruct Hb as [Hb|[d Hd]]; [left; exact Hb|]. right.
    unfold birthday_date in Hd. destruct (birthday r) as [b|]; [|discriminate].
    destruct (Birthday_date_obj b) as [d'|] eqn:Hd'; [|discriminate].
    exists b, d'. split; [reflexivity|]. split; [exact Hd'|].
    apply strptime_dmY_spec in Hd'. apply Hd'.
Qed.

Lemma reachable_records_valid_witness :
  unique_keys leap_day_world
  /\ forall r, In r (book_records leap_day_world) -> name_value (name r) <> [].
Proof.
  destruct (reachable_records_valid leap_day_world) as [Hu Hr].
  - exists leap_day_commands. reflexivity.
  - split; [exact Hu|]. intros r Hin. apply (Hr r Hin).
Defined.

(** ** [parse_input] and the loop of [main] *)

Lemma split_from_tokens (cur s : str) :
  List.Forall (fun c => isspace_char c = false) cur ->
  List.Forall token (split_from cur s).
Proof.
  revert cur. induction s as [|c s IH]; intros cur Hcur; simpl.
  - destruct cur as [|c0 cur]; [constructor|].
    constructor; [|constructor]. split; [discriminate | exact Hcur].
  - destruct (isspace_char c) eqn:Hc.
    + destruct cur as [|c0 cur]; [apply IH; constructor|].
      constructor; [|apply IH; constructor].
      split; [discriminate | exact Hcur].
    + apply IH. apply List.Forall_app. split; [exact Hcur|].
      constructor; [exact Hc | constructor].
Qed.

Lemma split_from_not_nil (cur s : str) :
  cur <> [] \/ List.Exists (fun c => isspace_char c = false) s ->
  split_from cur s <> [].
Proof.
  revert cur. induction s as [|c s IH]; intros cur H; simpl.
  - destruct H as [H|H]; [|inversion H].
    destruct cur; [congruence | discriminate].
  - destruct (isspace_char c) eqn:Hc.
    + destruct cur as [|c0 cur]; [|discriminate].
      apply IH. destruct H as [H|H]; [congruence|].
      inversion H; subst; [congruence | right; assumption].
    + apply IH. left. destruct cur; discriminate.
Qed.

Lemma str_lstrip_not_nil (s : str) :
  str_lstrip s <> [] -> List.Exists (fun c => isspace_char c = false) s.
Proof.
  induction s as [|c s IH]; simpl; [congruence|].
  destruct (isspace_char c) eqn:Hc.
  - intros H. right. apply IH, H.
  - intros _. left. exact Hc.
Qed.

Lemma str_strip_not_nil (s : str) :
  str_strip s <> [] -> List.Exists (fun c => isspace_char c = false) s.
Proof.
  intros H. apply str_lstrip_not_nil. intros Hl. apply H.
  unfold str_strip. rewrite Hl. reflexivity.
Qed.

Lemma str_lstrip_token (t : str) : token t -> str_lstrip t = t.
Proof.
  intros [Hne Hall]. destruct t as [|c t]; [congruence|].
  inversion Hall as [|? ? Hc _]; subst. simpl. rewrite Hc. reflexivity.
Qed.

(** Stripping a token changes nothing. *)
Lemma str_strip_token (t : str) : token t -> str_strip t = t.
Proof.
  intros Ht. unfold str_strip, str_rstrip. rewrite (str_lstrip_token t Ht).
  rewrite str_lstrip_token; [apply rev_involutive|].
  destruct Ht as [Hne Hall]. split.
  - intros Hrev. apply Hne. rewrite <- (rev_involutive t), Hrev. reflexivity.
  - apply List.Forall_forall. intros c Hc.
    rewrite List.Forall_forall in Hall. apply Hall, List.in_rev, Hc.
Qed.

Lemma str_lstrip_blank (s : str) :
  List.Forall (fun c => isspace_char c = true) s -> str_lstrip s = [].
Proof.
  induction 1 as [|c s Hc _ IH]; simpl; [reflexivity|].
  rewrite Hc. exact IH.
Qed.

Lemma str_lstrip_nil (s : str) :
  str_lstrip s = [] -> List.Forall (fun c => isspace_char c = true) s.
Proof.
  induction s as [|c s IH]; simpl; [constructor|].
  destruct (isspace_char c) eqn:Hc; [|discriminate].
  intros H. constructor; [exact Hc | apply IH, H].
Qed.

Lemma str_lstrip_head (s : str) c l :
  str_lstrip s = c :: l -> isspace_char c = false.
Proof.
  induction s as [|c0 s IH]; simpl; [discriminate|].
  destruct (isspace_char c0) eqn:Hc; [exact IH|].
  intros [= -> _]. exact Hc.
Qed.

(** Only a line of whitespace is stripped to nothing. *)
Lemma str_strip_nil (s : str) :
  str_strip s = [] <-> List.Forall (fun c => isspace_char c = true) s.
Proof.
  split.
  - unfold str_strip, str_rstrip. intros H.
    destruct (str_lstrip s) as [|c l] eqn:Hl; [apply str_lstrip_nil, Hl|].
    exfalso. apply str_lstrip_head in Hl.
    assert (str_lstrip (List.rev (c :: l)) = []) as Hr.
    { rewrite <- (rev_involutive (str_lstrip (List.rev (c :: l)))), H.
      reflexivity. }
    apply str_lstrip_nil in Hr. rewrite List.Forall_forall in Hr.
    rewrite (Hr c) in Hl; [discriminate|].
    apply List.in_rev. rewrite rev_involutive. left. reflexivity.
  - intros H. unfold str_strip, str_rstrip.
    rewrite (str_lstrip_blank s H). reflexivity.
Qed.

Lemma blank_or_not (s : str) :
  List.Forall (fun c => isspace_char c = true) s
  \/ List.Exists (fun c => isspace_char c = false) s.
Proof.
  induction s as [|c s [IH|IH]].
  - left. constructor.
  - destruct (isspace_char c) eqn:Hc.
    + left. constructor; assumption.
    + right. left. exact Hc.
  - right. right. exact IH.
Qed.

Lemma blank_and_not (s : str) :
  List.Forall (fun c => isspace_char c = true) s ->
  List.Exists (fun c => isspace_char c = false) s -> False.
Proof.
  intros Hall Hex. apply List.Exists_exists in Hex.
  destruct Hex as (c & Hin & Hc). rewrite List.Forall_forall in Hall.
  rewrite (Hall c Hin) in Hc. discriminate.
Qed.

Lemma parse_input_blank (lower : str -> str) (s : str) :
  List.Forall (fun c => isspace_char c = true) s ->
  parse_input lower s = Some ([], []).
Proof.
  intros H. unfold parse_input. destruct s as [|c s']; [reflexivity|].
  apply str_strip_nil in H. rewrite H. reflexivity.
Qed.

Lemma parse_input_words (lower : str -> str) (s : str) :
  List.Exists (fun c => isspace_char c = false) s ->
  exists p args,
    str_split s = p :: args /\ List.Forall token (p :: args)
    /\ parse_input lower s = Some (lower p, args).
Proof.
  intros Hex.
  pose proof (split_from_tokens [] s (List.Forall_nil _)) as Htok.
  pose proof (split_from_not_nil [] s (or_intror Hex)) as Hne.
  fold (str_split s) in Htok, Hne.
  destruct (str_split s) as [|p args] eqn:Hsplit; [congruence|].
  exists p, args. split; [reflexivity|]. split; [exact Htok|].
  unfold parse_input. destruct s as [|c s'] eqn:Hs; [inversion Hex|].
  rewrite <- Hs in *.
  destruct (str_strip s) as [|c1 s1] eqn:Hstrip.
  - exfalso. apply str_strip_nil in Hstrip.
    exact (blank_and_not s Hstrip Hex).
  - rewrite Hsplit. inversion Htok; subst.
    rewrite str_strip_token by assumption. reflexivity.
Qed.

(** X2: [parse_input] always returns, the [IndexError] of [parts[0]] never
    occurs: for an empty line and for a line of whitespace it returns the
    empty command and no arguments; for any other line the command is the
    first token of the line in lower case and the arguments are the tokens
    after it; and every argument is a token, not empty and without
    whitespace. *)
Theorem parse_input_tokens (lower : str -> str) (user_input : str) :
  exists command args,
    parse_input lower user_input = Some (command, args)
    /\ List.Forall token args
    /\ (List.Forall (fun c => isspace_char c = true) user_input ->
        command = [] /\ args = [])
    /\ (List.Exists (fun c => isspace_char c = false) user_input ->
        exists p, str_split user_input = p :: args /\ token p
                  /\ command = lower p).
Proof.
  destruct (blank_or_not user_input) as [Hb|Hw].
  - exists [], []. split; [apply parse_input_blank, Hb|].
    split; [constructor|]. split; [auto|].
    intros Hex. exfalso. exact (blank_and_not _ Hb Hex).
  - destruct (parse_input_words lower user_input Hw)
      as (p & args & Hsplit & Htok & Hparse).
    exists (lower p), args. split; [exact Hparse|].
    pose proof (List.Forall_inv Htok) as Hp.
    pose proof (List.Forall_inv_tail Htok) as Hargs.
    split; [exact Hargs|]. split.
    + intros Hb. exfalso. exact (blank_and_not _ Hb Hw).
    + intros _. exists p. split; [exact Hsplit|].
      split; [exact Hp | reflexivity].
Qed.

(** ** Adding and showing phones and birthdays *)

Lemma add_contact_new_valid (w : world) (nm ph : str) :
  nm <> [] -> dict_get nm (data w) = None ->
  Phone_init ph = Ok (mkPhone ph) ->
  add_contact [nm; ph] w = (lit "Contact added.", with_new_contact w nm ph).
Proof.
  intros Hnm Hnew Hp.
  unfold add_contact, input_error, add_contact_func, AddressBook_find,
    Record_init, AddressBook_add_record, Record_add_phone.
  run_method. rewrite Hnew, (Name_init_ok _ Hnm). simpl.
  rewrite lookup_app_r by reflexivity.
  rewrite Nat.sub_diag. simpl. rewrite Hp. simpl.
  rewrite lookup_app_r by reflexivity. rewrite Nat.sub_diag. simpl.
  rewrite (dict_set_new _ _ _ Hnew).
  rewrite (insert_at_split (heap w) [] _ _). reflexivity.
Qed.

Lemma add_contact_existing (w : world) (nm ph : str) (rec : loc) (r : record) :
  dict_get nm (data w) = Some rec -> heap w !! rec = Some r ->
  add_contact [nm; ph] w
  = match Phone_init ph with
    | Ok p => (lit "Contact updated.", with_phones w rec r (phones r ++ [p]))
    | Raise _ => (lit "Phone must contain exactly 10 digits", w)
    end.
Proof.
  intros Hrec Hr.
  unfold add_contact, input_error, add_contact_func, AddressBook_find.
  unfold bind at 1 2 3. unfold lift at 1. simpl. rewrite Hrec.
  unfold ret at 1. simpl. unfold bind.
  rewrite (Record_add_phone_eq _ _ _ _ Hr).
  destruct (Phone_init_cases ph) as [H|H]; rewrite H; reflexivity.
Qed.

Lemma show_phone_known (w : world) (nm : str) (rec : loc) (r : record) :
  dict_get nm (data w) = Some rec -> heap w !! rec = Some r ->
  show_phone [nm] w
  = (match phones r with
     | [] => lit "No phones found for this contact."
     | _ => join (lit "; ") (List.map phone_value (phones r))
     end, w).
Proof.
  intros Hrec Hr.
  unfold show_phone, input_error, show_phone_func, AddressBook_find.
  run_method. rewrite Hrec. simpl. rewrite Hr.
  destruct (phones r); reflexivity.
Qed.

Lemma dict_get_app_new {V : Type} (k : str) (v : V) (d : list (str * V)) :
  dict_get k d = None -> dict_get k (d ++ [(k, v)]) = Some v.
Proof.
  intros H. rewrite <- (dict_set_new k v d H). apply dict_get_set_eq.
Qed.

(** X3: after a successful [add name phone] the handler [phone] shows the
    phone: for a new name the answer is "Contact added." and [phone name]
    shows that phone alone; for a known name the answer is "Contact
    updated." and [phone name] shows the earlier phones followed by the new
    one, joined by "; ". *)
Theorem add_contact_then_show_phone (w : world) (nm ph : str) :
  nm <> [] -> Phone_init ph = Ok (mkPhone ph) ->
  (dict_get nm (data w) = None ->
   fst (add_contact [nm; ph] w) = lit "Contact added."
   /\ fst (show_phone [nm] (snd (add_contact [nm; ph] w))) = ph)
  /\ (forall rec r,
        dict_get nm (data w) = Some rec -> heap w !! rec = Some r ->
        fst (add_contact [nm; ph] w) = lit "Contact updated."
        /\ fst (show_phone [nm] (snd (add_contact [nm; ph] w)))
           = join (lit "; ") (List.map phone_value (phones r) ++ [ph])).
Proof.
  intros Hnm Hp. split.
  - intros Hnew. rewrite (add_contact_new_valid w nm ph Hnm Hnew Hp).
    split; [reflexivity|]. simpl snd.
    rewrite (show_phone_known (with_new_contact w nm ph) nm (length (heap w))
               (mkRecord (mkName nm) [mkPhone ph] None)).
    + reflexivity.
    + simpl. apply dict_get_app_new, Hnew.
    + simpl. rewrite lookup_app_r by reflexivity.
      rewrite Nat.sub_diag. reflexivity.
  - intros rec r Hrec Hr. rewrite (add_contact_existing w nm ph rec r Hrec Hr).
    rewrite Hp. split; [reflexivity|]. simpl snd.
    rewrite (show_phone_known
               (with_phones w rec r (phones r ++ [mkPhone ph])) nm rec _ Hrec
               (with_phones_lookup w rec r _ Hr)).
    simpl. rewrite List.map_app. simpl.
    destruct (phones r); reflexivity.
Qed.

Lemma add_contact_then_show_phone_witness :
  fst (show_phone [lit "alice"]
         (snd (add_contact [lit "alice"; lit "5555555555"] sample_world)))
  = lit "1234567890; 0987654321; 5555555555".
Proof.
  destruct (add_contact_then_show_phone sample_world (lit "alice")
              (lit "5555555555")) as [_ H].
  - discriminate.
  - vm_compute. reflexivity.
  - destruct (H 0%nat sample_record eq_refl eq_refl) as [_ Hshow].
    rewrite Hshow. vm_compute. reflexivity.
Defined.

(** X4: when [add name phone] is given a phone that fails validation for a
    name the book knows, the answer is the validation message and the world
    is left exactly as it was. *)
Theorem add_contact_rejected_phone_known (w : world) (nm ph : str)
    (rec : loc) (r : record) :
  dict_get nm (data w) = Some rec -> heap w !! rec = Some r ->
  Phone_init ph <> Ok (mkPhone ph) ->
  add_contact [nm; ph] w = (lit "Phone must contain exactly 10 digits", w).
Proof.
  intros Hrec Hr Hbad. rewrite (add_contact_existing w nm ph rec r Hrec Hr).
  destruct (Phone_init_cases ph) as [H|H]; [contradiction|].
  rewrite H. reflexivity.
Qed.

Lemma add_contact_rejected_phone_known_witness :
  add_contact [lit "alice"; lit "12"] sample_world
  = (lit "Phone must contain exactly 10 digits", sample_world).
Proof.
  apply (add_contact_rejected_phone_known sample_world (lit "alice") (lit "12")
           0%nat sample_record).
  - reflexivity.
  - reflexivity.
  - vm_compute. discriminate.
Defined.

Lemma add_birthday_known (w : world) (nm b : str) (rec : loc) (r : record) :
  dict_get nm (data w) = Some rec -> heap w !! rec = Some r ->
  add_birthday [nm; b] w
  = match Birthday_init b with
    | Ok bd => (lit "Birthday added.", with_birthday w rec r bd)
    | Raise _ => (lit "Invalid date format. Use DD.MM.YYYY", w)
    end.
Proof.
  intros Hrec Hr.
  unfold add_birthday, input_error, add_birthday_func, AddressBook_find,
    Record_add_birthday.
  run_method. rewrite Hrec. simpl.
  destruct (Birthday_init_cases b) as [H|H]; rewrite H; simpl;
    [|reflexivity].
  rewrite Hr. reflexivity.
Qed.

Lemma show_birthday_known (w : world) (nm : str) (rec : loc) (r : record) :
  dict_get nm (data w) = Some rec -> heap w !! rec = Some r ->
  show_birthday [nm] w
  = (match birthday r with
     | Some b => birthday_value b
     | None => lit "No birthday set."
     end, w).
Proof.
  intros Hrec Hr.
  unfold show_birthday, input_error, show_birthday_func, AddressBook_find.
  run_method. rewrite Hrec. simpl. rewrite Hr.
  destruct (birthday r) as [b|]; [|reflexivity].
  destruct (birthday_value b) eqn:Hv; reflexivity.
Qed.

(** X5: [add-birthday name date] answers "Contact not found." and changes
    nothing when the book has no record for the name; for a known name and
    a date [Birthday] accepts it answers "Birthday added.", replaces
    whatever birthday the record had and keeps its phones, and
    [show-birthday name] then shows the date as it was typed; for a date
    [Birthday] rejects it answers the validation message and changes
    nothing. *)
Theorem add_birthday_then_show_birthday (w : world) (nm b : str) :
  (dict_get nm (data w) = None ->
   add_birthday [nm; b] w = (lit "Contact not found.", w))
  /\ (forall rec r,
        dict_get nm (data w) = Some rec -> heap w !! rec = Some r ->
        (Birthday_init b = Ok (mkBirthday b) ->
         add_birthday [nm; b] w
         = (lit "Birthday added.", with_birthday w rec r (mkBirthday b))
         /\ show_birthday [nm] (with_birthday w rec r (mkBirthday b))
            = (b, with_birthday w rec r (mkBirthday b)))
        /\ (Birthday_init b <> Ok (mkBirthday b) ->
            add_birthday [nm; b] w
            = (lit "Invalid date format. Use DD.MM.YYYY", w))).
Proof.
  split.
  - intros Hnone.
    unfold add_birthday, input_error, add_birthday_func, AddressBook_find.
    run_method. rewrite Hnone. reflexivity.
  - intros rec r Hrec Hr. rewrite (add_birthday_known w nm b rec r Hrec Hr).
    split.
    + intros Hb. rewrite Hb. split; [reflexivity|].
      rewrite (show_birthday_known (with_birthday w rec r (mkBirthday b)) nm
                 rec (mkRecord (name r) (phones r) (Some (mkBirthday b)))).
      * reflexivity.
      * exact Hrec.
      * simpl. apply list_lookup_insert_eq.
        apply lookup_lt_Some in Hr. exact Hr.
    + intros Hbad. destruct (Birthday_init_cases b) as [H|H];
        [contradiction|]. rewrite H. reflexivity.
Qed.

Lemma add_birthday_then_show_birthday_witness :
  add_birthday [lit "bob"; lit "01.01.2000"] sample_world
  = (lit "Contact not found.", sample_world)
  /\ fst (show_birthday [lit "alice"]
            (snd (add_birthday [lit "alice"; lit "01.01.2000"] sample_world)))
     = lit "01.01.2000".
Proof.
  destruct (add_birthday_then_show_birthday sample_world (lit "bob")
              (lit "01.01.2000")) as [Hunknown _].
  destruct (add_birthday_then_show_birthday sample_world (lit "alice")
              (lit "01.01.2000")) as [_ Hknown].
  split; [apply Hunknown; reflexivity|].
  destruct (Hknown 0%nat sample_record eq_refl eq_refl) as [Hok _].
  destruct Hok as [Hadd Hshow]; [vm_compute; reflexivity|].
  rewrite Hadd. simpl snd. rewrite Hshow. reflexivity.
Defined.

(** ** How the loop ends *)

Lemma reachable_step (c : command) (w : world) :
  reachable w -> reachable (snd (run_command c w)).
Proof.
  intros [cs ->]. exists (cs ++ [c]). unfold run_commands.
  rewrite List.fold_left_app. reflexivity.
Qed.

Lemma main_turn_total (lower : str -> str) today (s : str) (w : world) :
  exists t, main_turn lower today s w = Some t
            /\ (after t = w \/ exists c, after t = snd (run_command c w)).
Proof.
  unfold main_turn.
  assert (exists command args, parse_input lower s = Some (command, args))
    as (command & args & ->).
  { destruct (blank_or_not s) as [Hb|Hw'].
    - exists [], []. apply parse_input_blank, Hb.
    - destruct (parse_input_words lower s Hw') as (p & args & _ & _ & H).
      eauto. }
  eexists. split; [reflexivity|].
  repeat match goal with
         | |- context [if ?c then _ else _] => destruct c
         end; simpl; auto.
  - right. exists (CmdAdd args). reflexivity.
  - right. exists (CmdChange args). reflexivity.
  - right. exists (CmdPhone args). reflexivity.
  - right. exists (CmdAddBirthday args). reflexivity.
  - right. exists (CmdShowBirthday args). reflexivity.
  - right. exists (CmdBirthdays today args). reflexivity.
Qed.

Lemma main_turn_running (lower : str -> str) today (s : str) (w : world) t :
  main_turn lower today s w = Some t ->
  running t = negb (closes lower s)
  /\ (running t = false -> printed t = Some (lit "Good bye!")).
Proof.
  unfold main_turn, closes.
  destruct (parse_input lower s) as [[command args]|]; [|discriminate].
  intros [= <-].
  destruct (bool_decide (command = [])) eqn:Hnil.
  - apply bool_decide_eq_true in Hnil. subst command.
    split; [reflexivity | discriminate].
  - destruct (bool_decide (command = lit "close")
              || bool_decide (command = lit "exit")).
    + split; reflexivity.
    + split; [|simpl].
      * repeat match goal with
               | |- context [if ?c then _ else _] => destruct c
               end; reflexivity.
      * repeat match goal with
               | |- context [if ?c then _ else _] => destruct c
               end; discriminate.
Qed.

Lemma main_loop_total (lower : str -> str) (lines : list (Date.date * str)) :
  forall w, reachable w ->
  exists outs w' e,
    main_loop lower lines w = Some (outs, w', e) /\ reachable w'
    /\ (length outs <= length lines)%nat
    /\ e = (if existsb (fun l => closes lower (snd l)) lines
            then Farewell else EOFError_raised)
    /\ (e = Farewell -> exists outs', outs = outs' ++ [lit "Good bye!"]).
Proof.
  induction lines as [|[today s] lines IH]; intros w Hw; simpl.
  - exists [], w, EOFError_raised. split; [reflexivity|].
    split; [exact Hw|]. split; [simpl; lia|].
    split; [reflexivity | discriminate].
  - destruct (main_turn_total lower today s w) as (t & Ht & Hafter).
    destruct (main_turn_running lower today s w t Ht) as [Hrun Hbye].
    rewrite Ht.
    assert (reachable (after t)) as Hw'.
    { destruct Hafter as [->|[c ->]]; [exact Hw | apply reachable_step, Hw]. }
    assert (length (match printed t with Some x => [x] | None => [] end) <= 1)%nat
      as Hout by (destruct (printed t); simpl; lia).
    destruct (running t).
    + destruct (closes lower s); [discriminate|]. simpl.
      destruct (IH (after t) Hw') as (outs & w' & e & -> & Hr & Hlen & He & Hl).
      eexists. eexists. eexists. split; [reflexivity|]. split; [exact Hr|].
      split; [rewrite length_app; simpl in *; lia|].
      split; [exact He|].
      intros Hf. destruct (Hl Hf) as [outs' ->].
      eexists. rewrite app_assoc. reflexivity.
    + destruct (closes lower s); [|discriminate]. simpl.
      rewrite (Hbye eq_refl).
      eexists. eexists. eexists. split; [reflexivity|]. split; [exact Hw'|].
      split; [simpl; lia|].
      split; [reflexivity|]. intros _. exists []. reflexivity.
Qed.

Lemma main_loop_after_close (lower : str -> str)
    (before : list (Date.date * str)) (l : Date.date * str)
    (rest : list (Date.date * str)) :
  closes lower (snd l) = true ->
  forall w, main_loop lower (before ++ l :: rest) w
            = main_loop lower (before ++ [l]) w.
Proof.
  intros Hl. induction before as [|[today s] before IH]; intros w.
  - destruct l as [today s]. simpl in *.
    destruct (main_turn_total lower today s w) as (t & Ht & _).
    destruct (main_turn_running lower today s w t Ht) as [Hrun _].
    rewrite Ht, Hrun, Hl. reflexivity.
  - simpl. destruct (main_turn lower today s w) as [t|]; [|reflexivity].
    destruct (running t); [|reflexivity]. rewrite IH. reflexivity.
Qed.

(** X6: whatever lines are typed, [main] prints the greeting and then at
    most one text per line read, and no exception raised while a line is
    handled leaves it: it ends after "Good bye!" when one of the lines has
    the command "close" or "exit", and otherwise only by the [EOFError]
    that [input] raises when no line is left, which [main] does not catch.
    The book it ends with is one the handlers reach from the empty book, so
    that everything known of such books holds of it.  What is typed after
    a line with "close" or "exit" changes nothing. *)
Theorem main_ends_by_farewell_or_end_of_input (lower : str -> str) :
  (forall lines : list (Date.date * str),
   exists outs w e,
     main lower lines
     = Some (lit "Welcome to the assistant bot!" :: outs, w, e)
     /\ reachable w /\ (length outs <= length lines)%nat
     /\ e = (if existsb (fun l => closes lower (snd l)) lines
             then Farewell else EOFError_raised)
     /\ (e = Farewell -> exists outs', outs = outs' ++ [lit "Good bye!"]))
  /\ (forall before l rest,
        closes lower (snd l) = true ->
        main lower (before ++ l :: rest) = main lower (before ++ [l])).
Proof.
  split.
  - intros lines. unfold main.
    destruct (main_loop_total lower lines empty_world)
      as (outs & w & e & -> & H).
    + exists []. reflexivity.
    + exists outs, w, e. split; [reflexivity | exact H].
  - intros before l rest Hl. unfold main.
    rewrite (main_loop_after_close lower before l rest Hl). reflexivity.
Qed.

Lemma main_ends_by_farewell_or_end_of_input_witness :
  main (fun s => s)
    [(Date.mk 2024 6 7, lit "hello"); (Date.mk 2024 6 7, lit "exit");
     (Date.mk 2024 6 7, lit "add bob 1234567890")]
  = Some ([lit "Welcome to the assistant bot!"; lit "How can I help you?";
           lit "Good bye!"], empty_world, Farewell).
Proof.
  destruct (main_ends_by_farewell_or_end_of_input (fun s => s)) as [_ H].
  etransitivity.
  - apply (H [(Date.mk 2024 6 7, lit "hello")] (Date.mk 2024 6 7, lit "exit")
             [(Date.mk 2024 6 7, lit "add bob 1234567890")]).
    vm_compute. reflexivity.
  - vm_compute. reflexivity.
Defined.

Lemma split_from_blank (s : str) :
  List.Forall (fun c => isspace_char c = true) s -> split_from [] s = [].
Proof.
  induction 1 as [|c s Hc _ IH]; simpl; [reflexivity|].
  rewrite Hc. exact IH.
Qed.

Lemma add_contact_new_invalid (w : world) (nm ph : str) :
  nm <> [] -> dict_get nm (data w) = None ->
  Phone_init ph <> Ok (mkPhone ph) ->
  add_contact [nm; ph] w
  = (lit "Phone must contain exactly 10 digits", with_new_record w nm).
Proof.
  intros Hnm Hnew Hbad.
  assert (Phone_init ph = Raise Phone_error) as Hp.
  { destruct (Phone_init_cases ph); [contradiction | assumption]. }
  unfold add_contact, input_error, add_contact_func, AddressBook_find,
    Record_init, AddressBook_add_record, Record_add_phone.
  run_method. rewrite Hnew, (Name_init_ok _ Hnm). simpl.
  rewrite lookup_app_r by reflexivity.
  rewrite Nat.sub_diag. simpl. rewrite Hp. simpl.
  rewrite (dict_set_new _ _ _ Hnew). reflexivity.
Qed.

(** X7: a line made of a word that is [add] in lower case, a name the book
    does not know and a third word always leaves a record of that name in
    the book: the name, being a token of the line, is never empty, so
    [Name] never rejects it; the text printed is "Contact added." or, when
    the third word is no valid phone, the message of [Phone]. *)
Theorem main_turn_add_registers_name (lower : str -> str) today
    (user_input p nm ph : str) (w : world) :
  str_split user_input = [p; nm; ph] -> lower p = lit "add" ->
  dict_get nm (data w) = None ->
  exists t,
    main_turn lower today user_input w = Some t
    /\ running t = true
    /\ (printed t = Some (lit "Contact added.")
        \/ printed t = Some (lit "Phone must contain exactly 10 digits"))
    /\ exists rec r,
         dict_get nm (data (after t)) = Some rec
         /\ heap (after t) !! rec = Some r /\ name_value (name r) = nm.
Proof.
  intros Hsplit Hlower Hnew.
  assert (List.Exists (fun c => isspace_char c = false) user_input) as Hex.
  { destruct (blank_or_not user_input) as [Hb|Hex]; [|exact Hex].
    apply split_from_blank in Hb. unfold str_split in Hsplit.
    rewrite Hb in Hsplit. discriminate. }
  destruct (parse_input_words lower user_input Hex)
    as (p' & args & Hsplit' & Htok & Hparse).
  rewrite Hsplit in Hsplit'. injection Hsplit' as <- <-.
  assert (nm <> []) as Hnm.
  { apply List.Forall_inv_tail, List.Forall_inv in Htok. apply Htok. }
  unfold main_turn. rewrite Hparse, Hlower.
  rewrite (bool_decide_eq_false_2 (lit "add" = []))
    by (intros H; vm_compute in H; discriminate H).
  rewrite (bool_decide_eq_false_2 (lit "add" = lit "close"))
    by (intros H; vm_compute in H; discriminate H).
  rewrite (bool_decide_eq_false_2 (lit "add" = lit "exit"))
    by (intros H; vm_compute in H; discriminate H).
  rewrite (bool_decide_eq_false_2 (lit "add" = lit "hello"))
    by (intros H; vm_compute in H; discriminate H).
  rewrite (bool_decide_eq_true_2 (lit "add" = lit "add")) by reflexivity.
  cbn [orb]. eexists. split; [reflexivity|]. cbn [running printed after].
  split; [reflexivity|].
  destruct (Phone_init_cases ph) as [Hp|Hp].
  - rewrite (add_contact_new_valid w nm ph Hnm Hnew Hp). cbn [fst snd].
    split; [left; reflexivity|].
    exists (length (heap w)), (mkRecord (mkName nm) [mkPhone ph] None).
    split; [apply dict_get_app_new, Hnew|]. split; [|reflexivity].
    simpl. rewrite lookup_app_r by reflexivity.
    rewrite Nat.sub_diag. reflexivity.
  - rewrite (add_contact_new_invalid w nm ph Hnm Hnew) by congruence.
    cbn [fst snd]. split; [right; reflexivity|].
    exists (length (heap w)), (mkRecord (mkName nm) [] None).
    split; [apply dict_get_app_new, Hnew|]. split; [|reflexivity].
    simpl. rewrite lookup_app_r by reflexivity.
    rewrite Nat.sub_diag. reflexivity.
Qed.

Lemma main_turn_add_registers_name_witness :
  exists t,
    main_turn (fun s => s) (Date.mk 2024 6 7) (lit "add bob 12") sample_world
    = Some t
    /\ printed t = Some (lit "Phone must contain exactly 10 digits")
    /\ dict_get (lit "bob") (data (after t)) = Some 1%nat.
Proof.
  destruct (main_turn_add_registers_name (fun s => s) (Date.mk 2024 6 7)
              (lit "add bob 12") (lit "add") (lit "bob") (lit "12")
              sample_world) as (t & Ht & _ & _ & _).
  - vm_compute. reflexivity.
  - reflexivity.
  - vm_compute. reflexivity.
  - exists t. split; [exact Ht|].
    vm_compute in Ht. injection Ht as <-. split; reflexivity.
Defined.

(** ** Looking up, adding and deleting records *)

Lemma dict_get_del_eq {V : Type} (k : str) (d : list (str * V)) :
  NoDup (dict_keys d) -> dict_get k (dict_del k d) = None.
Proof.
  induction d as [|[k' v'] d IH]; simpl; [reflexivity|].
  intros Hd. apply NoDup_cons in Hd. destruct Hd as [Hk' Hd].
  destruct (bool_decide_reflect (k' = k)) as [Hk|Hk]; simpl.
  - subst k'. apply dict_get_none. rewrite list_elem_of_In in Hk'. exact Hk'.
  - rewrite bool_decide_eq_false_2 by assumption. apply IH, Hd.
Qed.

Lemma dict_get_del_ne {V : Type} (k k' : str) (d : list (str * V)) :
  k <> k' -> dict_get k' (dict_del k d) = dict_get k' d.
Proof.
  intros Hne. induction d as [|[k0 v0] d IH]; simpl; [reflexivity|].
  destruct (bool_decide_reflect (k0 = k)) as [Hk|Hk]; simpl.
  - subst k0. rewrite bool_decide_eq_false_2 by assumption. reflexivity.
  - rewrite IH. reflexivity.
Qed.

Lemma filter_absent (k : str) (l : list str) :
  ~ In k l -> List.filter (fun k' => negb (bool_decide (k' = k))) l = l.
Proof.
  induction l as [|a l IH]; simpl; [reflexivity|]. intros Hn.
  rewrite bool_decide_eq_false_2 by tauto. simpl. f_equal. apply IH. tauto.
Qed.

(** Deleting a key removes it from the listing and keeps the order of the
    other keys. *)
Lemma dict_keys_del {V : Type} (k : str) (d : list (str * V)) :
  NoDup (dict_keys d) ->
  dict_keys (dict_del k d)
  = List.filter (fun k' => negb (bool_decide (k' = k))) (dict_keys d).
Proof.
  induction d as [|[k' v'] d IH]; simpl; [reflexivity|].
  intros Hd. apply NoDup_cons in Hd. destruct Hd as [Hk' Hd].
  destruct (bool_decide_reflect (k' = k)) as [Hk|Hk]; simpl.
  - subst k'. symmetry. apply filter_absent.
    rewrite list_elem_of_In in Hk'. exact Hk'.
  - f_equal. apply IH, Hd.
Qed.

Lemma dict_del_absent {V : Type} (k : str) (d : list (str * V)) :
  dict_get k d = None -> dict_del k d = d.
Proof.
  induction d as [|[k' v'] d IH]; simpl; [reflexivity|].
  destruct (bool_decide_reflect (k' = k)) as [Hk|Hk]; [discriminate|].
  intros H. f_equal. apply IH, H.
Qed.

(** X8: [delete(name)] never raises; afterwards [find(name)] returns
    [None], every other name is found as before, the remaining names keep
    their order, no record object is touched, and deleting a name the book
    does not know changes nothing. *)
Theorem AddressBook_delete_spec (w : world) (nm : str) :
  unique_keys w ->
  let w' := snd (AddressBook_delete nm w) in
  fst (AddressBook_delete nm w) = Ok tt
  /\ fst (AddressBook_find nm w') = Ok None
  /\ (forall k, k <> nm ->
        fst (AddressBook_find k w') = fst (AddressBook_find k w))
  /\ dict_keys (data w')
     = List.filter (fun k' => negb (bool_decide (k' = nm)))
         (dict_keys (data w))
  /\ heap w' = heap w
  /\ (dict_get nm (data w) = None -> w' = w)
  /\ unique_keys w'.
Proof.
  intros Hu w'. unfold w', AddressBook_delete, AddressBook_find, dict_mem.
  destruct (dict_get nm (data w)) as [l|] eqn:Hg; simpl.
  - split; [reflexivity|]. split; [f_equal; apply dict_get_del_eq, Hu|].
    split.
    { intros k Hk. f_equal. apply dict_get_del_ne. congruence. }
    split; [apply dict_keys_del, Hu|]. split; [reflexivity|].
    split; [discriminate|]. unfold unique_keys. simpl.
    apply dict_del_unique, Hu.
  - split; [reflexivity|]. split; [f_equal; exact Hg|].
    split; [reflexivity|]. split.
    { symmetry. apply filter_absent. apply dict_get_none, Hg. }
    split; [reflexivity|]. split; [reflexivity | exact Hu].
Qed.

Lemma AddressBook_delete_spec_witness :
  let w' := snd (AddressBook_delete (lit "bob") leap_day_world) in
  fst (AddressBook_find (lit "bob") w') = Ok None
  /\ dict_keys (data w') = [lit "ann"].
Proof.
  destruct (AddressBook_delete_spec leap_day_world (lit "bob"))
    as (_ & Hfind & _ & Hkeys & _).
  - unfold unique_keys. apply (bool_decide_unpack _). vm_compute. exact I.
  - split; [exact Hfind|]. rewrite Hkeys. vm_compute. reflexivity.
Defined.

(** X9: after [add_record(record)] the record is found under its name,
    every other name is found as before, a name the book already had keeps
    its place in the listing while a new name goes to the end, and no
    record object is touched. *)
Theorem AddressBook_add_record_find (w : world) (rec : loc) (r : record) :
  heap w !! rec = Some r ->
  let nm := name_value (name r) in
  let w' := snd (AddressBook_add_record rec w) in
  fst (AddressBook_find nm w') = Ok (Some rec)
  /\ (forall k, k <> nm ->
        fst (AddressBook_find k w') = fst (AddressBook_find k w))
  /\ dict_keys (data w')
     = (if dict_mem nm (data w) then dict_keys (data w)
        else dict_keys (data w) ++ [nm])
  /\ heap w' = heap w.
Proof.
  intros Hr nm w'. unfold w'.
  rewrite (AddressBook_add_record_eq w rec r Hr). unfold AddressBook_find.
  simpl. fold nm.
  split; [f_equal; apply dict_get_set_eq|]. split.
  - intros k Hk. f_equal. apply dict_get_set_ne. congruence.
  - split; [apply dict_keys_set | reflexivity].
Qed.

Lemma AddressBook_add_record_find_witness :
  let w' := snd (AddressBook_add_record 1%nat two_records_world) in
  fst (AddressBook_find (lit "alice") w') = Ok (Some 1%nat)
  /\ dict_keys (data w') = [lit "alice"].
Proof.
  destruct (AddressBook_add_record_find two_records_world 1%nat
              (mkRecord (mkName (lit "alice")) [mkPhone (lit "1234567890")]
                 None) eq_refl) as (Hfind & _ & Hkeys & _).
  split; [exact Hfind|]. rewrite Hkeys. reflexivity.
Defined.

(** ** Handlers that only read, and wrong numbers of arguments *)

Lemma bind_world {A B : Type} (c : M A) (k : A -> M B) :
  (forall w, snd (c w) = w) -> (forall a w, snd (k a w) = w) ->
  forall w, snd (bind c k w) = w.
Proof.
  intros Hc Hk w. unfold bind. specialize (Hc w).
  destruct (c w) as [[a|e] w']; simpl in *; subst w'; [apply Hk|reflexivity].
Qed.

Lemma reading_handlers_world (today : Date.date) (args : list str)
    (w : world) :
  snd (show_phone args w) = w
  /\ snd (show_birthday args w) = w
  /\ snd (birthdays today args w) = w.
Proof.
  unfold show_phone, show_birthday, birthdays.
  rewrite !input_error_world. split; [|split].
  - revert w. unfold show_phone_func.
    apply bind_world; [reflexivity|]. intros nm.
    apply bind_world; [reflexivity|]. intros found.
    destruct found; [|reflexivity].
    apply bind_world; [apply load_world|]. intros r.
    destruct (phones r); reflexivity.
  - revert w. unfold show_birthday_func.
    apply bind_world; [reflexivity|]. intros nm.
    apply bind_world; [reflexivity|]. intros found.
    destruct found; [|reflexivity].
    apply bind_world; [apply load_world|]. intros r.
    destruct (birthday r); reflexivity.
  - revert w. unfold birthdays_func.
    apply bind_world; [apply AddressBook_get_upcoming_birthdays_world|].
    intros up. destruct up; reflexivity.
Qed.

(** X10: the handlers [phone], [show-birthday] and [birthdays] never change
    the world, whatever their arguments and whether they succeed or fail:
    a failed lookup, a wrong number of arguments and an exception raised by
    the query all leave the book and its records as they were. *)
Theorem reading_handlers_change_nothing (today : Date.date)
    (args : list str) (w : world) :
  snd (show_phone args w) = w
  /\ snd (show_birthday args w) = w
  /\ snd (birthdays today args w) = w.
Proof. apply reading_handlers_world. Qed.

Lemma unpack_error_text (expected got : nat) :
  exists c m, unpack_error expected got = ValueError (c :: m)
              /\ (c = 110 \/ c = 116).
Proof.
  unfold unpack_error. destruct (got <? expected)%nat.
  - eexists. eexists. split; [reflexivity|]. left. reflexivity.
  - eexists. eexists. split; [reflexivity|]. right. reflexivity.
Qed.

Lemma input_error_unpack (func : M str) (w : world) (expected got : nat) :
  func w = (Raise (unpack_error expected got), w) ->
  input_error func w = (exn_str (unpack_error expected got), w).
Proof.
  intros H. unfold input_error. rewrite H.
  destruct (unpack_error_text expected got) as (c & m & -> & _). reflexivity.
Qed.

(** X11: a handler called with the wrong number of arguments changes nothing
    and answers with Python's message about unpacking, "not enough values
    to unpack (expected n, got k)" or "too many values to unpack (expected
    n)"; that text is never "Not enough arguments.". *)
Theorem wrong_number_of_arguments_text (args : list str) (w : world) :
  (length args <> 2%nat ->
   add_contact args w = (exn_str (unpack_error 2 (length args)), w)
   /\ add_birthday args w = (exn_str (unpack_error 2 (length args)), w))
  /\ (length args <> 3%nat ->
      change_contact args w = (exn_str (unpack_error 3 (length args)), w))
  /\ (length args <> 1%nat ->
      show_phone args w = (exn_str (unpack_error 1 (length args)), w)
      /\ show_birthday args w = (exn_str (unpack_error 1 (length args)), w))
  /\ (forall expected,
        exn_str (unpack_error expected (length args))
        = (if (length args <? expected)%nat
           then lit "not enough values to unpack (expected "
                ++ str_of_Z (Z.of_nat expected) ++ lit ", got "
                ++ str_of_Z (Z.of_nat (length args)) ++ lit ")"
           else lit "too many values to unpack (expected "
                ++ str_of_Z (Z.of_nat expected) ++ lit ")")
        /\ exn_str (unpack_error expected (length args))
           <> lit "Not enough arguments.").
Proof.
  split; [|split; [|split]].
  - intros Hlen.
    assert (unpack2 args = Raise (unpack_error 2 (length args))) as Hu.
    { destruct args as [|a [|b [|c l]]]; simpl in *;
        try reflexivity; congruence. }
    split; apply input_error_unpack;
      unfold add_contact_func, add_birthday_func, bind, lift; rewrite Hu;
      reflexivity.
  - intros Hlen.
    assert (unpack3 args = Raise (unpack_error 3 (length args))) as Hu.
    { destruct args as [|a [|b [|c [|d l]]]]; simpl in *;
        try reflexivity; congruence. }
    apply input_error_unpack.
    unfold change_contact_func, bind, lift. rewrite Hu. reflexivity.
  - intros Hlen.
    assert (unpack1 args = Raise (unpack_error 1 (length args))) as Hu.
    { destruct args as [|a [|b l]]; simpl in *; try reflexivity; congruence. }
    split; apply input_error_unpack;
      unfold show_phone_func, show_birthday_func, bind, lift; rewrite Hu;
      reflexivity.
  - intros expected. split.
    + unfold unpack_error. destruct (length args <? expected)%nat; reflexivity.
    + destruct (unpack_error_text expected (length args))
        as (c & m & -> & Hc).
      simpl. intros H. vm_compute in H. destruct Hc; subst c; discriminate H.
Qed.

Lemma wrong_number_of_arguments_text_witness :
  add_contact [lit "alice"] sample_world
  = (lit "not enough values to unpack (expected 2, got 1)", sample_world)
  /\ change_contact [lit "a"; lit "b"; lit "c"; lit "d"] sample_world
     = (lit "too many values to unpack (expected 3)", sample_world).
Proof.
  destruct (wrong_number_of_arguments_text [lit "alice"] sample_world)
    as (H2 & _).
  destruct (wrong_number_of_arguments_text
              [lit "a"; lit "b"; lit "c"; lit "d"] sample_world)
    as (_ & H3 & _).
  split.
  - destruct H2 as [H _]; [simpl; lia|]. rewrite H. vm_compute. reflexivity.
  - rewrite H3 by (simpl; lia). vm_compute. reflexivity.
Defined.

(** ** The weekend shift and the distance to the occurrence *)

(** X12: for every date [adjust_for_weekend] returns a date without raising;
    the result is never a Saturday or a Sunday, is the date itself on a
    working day, and is at most two days later. *)
Theorem adjust_for_weekend_working_day (d : Date.date) :
  Date.valid d ->
  exists d',
    adjust_for_weekend d = Ok d' /\ Date.valid d'
    /\ 0 <= Date.weekday d' <= 4
    /\ Date.toordinal d <= Date.toordinal d' <= Date.toordinal d + 2
    /\ (Date.weekday d <= 4 -> d' = d).
Proof.
  intros Hd. destruct (adjust_for_weekend_spec d Hd)
    as (d' & Heq & Hv & Ho & Hmon & Hsame).
  exists d'. split; [exact Heq|]. split; [exact Hv|].
  assert (0 <= Date.weekday d < 7) as Hwd
    by (unfold Date.weekday; apply Z.mod_pos_bound; lia).
  destruct (Z.eqb_spec (Date.weekday d) 5) as [H5|H5].
  - rewrite (Hmon (or_introl H5)). repeat split; lia.
  - destruct (Z.eqb_spec (Date.weekday d) 6) as [H6|H6].
    + rewrite (Hmon (or_intror H6)). repeat split; lia.
    + rewrite (Hsame H5 H6). repeat split; lia.
Qed.

Lemma adjust_for_weekend_working_day_witness :
  exists d', adjust_for_weekend (Date.mk 2024 6 8) = Ok d'
             /\ 0 <= Date.weekday d' <= 4.
Proof.
  destruct (adjust_for_weekend_working_day (Date.mk 2024 6 8))
    as (d' & Heq & _ & Hwd & _).
  - vm_compute. repeat split; discriminate.
  - exists d'. split; assumption.
Defined.

Section OrdinalOrder.
Import Date.

Lemma days_before_year_mono y1 y2 :
  y1 <= y2 -> days_before_year y1 <= days_before_year y2.
Proof.
  intros H. unfold days_before_year. cbv zeta.
  Z.div_mod_to_equations. lia.
Qed.

Lemma month_cases m :
  1 <= m <= 12 ->
  m = 1 \/ m = 2 \/ m = 3 \/ m = 4 \/ m = 5 \/ m = 6 \/ m = 7 \/ m = 8
  \/ m = 9 \/ m = 10 \/ m = 11 \/ m = 12.
Proof. lia. Qed.

Lemma days_before_month_next y m1 m2 :
  1 <= m1 -> m1 < m2 -> m2 <= 12 ->
  days_before_month y m1 + days_in_month y m1 <= days_before_month y m2.
Proof.
  intros H1 H12 H2. rewrite days_in_month_alt. unfold days_before_month.
  destruct (month_cases m1 ltac:(lia)) as [ -> | [ -> | [ -> | [ -> | [ -> | [ -> | [ -> | [ -> | [ -> | [ -> | [ -> | -> ] ] ] ] ] ] ] ] ] ] ];
    destruct (month_cases m2 ltac:(lia)) as [ -> | [ -> | [ -> | [ -> | [ -> | [ -> | [ -> | [ -> | [ -> | [ -> | [ -> | -> ] ] ] ] ] ] ] ] ] ] ];
    try lia; destruct (is_leap y); simpl; lia.
Qed.

(** The order of dates is the order of their ordinals. *)
Lemma toordinal_ltb d1 d2 :
  valid d1 -> valid d2 -> ltb d1 d2 = true -> toordinal d1 < toordinal d2.
Proof.
  intros (Hy1 & Hm1 & Hd1) (Hy2 & Hm2 & Hd2). unfold ltb, toordinal, ymd2ord.
  intros H. apply orb_true_iff in H. destruct H as [Hy|H];
    [apply Z.ltb_lt in Hy|
     apply andb_true_iff in H; destruct H as [Hy H];
     apply Z.eqb_eq in Hy; apply orb_true_iff in H; destruct H as [Hm|H];
     [apply Z.ltb_lt in Hm|
      apply andb_true_iff in H; destruct H as [Hm Hd];
      apply Z.eqb_eq in Hm; apply Z.ltb_lt in Hd]].
  - pose proof (days_before_month_bounds _ _ _ Hm1 Hd1) as B1.
    pose proof (days_before_month_bounds _ _ _ Hm2 Hd2) as B2.
    pose proof (days_before_year_succ (year d1)) as Hs.
    pose proof (days_before_year_mono (year d1 + 1) (year d2) ltac:(lia)).
    lia.
  - rewrite Hy.
    pose proof (days_before_month_next (year d2) (month d1) (month d2)
                  ltac:(lia) Hm ltac:(lia)).
    rewrite Hy in Hd1. lia.
  - rewrite Hy, Hm. lia.
Qed.

Lemma toordinal_not_ltb d1 d2 :
  valid d1 -> valid d2 -> ltb d1 d2 = false -> toordinal d2 <= toordinal d1.
Proof.
  intros H1 H2 Hlt.
  destruct (ltb d2 d1) eqn:Hgt.
  - pose proof (toordinal_ltb d2 d1 H2 H1 Hgt). lia.
  - assert (year d1 = year d2 /\ month d1 = month d2 /\ day d1 = day d2)
      as (Hy & Hm & Hd).
    { unfold ltb in *.
      rewrite !orb_false_iff, !andb_false_iff, !Z.ltb_ge, !Z.eqb_neq in *.
      lia. }
    unfold toordinal. rewrite Hy, Hm, Hd. lia.
Qed.

(** The same month and day one year later is 365 or 366 days later. *)
Lemma toordinal_next_year y m d :
  valid (mk y m d) -> valid (mk (y + 1) m d) ->
  365 <= toordinal (mk (y + 1) m d) - toordinal (mk y m d) <= 366.
Proof.
  intros (Hy & Hm & Hd) (Hy' & _ & Hd'). simpl in *.
  unfold toordinal, ymd2ord. simpl.
  rewrite (days_before_year_succ y). unfold days_before_month.
  rewrite days_in_month_alt in Hd, Hd'.
  assert (is_leap y = true -> is_leap (y + 1) = false) as Hnot.
  { intros Hl. apply is_leap_spec in Hl.
    destruct (is_leap (y + 1)) eqn:Hl'; [|reflexivity].
    apply is_leap_spec in Hl'. exfalso.
    destruct Hl as [H4 _], Hl' as [H4' _].
    Z.div_mod_to_equations. lia. }
  destruct (is_leap y) eqn:Hl.
  - rewrite (Hnot eq_refl) in *.
    destruct (2 <? m) eqn:H2; destruct (m =? 2) eqn:H2'; simpl in *; lia.
  - destruct (is_leap (y + 1));
      destruct (2 <? m) eqn:H2; destruct (m =? 2) eqn:H2'; simpl in *; lia.
Qed.

End OrdinalOrder.

(** The occurrence is never before today and at most 365 days after it,
    so the lower bound of the window never decides. *)
Lemma occurrence_distance (today bd : Date.date) (days : Z) :
  Date.valid today -> occurrence_exists today bd ->
  0 <= Date.sub_days (occurrence today bd) today <= 365
  /\ in_window today days (occurrence today bd)
     = (Date.sub_days (occurrence today bd) today <=? days).
Proof.
  intros Ht [H1 H2].
  assert (0 <= Date.sub_days (occurrence today bd) today <= 365) as Hb.
  { unfold occurrence, Date.sub_days. cbv zeta.
    set (this := Date.mk (Date.year today) (Date.month bd) (Date.day bd)) in *.
    destruct (Date.ltb this today) eqn:Hlt.
    - specialize (H2 eq_refl).
      pose proof (toordinal_ltb this today H1 Ht Hlt) as Hlt'.
      pose proof (toordinal_next_year _ _ _ H1 H2) as Hnext.
      assert (Date.ltb today
                (Date.mk (Date.year today + 1) (Date.month bd) (Date.day bd))
              = true) as Hnow.
      { unfold Date.ltb. simpl.
        replace (Date.year today <? Date.year today + 1) with true
          by (symmetry; apply Z.ltb_lt; lia).
        reflexivity. }
      pose proof (toordinal_ltb _ _ Ht H2 Hnow) as Hnow'.
      fold this in Hnext. lia.
    - pose proof (toordinal_not_ltb this today H1 Ht Hlt) as Hge.
      pose proof (toordinal_bounds this H1) as Bthis.
      destruct Ht as (Hy & Hm & Hd). destruct H1 as (_ & Hm1 & Hd1).
      pose proof (days_before_month_bounds _ _ _ Hm Hd) as Btoday.
      pose proof (days_before_month_bounds _ _ _ Hm1 Hd1) as Bocc.
      unfold Date.toordinal, Date.ymd2ord in *. simpl in *.
      destruct (Date.is_leap (Date.year today)); lia. }
  split; [exact Hb|].
  unfold in_window. fold (Date.sub_days (occurrence today bd) today).
  replace (0 <=? Date.sub_days (occurrence today bd) today) with true
    by (symmetry; apply Z.leb_le; lia).
  reflexivity.
Qed.


(** ** The answer of the query *)

Lemma occurrences_all_or_not today (rs : list record) :
  (forall r bd, In r rs -> birthday_date r = Some bd ->
                occurrence_exists today bd)
  \/ (exists r bd, In r rs /\ birthday_date r = Some bd
                   /\ ~ occurrence_exists today bd).
Proof.
  induction rs as [|r rs [IH|IH]].
  - left. intros r bd [].
  - destruct (birthday_date r) as [bd|] eqn:Hbd.
    + destruct (occurrence_exists_dec today bd) as [H|H].
      * left. intros r' bd' [<-|Hin] Hbd'; [|eapply IH; eassumption].
        rewrite Hbd in Hbd'. injection Hbd' as <-. exact H.
      * right. exists r, bd. split; [left; reflexivity|]. split; assumption.
    + left. intros r' bd' [<-|Hin] Hbd'; [congruence|].
      eapply IH; eassumption.
  - right. destruct IH as (r' & bd & Hin & H). exists r', bd.
    split; [right; exact Hin | exact H].
Qed.

(** When the query returns, it returns the records kept, in order. *)
Lemma get_upcoming_birthdays_returns today days w l :
  stored_ok w ->
  fst (AddressBook_get_upcoming_birthdays today days w) = Ok l ->
  l = upcoming_spec today days (book_records w).
Proof.
  intros Hok Hl.
  destruct (occurrences_all_or_not today (book_records w)) as [Hall|Hex].
  - unfold AddressBook_get_upcoming_birthdays, book_records in *.
    rewrite (for_each_upcoming today days w _ Hok Hall []) in Hl.
    simpl in Hl. congruence.
  - destruct (get_upcoming_birthdays_no_occurrence today days w Hok Hex)
      as [msg Hmsg].
    rewrite Hmsg in Hl. discriminate.
Qed.

Lemma records_names (h : list record) (d : list (str * loc)) :
  (forall k l, In (k, l) d ->
     exists r, h !! l = Some r /\ name_value (name r) = k) ->
  List.map (fun r => name_value (name r))
    (omap (fun l => h !! l) (dict_values d))
  = dict_keys d.
Proof.
  induction d as [|[k l] d IH]; intros H; simpl; [reflexivity|].
  destruct (H k l (or_introl eq_refl)) as (r & Hr & Hk).
  rewrite Hr. simpl. rewrite Hk. f_equal.
  apply IH. intros k' l' Hin. apply H. right. exact Hin.
Qed.

Lemma filter_names_unique (keep : record -> bool) (rs : list record) :
  NoDup (List.map (fun r => name_value (name r)) rs) ->
  NoDup (List.map (fun r => name_value (name r)) (List.filter keep rs)).
Proof.
  induction rs as [|r rs IH]; simpl; [tauto|].
  intros Hd. apply NoDup_cons in Hd. destruct Hd as [Hr Hd].
  destruct (keep r); simpl; [|apply IH, Hd].
  apply NoDup_cons. split; [|apply IH, Hd].
  rewrite list_elem_of_In in *. intros Hin. apply Hr.
  apply List.in_map_iff in Hin. destruct Hin as (r' & Hn & Hin).
  apply List.filter_In in Hin. destruct Hin as [Hin _].
  apply List.in_map_iff. exists r'. split; assumption.
Qed.

Lemma upcoming_names_spec today days rs :
  upcoming_names (upcoming_spec today days rs)
  = List.map (fun r => name_value (name r))
      (List.filter (keeps today days) rs).
Proof.
  unfold upcoming_names, upcoming_spec. rewrite List.map_map. reflexivity.
Qed.

Lemma filter_length_le {A : Type} (p : A -> bool) (l : list A) :
  (length (List.filter p l) <= length l)%nat.
Proof.
  induction l as [|a l IH]; simpl; [lia|].
  destruct (p a); simpl; lia.
Qed.

Lemma keeps_negative_window today days r :
  days < 0 -> keeps today days r = false.
Proof.
  intros H. unfold keeps, in_window.
  destruct (birthday_date r); [|reflexivity].
  apply andb_false_iff.
  destruct (Z.leb_spec 0 (Date.toordinal (occurrence today d)
                          - Date.toordinal today)); [right | left; reflexivity].
  apply Z.leb_gt. lia.
Qed.

Lemma filter_none {A : Type} (p : A -> bool) (l : list A) :
  (forall a, p a = false) -> List.filter p l = [].
Proof.
  intros H. induction l as [|a l IH]; simpl; [reflexivity|].
  rewrite H. exact IH.
Qed.

(** X14: in every world the handlers reach, an answer of
    [get_upcoming_birthdays] names no contact twice, names only contacts of
    the book, in the order of the book, has at most as many entries as the
    book, and is empty for a negative window. *)
Theorem upcoming_names_distinct (today : Date.date) (days : Z) (w : world)
    (l : list upcoming) :
  reachable w ->
  fst (AddressBook_get_upcoming_birthdays today days w) = Ok l ->
  NoDup (upcoming_names l)
  /\ upcoming_names l
     = List.filter
         (fun k => match dict_get k (data w) with
                   | Some rec => match heap w !! rec with
                                 | Some r => keeps today days r
                                 | None => false
                                 end
                   | None => false
                   end)
         (dict_keys (data w))
  /\ (length l <= length (data w))%nat
  /\ (days < 0 -> l = []).
Proof.
  intros Hreach Hl.
  pose proof (reachable_inv w Hreach) as Hinv.
  pose proof Hinv as (Hk & Hu & _).
  pose proof (get_upcoming_birthdays_returns today days w l
                (world_inv_stored_ok w Hinv) Hl) as ->.
  pose proof (records_names (heap w) (data w) Hk) as Hnames.
  fold (book_records w) in Hnames.
  split; [|split; [|split]].
  - rewrite upcoming_names_spec. apply filter_names_unique.
    rewrite Hnames. exact Hu.
  - rewrite upcoming_names_spec. unfold book_records.
    clear Hnames Hl. unfold unique_keys in Hu. revert Hk Hu.
    unfold keys_are_names. generalize (heap w) as h.
    intros h. generalize (data w) as d.
    induction d as [|[k rec] d IH]; intros Hk Hu; simpl; [reflexivity|].
    destruct (Hk k rec (or_introl eq_refl)) as (r & Hr & Hn).
    rewrite Hr. simpl. rewrite bool_decide_eq_true_2 by reflexivity.
    rewrite Hr. apply NoDup_cons in Hu. destruct Hu as [Hnotin Hu].
    assert (List.filter
              (fun k0 => match (if bool_decide (k = k0) then Some rec
                                else dict_get k0 d) with
                         | Some rec0 => match h !! rec0 with
                                        | Some r0 => keeps today days r0
                                        | None => false
                                        end
                         | None => false
                         end) (dict_keys d)
            = List.filter
                (fun k0 => match dict_get k0 d with
                           | Some rec0 => match h !! rec0 with
                                          | Some r0 => keeps today days r0
                                          | None => false
                                          end
                           | None => false
                           end) (dict_keys d)) as Hsame.
    { apply List.filter_ext_in. intros k0 Hin.
      rewrite bool_decide_eq_false_2; [reflexivity|].
      intros ->. apply Hnotin. apply list_elem_of_In. exact Hin. }
    rewrite Hsame.
    rewrite <- (IH (fun k' l' Hin => Hk k' l' (or_intror Hin)) Hu).
    destruct (keeps today days r); simpl; [rewrite Hn|]; reflexivity.
  - unfold upcoming_spec. rewrite length_map.
    etransitivity; [apply filter_length_le|].
    rewrite <- (length_map (fun r => name_value (name r))), Hnames.
    unfold dict_keys. rewrite length_map. reflexivity.
  - intros Hneg. unfold upcoming_spec.
    rewrite filter_none; [reflexivity|].
    intros r. apply keeps_negative_window, Hneg.
Qed.

Lemma upcoming_names_distinct_witness :
  exists l,
    fst (AddressBook_get_upcoming_birthdays (Date.mk 2024 6 7) 7 june_world)
    = Ok l
    /\ NoDup (upcoming_names l) /\ (length l <= 1)%nat.
Proof.
  eexists. split; [vm_compute; reflexivity|].
  destruct (upcoming_names_distinct (Date.mk 2024 6 7) 7 june_world
              [mkUpcoming (lit "alice") (lit "10.06.2024")])
    as (Hnd & _ & Hlen & _).
  - eexists. reflexivity.
  - vm_compute. reflexivity.
  - split; [exact Hnd | exact Hlen].
Defined.

(** X15: when no record of the book has a birthday, the handler [birthdays]
    answers "No upcoming birthdays." on every day, whatever arguments it is
    given, and changes nothing. *)
Theorem birthdays_without_birthday (today : Date.date) (args : list str)
    (w : world) :
  List.Forall (fun l => exists r, heap w !! l = Some r /\ birthday r = None)
    (dict_values (data w)) ->
  birthdays today args w = (lit "No upcoming birthdays.", w).
Proof.
  intros Hnone.
  assert (stored_ok w) as Hok.
  { unfold stored_ok. eapply List.Forall_impl; [|exact Hnone].
    intros l (r & Hr & Hb). exists r. split; [exact Hr | left; exact Hb]. }
  assert (forall r, In r (book_records w) -> birthday_date r = None) as Hdates.
  { intros r Hin. unfold book_records in Hin.
    apply list_elem_of_In, list_elem_of_omap in Hin.
    destruct Hin as (l & Hl & Hr). rewrite List.Forall_forall in Hnone.
    apply list_elem_of_In in Hl.
    destruct (Hnone l Hl) as (r' & Hr' & Hb).
    rewrite Hr in Hr'. injection Hr' as <-.
    unfold birthday_date. rewrite Hb. reflexivity. }
  assert (upcoming_spec today 7 (book_records w) = []) as Hspec.
  { unfold upcoming_spec.
    assert (List.filter (keeps today 7) (book_records w) = []) as ->;
      [|reflexivity].
    induction (book_records w) as [|r rs IH]; simpl; [reflexivity|].
    unfold keeps at 1. rewrite (Hdates r (or_introl eq_refl)).
    apply IH. intros r' Hin. apply Hdates. right. exact Hin. }
  unfold birthdays, input_error, birthdays_func, bind.
  unfold AddressBook_get_upcoming_birthdays.
  rewrite (for_each_upcoming today 7 w (dict_values (data w)) Hok).
  - fold (book_records w). simpl. rewrite Hspec. reflexivity.
  - intros r bd Hin Hbd. rewrite (Hdates r Hin) in Hbd. discriminate.
Qed.

Lemma birthdays_without_birthday_witness :
  birthdays (Date.mk 2024 6 7) [lit "x"] sample_world
  = (lit "No upcoming birthdays.", sample_world).
Proof.
  apply birthdays_without_birthday.
  repeat constructor. exists sample_record. split; reflexivity.
Defined.

(** ** Formatting a date and reading it back *)

Lemma str_of_Z_one_digit n : 0 <= n <= 9 -> str_of_Z n = [ch_0 + n].
Proof.
  intros H. unfold str_of_Z. cbn [decimal_fuel].
  rewrite Z.mod_small by lia.
  replace (n / 10 =? 0) with true; [reflexivity|].
  symmetry. apply Z.eqb_eq. apply Z.div_small. lia.
Qed.

Lemma str_of_Z_two_digits n :
  10 <= n <= 99 -> str_of_Z n = [ch_0 + n / 10; ch_0 + n mod 10].
Proof.
  intros H. unfold str_of_Z.
  destruct (Z.to_nat n) as [|k] eqn:E; [lia|]. cbn [decimal_fuel].
  replace (n / 10 =? 0) with false
    by (symmetry; apply Z.eqb_neq; Z.div_mod_to_equations; lia).
  replace (n / 10 / 10 =? 0) with true
    by (symmetry; apply Z.eqb_eq; Z.div_mod_to_equations; lia).
  rewrite (Z.mod_small (n / 10)) by (Z.div_mod_to_equations; lia).
  reflexivity.
Qed.

Lemma str_of_Z_four_digits n :
  1000 <= n <= 9999 ->
  str_of_Z n
  = [ch_0 + n / 1000; ch_0 + n / 100 mod 10; ch_0 + n / 10 mod 10;
     ch_0 + n mod 10].
Proof.
  intros H. unfold str_of_Z.
  destruct (Z.to_nat n) as [|[|[|k]]] eqn:E; try lia. cbn [decimal_fuel].
  replace (n / 10 =? 0) with false
    by (symmetry; apply Z.eqb_neq; Z.div_mod_to_equations; lia).
  replace (n / 10 / 10 =? 0) with false
    by (symmetry; apply Z.eqb_neq; Z.div_mod_to_equations; lia).
  replace (n / 10 / 10 / 10 =? 0) with false
    by (symmetry; apply Z.eqb_neq; Z.div_mod_to_equations; lia).
  replace (n / 10 / 10 / 10 / 10 =? 0) with true
    by (symmetry; apply Z.eqb_eq; Z.div_mod_to_equations; lia).
  rewrite !Z.div_div by lia. change (10 * 10) with 100.
  change (100 * 10) with 1000.
  rewrite (Z.mod_small (n / 1000)) by (Z.div_mod_to_equations; lia).
  reflexivity.
Qed.

Lemma digit_char v : 0 <= v <= 9 ->
  ascii_digit (ch_0 + v) = true /\ to_decimal (ch_0 + v) = Some v.
Proof.
  intros H.
  assert (ascii_digit (ch_0 + v) = true) as Ha
    by (apply ascii_digit_spec; unfold ch_0; lia).
  split; [exact Ha|]. rewrite (to_decimal_digit _ Ha). f_equal. lia.
Qed.

Lemma pad2_day_text n : 1 <= n <= 31 -> day_text (pad2 n) n.
Proof.
  intros H. unfold pad2. right. right. destruct (Z.ltb_spec n 10).
  - rewrite str_of_Z_one_digit by lia.
    destruct (digit_char 0 ltac:(lia)) as [Ha _].
    destruct (digit_char n ltac:(lia)) as [Hb Hvb].
    exists ch_0, (ch_0 + n), n. rewrite Z.add_0_r in Ha.
    repeat split; auto; lia.
  - rewrite str_of_Z_two_digits by lia.
    destruct (digit_char (n / 10) ltac:(Z.div_mod_to_equations; lia))
      as [Ha _].
    destruct (digit_char (n mod 10) ltac:(Z.div_mod_to_equations; lia))
      as [Hb Hvb].
    exists (ch_0 + n / 10), (ch_0 + n mod 10), (n mod 10).
    repeat split; auto; Z.div_mod_to_equations; lia.
Qed.

Lemma pad2_month_text n : 1 <= n <= 12 -> month_text (pad2 n) n.
Proof.
  intros H. unfold pad2. right. destruct (Z.ltb_spec n 10).
  - rewrite str_of_Z_one_digit by lia.
    destruct (digit_char 0 ltac:(lia)) as [Ha _].
    destruct (digit_char n ltac:(lia)) as [Hb _].
    exists ch_0, (ch_0 + n). rewrite Z.add_0_r in Ha.
    repeat split; auto; lia.
  - rewrite str_of_Z_two_digits by lia.
    destruct (digit_char (n / 10) ltac:(Z.div_mod_to_equations; lia))
      as [Ha _].
    destruct (digit_char (n mod 10) ltac:(Z.div_mod_to_equations; lia))
      as [Hb _].
    exists (ch_0 + n / 10), (ch_0 + n mod 10).
    repeat split; auto; Z.div_mod_to_equations; lia.
Qed.

Lemma str_of_Z_year_text n : 1000 <= n <= 9999 -> year_text (str_of_Z n) n.
Proof.
  intros H. rewrite str_of_Z_four_digits by lia.
  destruct (digit_char (n / 1000) ltac:(Z.div_mod_to_equations; lia))
    as [_ Ha].
  destruct (digit_char (n / 100 mod 10) ltac:(Z.div_mod_to_equations; lia))
    as [_ Hb].
  destruct (digit_char (n / 10 mod 10) ltac:(Z.div_mod_to_equations; lia))
    as [_ Hc].
  destruct (digit_char (n mod 10) ltac:(Z.div_mod_to_equations; lia))
    as [_ Hd].
  do 4 eexists. exists (n / 1000), (n / 100 mod 10), (n / 10 mod 10), (n mod 10).
  split; [reflexivity|]. repeat split; try assumption.
  Z.div_mod_to_equations. lia.
Qed.

Lemma pad2_length n : 0 <= n <= 99 -> length (pad2 n) = 2%nat.
Proof.
  intros H. unfold pad2. destruct (Z.ltb_spec n 10).
  - rewrite str_of_Z_one_digit by lia. reflexivity.
  - rewrite str_of_Z_two_digits by lia. reflexivity.
Qed.

Lemma strftime_dmY_read_back (d : Date.date) :
  Date.valid d -> 1000 <= Date.year d ->
  strptime_dmY (Date.strftime_dmY d) = Ok d
  /\ length (Date.strftime_dmY d) = 10%nat
  /\ Birthday_init (Date.strftime_dmY d)
     = Ok (mkBirthday (Date.strftime_dmY d)).
Proof.
  intros Hv Hy. pose proof Hv as (Hyr & Hm & Hd).
  unfold Date.MINYEAR, Date.MAXYEAR in Hyr.
  pose proof (days_in_month_le_31 (Date.year d) (Date.month d)) as H31.
  assert (strptime_dmY (Date.strftime_dmY d) = Ok d) as Hparse.
  { apply strptime_dmY_spec. split; [|exact Hv].
    exists (pad2 (Date.day d)), (pad2 (Date.month d)),
      (str_of_Z (Date.year d)).
    split; [reflexivity|].
    split; [apply pad2_day_text; lia|].
    split; [apply pad2_month_text; lia | apply str_of_Z_year_text; lia]. }
  split; [exact Hparse|]. split.
  - unfold Date.strftime_dmY. rewrite !length_app.
    rewrite !pad2_length by lia.
    rewrite str_of_Z_four_digits by lia. reflexivity.
  - unfold Birthday_init. rewrite Hparse. reflexivity.
Qed.

(** X16: a date of the years 1000 to 9999 written with [strftime] as the
    query writes it has the ten characters of DD.MM.YYYY, and [strptime]
    reads the same date back from it: every date that [birthdays] prints is
    a string [Birthday] accepts. *)
Theorem strftime_strptime_round_trip (d : Date.date) :
  Date.valid d -> 1000 <= Date.year d ->
  strptime_dmY (Date.strftime_dmY d) = Ok d
  /\ length (Date.strftime_dmY d) = 10%nat
  /\ Birthday_init (Date.strftime_dmY d)
     = Ok (mkBirthday (Date.strftime_dmY d)).
Proof. apply strftime_dmY_read_back. Qed.

Lemma strftime_strptime_round_trip_witness :
  strptime_dmY (Date.strftime_dmY (Date.mk 2024 6 10)) = Ok (Date.mk 2024 6 10).
Proof.
  apply (strftime_strptime_round_trip (Date.mk 2024 6 10)).
  - vm_compute. repeat split; discriminate.
  - vm_compute. discriminate.
Defined.

(** ** Changing a phone, and the commands that write *)

(** X17: after a successful [change name old new] the handler [phone] shows
    the phones of the contact with the first phone equal to [old] replaced
    by [new] at its place; when a phone equal to [old] exists but [new]
    fails validation, the answer is the message of [Phone] and the world is
    left as it was. *)
Theorem change_contact_then_show_phone (w : world) (nm old_phone new_phone : str)
    (rec : loc) (r : record) (ps1 ps2 : list Phone) (x : Phone) :
  dict_get nm (data w) = Some rec -> heap w !! rec = Some r ->
  phones r = ps1 ++ x :: ps2 -> phone_value x = old_phone ->
  List.Forall (fun ph => phone_value ph <> old_phone) ps1 ->
  (Phone_init new_phone = Ok (mkPhone new_phone) ->
   fst (change_contact [nm; old_phone; new_phone] w) = lit "Phone updated."
   /\ fst (show_phone [nm]
             (snd (change_contact [nm; old_phone; new_phone] w)))
      = join (lit "; ")
          (List.map phone_value ps1 ++ new_phone
           :: List.map phone_value ps2))
  /\ (Phone_init new_phone <> Ok (mkPhone new_phone) ->
      change_contact [nm; old_phone; new_phone] w
      = (lit "Phone must contain exactly 10 digits", w)).
Proof.
  intros Hrec Hr Hsplit Hx Hps1.
  pose proof (Record_edit_phone_first w rec r old_phone new_phone ps1 x ps2
                Hr Hsplit Hx Hps1) as Hedit.
  assert (change_contact [nm; old_phone; new_phone] w
          = match Phone_init new_phone with
            | Ok np => (lit "Phone updated.",
                        with_phones w rec r (ps1 ++ np :: ps2))
            | Raise _ => (lit "Phone must contain exactly 10 digits", w)
            end) as Heq.
  { unfold change_contact, input_error, change_contact_func,
      AddressBook_find. run_method. rewrite Hrec. simpl. rewrite Hedit.
    destruct (Phone_init_cases new_phone) as [H|H]; rewrite H; reflexivity. }
  rewrite Heq. split.
  - intros Hnew. rewrite Hnew. split; [reflexivity|]. simpl snd.
    rewrite (show_phone_known
               (with_phones w rec r (ps1 ++ mkPhone new_phone :: ps2)) nm rec
               _ Hrec (with_phones_lookup w rec r _ Hr)).
    simpl. rewrite List.map_app. simpl.
    destruct ps1; reflexivity.
  - intros Hbad. destruct (Phone_init_cases new_phone) as [H|H];
      [contradiction|]. rewrite H. reflexivity.
Qed.

Lemma change_contact_then_show_phone_witness :
  fst (show_phone [lit "alice"]
         (snd (change_contact
                 [lit "alice"; lit "1234567890"; lit "5555555555"]
                 sample_world)))
  = lit "5555555555; 0987654321".
Proof.
  destruct (change_contact_then_show_phone sample_world (lit "alice")
              (lit "1234567890") (lit "5555555555") 0%nat sample_record
              [] [mkPhone (lit "0987654321")] (mkPhone (lit "1234567890")))
    as [Hok _].
  - reflexivity.
  - reflexivity.
  - reflexivity.
  - reflexivity.
  - constructor.
  - destruct Hok as [_ Hshow]; [vm_compute; reflexivity|].
    rewrite Hshow. vm_compute. reflexivity.
Defined.

(** X18: only the commands [add], [change] and [add-birthday] write: a turn
    of the loop for any other line, blank or not, leaves the world as it
    was. *)
Theorem main_turn_other_commands_keep_world (lower : str -> str)
    (today : Date.date) (user_input command : str) (args : list str)
    (w : world) :
  parse_input lower user_input = Some (command, args) ->
  command <> lit "add" -> command <> lit "change" ->
  command <> lit "add-birthday" ->
  exists t, main_turn lower today user_input w = Some t /\ after t = w.
Proof.
  intros Hparse Hadd Hchange Hbday. unfold main_turn. rewrite Hparse.
  eexists. split; [reflexivity|].
  rewrite (bool_decide_eq_false_2 (command = lit "add")) by assumption.
  rewrite (bool_decide_eq_false_2 (command = lit "change")) by assumption.
  rewrite (bool_decide_eq_false_2 (command = lit "add-birthday"))
    by assumption.
  destruct (reading_handlers_world today args w) as (Hp & Hb & Hbs).
  repeat match goal with
         | |- context [if ?c then _ else _] => destruct c
         end; simpl; auto.
Qed.

Lemma main_turn_other_commands_keep_world_witness :
  exists t,
    main_turn (fun s => s) (Date.mk 2024 6 7) (lit "  phone alice ")
      sample_world = Some t
    /\ after t = sample_world.
Proof.
  apply (main_turn_other_commands_keep_world (fun s => s) (Date.mk 2024 6 7)
           (lit "  phone alice ") (lit "phone") [lit "alice"] sample_world).
  - vm_compute. reflexivity.
  - intros H. vm_compute in H. discriminate H.
  - intros H. vm_compute in H. discriminate H.
  - intros H. vm_compute in H. discriminate H.
Defined.
(** ** The answer of the query where every occurrence exists *)

Lemma book_records_birthday_ok (w : world) (r : record) :
  stored_ok w -> In r (book_records w) -> birthday_ok r.
Proof.
  unfold stored_ok, book_records.
  induction 1 as [|l ls (r' & Hr' & Hb) _ IH]; simpl; [tauto|].
  rewrite Hr'. simpl. intros [<-|Hin]; [exact Hb | apply IH, Hin].
Qed.

Lemma filter_agree {A : Type} (f g : A -> bool) (l : list A) :
  (forall x, In x l -> f x = g x) -> List.filter f l = List.filter g l.
Proof.
  induction l as [|x l IH]; intros H; simpl; [reflexivity|].
  rewrite (H x (or_introl eq_refl)), IH; [reflexivity|].
  intros y Hy. apply H. right. exact Hy.
Qed.

Lemma year_le_of_toordinal (d1 d2 : Date.date) :
  Date.valid d1 -> Date.valid d2 ->
  Date.toordinal d1 <= Date.toordinal d2 -> Date.year d1 <= Date.year d2.
Proof.
  intros H1 H2 Hle.
  destruct (Z.le_gt_cases (Date.year d1) (Date.year d2)) as [H|H];
    [exact H|].
  assert (Date.ltb d2 d1 = true) as Hlt.
  { unfold Date.ltb. apply orb_true_iff. left. apply Z.ltb_lt. lia. }
  pose proof (toordinal_ltb d2 d1 H2 H1 Hlt). lia.
Qed.

Lemma occurrence_year (today bd : Date.date) :
  Date.year today <= Date.year (occurrence today bd).
Proof.
  unfold occurrence. cbv zeta. destruct (Date.ltb _ today); simpl; lia.
Qed.

(** X13: where every occurrence exists, the lower bound of the test
    [0 <= (birthday_this_year - today).days <= days] never rejects a
    record: the query returns the records that have a birthday due at most
    [days] days after today, and with a window of 365 days or more it
    returns every record that has a birthday, each with its name and the
    date shown. *)
Theorem get_upcoming_birthdays_lower_bound_idle (today : Date.date)
    (days : Z) (w : world) :
  Date.valid today -> stored_ok w ->
  (forall r bd, In r (book_records w) -> birthday_date r = Some bd ->
                occurrence_exists today bd) ->
  AddressBook_get_upcoming_birthdays today days w
  = (Ok (List.map (entry_of today)
           (List.filter (due_within today days) (book_records w))), w)
  /\ (365 <= days ->
      AddressBook_get_upcoming_birthdays today days w
      = (Ok (List.map (entry_of today)
               (List.filter has_birthday (book_records w))), w)).
Proof.
  intros Ht Hok Hocc.
  assert (AddressBook_get_upcoming_birthdays today days w
          = (Ok (upcoming_spec today days (book_records w)), w)) as Heq.
  { unfold AddressBook_get_upcoming_birthdays, book_records.
    apply (for_each_upcoming today days w _ Hok Hocc []). }
  assert (forall r, In r (book_records w) ->
            keeps today days r = due_within today days r) as Hdue.
  { intros r Hin. unfold keeps, due_within.
    destruct (birthday_date r) as [bd|] eqn:Hbd; [|reflexivity].
    apply (occurrence_distance today bd days Ht (Hocc r bd Hin Hbd)). }
  split.
  - rewrite Heq. unfold upcoming_spec.
    rewrite (filter_agree _ _ _ Hdue). reflexivity.
  - intros Hdays. rewrite Heq. unfold upcoming_spec.
    rewrite (filter_agree (keeps today days) has_birthday); [reflexivity|].
    intros r Hin. rewrite (Hdue r Hin). unfold due_within, has_birthday.
    pose proof (book_records_birthday_ok w r Hok Hin) as Hb.
    destruct (birthday_date r) as [bd|] eqn:Hbd.
    + destruct (occurrence_distance today bd days Ht (Hocc r bd Hin Hbd))
        as [Hd _].
      unfold birthday_date in Hbd.
      destruct (birthday r); [|discriminate].
      apply Z.leb_le. lia.
    + destruct Hb as [->|[bd Hbd']]; [reflexivity | congruence].
Qed.

Lemma get_upcoming_birthdays_lower_bound_idle_witness :
  AddressBook_get_upcoming_birthdays (Date.mk 2024 6 7) 400 june_world
  = (Ok [mkUpcoming (lit "alice") (lit "10.06.2024")], june_world).
Proof.
  destruct (get_upcoming_birthdays_lower_bound_idle
              (Date.mk 2024 6 7) 400 june_world) as [_ H].
  - vm_compute. repeat split; discriminate.
  - repeat constructor. exists (mkRecord (mkName (lit "alice"))
                                  [mkPhone (lit "1234567890")]
                                  (Some (mkBirthday (lit "09.06.2020")))).
    split; [reflexivity|]. right. vm_compute. eauto.
  - intros r bd [<-|[]] Hbd; vm_compute in Hbd; injection Hbd as <-.
    split; [vm_compute; repeat split; discriminate|].
    intros _. vm_compute. repeat split; discriminate.
  - rewrite H by lia. vm_compute. reflexivity.
Defined.

(** X19: when the month and day of every stored birthday exist in the
    current year and, for a day before today, in the next year, the query
    returns, in the order of the book, exactly the records that have a
    birthday whose occurrence (this year's, or next year's when this
    year's is strictly before today) lies 0 to [days] days after today,
    each with its name and the occurrence written with [strftime] after it
    was moved 2 days for a Saturday and 1 day for a Sunday, to the Monday
    that follows; the window test is made on the occurrence before it is
    moved.  From the year 1000 on the date written has the ten characters
    of DD.MM.YYYY and reads back as the date shown; before it the year is
    written without leading zeros.  ([stored_ok] holds in every world of
    the program, see [reachable_stored_ok].) *)
Theorem get_upcoming_birthdays_answer (today : Date.date) (days : Z)
    (w : world) :
  stored_ok w ->
  (forall r bd, In r (book_records w) -> birthday_date r = Some bd ->
                occurrence_exists today bd) ->
  AddressBook_get_upcoming_birthdays today days w
  = (Ok (upcoming_spec today days (book_records w)), w)
  /\ (forall r bd, In r (book_records w) -> birthday_date r = Some bd ->
        let occ := occurrence today bd in
        Date.valid (shown_date occ)
        /\ Date.toordinal (shown_date occ)
           = Date.toordinal occ
             + (if Date.weekday occ =? 5 then 2
                else if Date.weekday occ =? 6 then 1 else 0)
        /\ (Date.weekday occ = 5 \/ Date.weekday occ = 6 ->
            Date.weekday (shown_date occ) = 0)
        /\ (Date.weekday occ <> 5 -> Date.weekday occ <> 6 ->
            shown_date occ = occ)
        /\ (1000 <= Date.year today ->
            length (Date.strftime_dmY (shown_date occ)) = 10%nat
            /\ strptime_dmY (Date.strftime_dmY (shown_date occ))
               = Ok (shown_date occ))).
Proof.
  intros Hok Hocc. split.
  - unfold AddressBook_get_upcoming_birthdays, book_records.
    apply (for_each_upcoming today days w _ Hok Hocc []).
  - intros r bd Hin Hbd occ.
    assert (Date.valid occ) as Hv
        by (apply occurrence_valid; eapply Hocc; eassumption).
    destruct (shown_date_spec occ Hv) as (Hs & Hord & Hmon & Hsame).
    split; [exact Hs|]. split; [exact Hord|]. split; [exact Hmon|].
    split; [exact Hsame|]. intros Hy.
    pose proof (occurrence_year today bd) as Hyo. fold occ in Hyo.
    assert (Date.year occ <= Date.year (shown_date occ)) as Hys.
    { apply year_le_of_toordinal; [exact Hv | exact Hs|].
      rewrite Hord.
      destruct (Date.weekday occ =? 5); [lia|].
      destruct (Date.weekday occ =? 6); lia. }
    destruct (strftime_dmY_read_back (shown_date occ) Hs) as (Hp & Hl & _);
      [lia|].
    split; assumption.
Qed.

Lemma get_upcoming_birthdays_answer_witness :
  AddressBook_get_upcoming_birthdays (Date.mk 2024 6 7) 7 june_world
  = (Ok [mkUpcoming (lit "alice") (lit "10.06.2024")], june_world)
  /\ Date.weekday (Date.mk 2024 6 9) = 6.
Proof.
  destruct (get_upcoming_birthdays_answer (Date.mk 2024 6 7) 7 june_world)
    as [H _].
  - repeat constructor. exists (mkRecord (mkName (lit "alice"))
                                  [mkPhone (lit "1234567890")]
                                  (Some (mkBirthday (lit "09.06.2020")))).
    split; [reflexivity|]. right. vm_compute. eauto.
  - intros r bd [<-|[]] Hbd; vm_compute in Hbd; injection Hbd as <-.
    split; [vm_compute; repeat split; discriminate|].
    intros _. vm_compute. repeat split; discriminate.
  - split; [|reflexivity]. rewrite H. vm_compute. reflexivity.
Defined.

